(** * tailor-cv: the tailoring and compilation route handlers

    A shallow embedding of the three Next.js route handlers that make up the
    tailoring-and-compilation pipeline:

    - the tailor route      (rate limiter, validation, model candidates,
                             [generateWithRetry], raw-HTTP fallback,
                             [stripCodeFences], document-class check);
    - the compile route     ([inferEngine], engine trial loop, PDF sniffing,
                             tar/bzip2 fallback);
    - the compile/upload route (upload validation, archive building,
                             [onlyArchive] mode, missing-package recovery,
                             [cleanup]).

    and of their client, the browser extension ([fetchWithRetry],
    [sanitizeInput], [validateApiKeyFormat], [redactSensitiveInfo],
    [saveToHistory], [validateJobDescription]).

    The repository holds two versions of the tailor route; they differ in
    the prompt they build and share every statement modelled here.

    JavaScript strings are sequences of UTF-16 code units and are modelled
    as [list N]; byte buffers are [list N] as well.  External services
    (the generative API, the compilation service, the package mirror, the
    [tar] program) are oracles collected in a [World] record, and every
    handler returns its response together with the new rate-limiter map, the
    new file system and the trace of external calls it made. *)

From Stdlib Require Import NArith ZArith List Bool Ascii String Lia.
From stdpp Require Import base decidable option numbers list gmap.

Import ListNotations.
Local Open Scope N_scope.

(** ** JavaScript strings *)

Module Js.

(** Code units of an ASCII literal. *)
Definition str (s : string) : list N :=
  List.map N_of_ascii (list_ascii_of_string s).

(** [WhiteSpace] and [LineTerminator] of ECMAScript: what [\s] matches and
    what [String.prototype.trim] removes. *)
Definition is_ws (c : N) : bool :=
  (c =? 9) || (c =? 10) || (c =? 11) || (c =? 12) || (c =? 13) || (c =? 32)
  || (c =? 160) || (c =? 5760) || ((8192 <=? c) && (c <=? 8202))
  || (c =? 8232) || (c =? 8233) || (c =? 8239) || (c =? 8287)
  || (c =? 12288) || (c =? 65279).

(** [\w]: the class [A-Za-z0-9_]. *)
Definition is_word (c : N) : bool :=
  ((48 <=? c) && (c <=? 57)) || ((65 <=? c) && (c <=? 90))
  || ((97 <=? c) && (c <=? 122)) || (c =? 95).

(** Case folding of one code unit.  Under the [i] flag (without [u]) a
    pattern character below 128 can only match a code unit below 128, so
    for the ASCII patterns of this program folding [A-Z] is exact.  The same
    function models [toLowerCase] where its result is only compared with
    the letters [t e x a r b z]. *)
Definition lower (c : N) : N :=
  if (65 <=? c) && (c <=? 90) then c + 32 else c.

Definition to_lower (s : list N) : list N := List.map lower s.

(** Skip the longest run of white space: a greedy [\s*] that is followed by
    a character which is not white space. *)
Fixpoint drop_ws (s : list N) : list N :=
  match s with
  | c :: s' => if is_ws c then drop_ws s' else s
  | [] => []
  end.

Definition trim (s : list N) : list N :=
  rev (drop_ws (rev (drop_ws s))).

(** Match the literal [p] at the head of [s]; the rest of [s] on success. *)
Fixpoint strip (p s : list N) : option (list N) :=
  match p, s with
  | [], _ => Some s
  | a :: p', c :: s' => if a =? c then strip p' s' else None
  | _ :: _, [] => None
  end.

(** The same under the [i] flag. *)
Fixpoint ci_strip (p s : list N) : option (list N) :=
  match p, s with
  | [], _ => Some s
  | a :: p', c :: s' => if lower a =? lower c then ci_strip p' s' else None
  | _ :: _, [] => None
  end.

(** An unanchored search: does [f] hold at some position of [s]
    (the end of the string included)? *)
Fixpoint anywhere (f : list N -> bool) (s : list N) : bool :=
  f s || match s with
         | [] => false
         | _ :: s' => anywhere f s'
         end.

Definition matches (o : option (list N)) : bool :=
  match o with Some _ => true | None => false end.

(** [s.includes(p)], [s.startsWith(p)], [s.endsWith(p)]. *)
Definition includes (p s : list N) : bool :=
  anywhere (fun t => matches (strip p t)) s.

Definition startsWith (p s : list N) : bool := matches (strip p s).

Definition endsWith (p s : list N) : bool :=
  matches (strip (rev p) (rev s)).

(** [\b] right after a word character: the next character is not one. *)
Definition at_word_end (rest : list N) : bool :=
  match rest with
  | [] => true
  | c :: _ => negb (is_word c)
  end.

(** Truthiness of a string, and the test [s && s.trim()]. *)
Definition truthy (s : list N) : bool :=
  match s with [] => false | _ => true end.

Definition nonblank (s : list N) : bool := truthy s && truthy (trim s).

End Js.

(** ** Engine inference (compile route) *)

Inductive Engine := pdflatex | xelatex | lualatex.

#[global] Instance Engine_eq_dec : EqDecision Engine.
Proof. solve_decision. Defined.

(** [/\\directlua\b/i] at the head of [s]. *)
Definition re_directlua_at (s : list N) : bool :=
  match Js.ci_strip (Js.str "\directlua") s with
  | Some rest => Js.at_word_end rest
  | None => false
  end.

(** [\\usepackage\{\s*fontspec\s*\}] at the head of [s] (flag [i]).  Neither
    [f] nor [}] is white space, so each [\s*] takes the whole run. *)
Definition re_fontspec_at (s : list N) : bool :=
  match Js.ci_strip (Js.str "\usepackage{") s with
  | Some r1 =>
      match Js.ci_strip (Js.str "fontspec") (Js.drop_ws r1) with
      | Some r2 => Js.matches (Js.ci_strip (Js.str "}") (Js.drop_ws r2))
      | None => false
      end
  | None => false
  end.

(** [\\setmainfont\b] at the head of [s] (flag [i]). *)
Definition re_setmainfont_at (s : list N) : bool :=
  match Js.ci_strip (Js.str "\setmainfont") s with
  | Some rest => Js.at_word_end rest
  | None => false
  end.

(** [/\\usepackage\{\s*fontspec\s*\}|\\setmainfont\b|polyglossia|xeCJK/i]
    at the head of [s]. *)
Definition re_fonts_at (s : list N) : bool :=
  re_fontspec_at s
  || re_setmainfont_at s
  || Js.matches (Js.ci_strip (Js.str "polyglossia") s)
  || Js.matches (Js.ci_strip (Js.str "xeCJK") s).

Definition inferEngine (tex : list N) : Engine :=
  if Js.anywhere re_directlua_at tex then lualatex
  else if Js.anywhere re_fonts_at tex then xelatex
  else pdflatex.

(** [/\\documentclass/.test(tex)] *)
Definition has_documentclass (tex : list N) : bool :=
  Js.includes (Js.str "\documentclass") tex.

(** [/pdf/i.test(contentType)] *)
Definition re_pdf (ct : list N) : bool :=
  Js.anywhere (fun t => Js.matches (Js.ci_strip (Js.str "pdf") t)) ct.


(** ** Per-IP fixed-window rate limiter

    Both the tailor route and the upload route keep a
    [Map<string, { count, resetAt }>] keyed by the client address and run the
    same five statements on it; only the map and the two constants differ. *)

Record RateEnt := { count : N; resetAt : N }.

(** [(req.headers.get("x-forwarded-for") || "").split(",")[0]?.trim() || "unknown"] *)
Fixpoint before_comma (s : list N) : list N :=
  match s with
  | [] => []
  | c :: s' => if c =? 44 then [] else c :: before_comma s'
  end.

Definition client_ip (xff : option (list N)) : list N :=
  let s := Js.trim (before_comma (default [] xff)) in
  if Js.truthy s then s else Js.str "unknown".

(** The entry after [if (now > ent.resetAt) {...}; ent.count++]. *)
Definition rate_bump (window : N) (now : N) (o : option RateEnt) : RateEnt :=
  let ent := default {| count := 0; resetAt := now + window |} o in
  let ent := if ent.(resetAt) <? now
             then {| count := 0; resetAt := now + window |} else ent in
  {| count := ent.(count) + 1; resetAt := ent.(resetAt) |}.

(** The new map, and whether [ent.count > max]. *)
Definition rate_step (window max : N) (m : gmap (list N) RateEnt)
    (ip : list N) (now : N) : gmap (list N) RateEnt * bool :=
  let ent := rate_bump window now (m !! ip) in
  (<[ip := ent]> m, max <? ent.(count)).

(** ** The tailor route *)

Module Tailor.

Definition TAILOR_RATE_WINDOW_MS : N := 60000.
Definition TAILOR_RATE_MAX : N := 20.

(** The parsed JSON body, [type Body]. *)
Record Body := {
  jd : option (list N);
  apiKey : option (list N);
  baseTex : option (list N);
  model : option (list N)
}.

(** [process.env] as far as the handler reads it. *)
Record Env := {
  GEMINI_API_KEY : option (list N);
  GEMINI_MODEL : option (list N)
}.

(** What [ai.models.generateContent] does: resolve with [resp.text]
    (possibly [undefined]), reject with an [ApiError] carrying a status, or
    reject with something else. *)
Inductive SdkResult :=
| SdkText (text : option (list N))
| SdkApiError (status : N)
| SdkOtherError.

(** What the [fetch] of [rawGenerateV1] and [resp.json()] give: a rejected
    promise (of either), or a response with its [ok] flag and, of its JSON,
    [candidates[0].content.parts] ([None] where the optional chain is
    undefined) with the [text] of each part. *)
Inductive RawHttp :=
| RawRejects
| RawResp (ok : bool) (parts : option (list (option (list N)))).

(** The external world of one request: the answer to the n-th SDK call and
    to the n-th raw call for a given model, and the bundled
    [public/base.tex] ([None] when [fs.readFile] rejects). *)
Record World := {
  sdk : nat -> list N -> SdkResult;
  raw : nat -> list N -> RawHttp;
  base_file : option (list N)
}.

Inductive Event :=
| EvGenerate (model : list N)      (* ai.models.generateContent *)
| EvSleep (ms : N)                 (* setTimeout(res, delay) *)
| EvRawFetch (model : list N).     (* fetch of the v1 endpoint *)

(** The calls made so far.  ([lastErr] is left out: it only feeds
    [console.error].) *)
Record GenState := {
  sdk_calls : nat;
  raw_calls : nat;
  trace : list Event
}.

Definition emit (e : Event) (st : GenState) : GenState :=
  {| sdk_calls := st.(sdk_calls); raw_calls := st.(raw_calls);
     trace := st.(trace) ++ [e] |}.

Definition count_sdk (st : GenState) : GenState :=
  {| sdk_calls := S st.(sdk_calls); raw_calls := st.(raw_calls);
     trace := st.(trace) |}.

Definition count_raw (st : GenState) : GenState :=
  {| sdk_calls := st.(sdk_calls); raw_calls := S st.(raw_calls);
     trace := st.(trace) |}.

Inductive Response :=
| TooManyRequests                       (* 429 { error: "Too many requests" } *)
| JdRequired                            (* 400 { error: "JD is required ..." } *)
| MissingKey                            (* 400 { error: "Missing GEMINI_API_KEY ..." } *)
| GeminiFailed (tried : list (list N))  (* 502 { error, tried: validModels } *)
| Tex (tex : list N)                    (* 200 { tex } *)
| InternalError.                        (* 500 from the outer catch *)

Definition http_status (r : Response) : N :=
  match r with
  | TooManyRequests => 429
  | JdRequired | MissingKey => 400
  | GeminiFailed _ => 502
  | Tex _ => 200
  | InternalError => 500
  end.

Definition static_models : list (list N) :=
  List.map Js.str
    [ "gemini-1.5-flash-latest"; "gemini-1.5-flash"; "gemini-1.5-pro-latest";
      "gemini-1.5-pro"; "gemini-1.5-flash-8b"; "gemini-pro"; "gemini-1.0-pro";
      "gemini-1.0-pro-latest"; "gemini-2.0-flash-001"; "gemini-2.0-pro-001" ]%string.

(** The [filter] callback of [validModels]. *)
Definition valid_model (m : option (list N)) : option (list N) :=
  match m with
  | Some s =>
      if Js.truthy s && negb (Js.includes (Js.str "embedding") s)
         && negb (Js.includes (Js.str "gecko") s)
      then Some s else None
  | None => None
  end.

Definition validModels (requestedModel : option (list N)) (env : Env)
    : list (list N) :=
  omap valid_model
    ([requestedModel; env.(GEMINI_MODEL)] ++ List.map Some static_models).

(** The [for] loop of [generateWithRetry]: [left] iterations remain and the
    loop variable is [i].  The result is what the function returns
    ([None] for an undefined [resp.text], [Some []] for [""]). *)
Fixpoint retry_loop (w : World) (model : list N) (left : nat) (i : N)
    (st : GenState) : option (list N) * GenState :=
  match left with
  | O => (Some [], st)
  | S left' =>
      let st1 := count_sdk (emit (EvGenerate model) st) in
      match w.(sdk) st.(sdk_calls) model with
      | SdkText text => (text, st1)
      | SdkApiError code =>
          if code =? 429
          then retry_loop w model left' (i + 1) (emit (EvSleep (2 ^ i * 1000)) st1)
          else (Some [], st1)
      | SdkOtherError => (Some [], st1)
      end
  end.

Definition generateWithRetry (w : World) (model : list N) (st : GenState)
    : option (list N) * GenState :=
  let maxRetries := 3%nat in
  retry_loop w model maxRetries 0 st.

(** [for (const name of validModels) { ...; tex = (await generateWithRetry(name)) || "";
    if (tex && tex.trim()) break; }] *)
Fixpoint sdk_loop (w : World) (models : list (list N)) (tex : list N)
    (st : GenState) : list N * GenState :=
  match models with
  | [] => (tex, st)
  | name :: rest =>
      if negb (Js.truthy name) then sdk_loop w rest tex st
      else
        let '(r, st1) := generateWithRetry w name st in
        let tex1 := default [] r in
        if Js.nonblank tex1 then (tex1, st1) else sdk_loop w rest tex1 st1
  end.

(** [parts.map(p => p?.text).filter(Boolean).join("\n")] *)
Fixpoint join_lines (l : list (list N)) : list N :=
  match l with
  | [] => []
  | [x] => x
  | x :: l' => x ++ [10] ++ join_lines l'
  end.

Definition keep_truthy (o : option (list N)) : option (list N) :=
  match o with
  | Some s => if Js.truthy s then Some s else None
  | None => None
  end.

(** The text [rawGenerateV1] extracts from the response JSON. *)
Definition raw_text (parts : option (list (option (list N)))) : list N :=
  match parts with
  | None => []
  | Some ps =>
      let joined := join_lines (omap keep_truthy ps) in
      if Js.truthy joined then joined
      else match ps with
           | Some t :: _ => t
           | _ => []
           end
  end.

(** [rawGenerateV1]: [None] when it throws (rejected fetch, or [!resp.ok]). *)
Definition rawGenerateV1 (w : World) (model : list N) (st : GenState)
    : option (list N) * GenState :=
  let st1 := count_raw (emit (EvRawFetch model) st) in
  match w.(raw) st.(raw_calls) model with
  | RawRejects => (None, st1)
  | RawResp ok parts => if ok then (Some (raw_text parts), st1) else (None, st1)
  end.

(** The fallback loop inside its [try]: a throw leaves the loop, and [tex]
    is assigned only by a non-blank answer. *)
Fixpoint raw_loop (w : World) (models : list (list N)) (tex : list N)
    (st : GenState) : list N * GenState :=
  match models with
  | [] => (tex, st)
  | name :: rest =>
      if negb (Js.truthy name) then raw_loop w rest tex st
      else
        match rawGenerateV1 w name st with
        | (None, st1) => (tex, st1)
        | (Some r, st1) =>
            if Js.nonblank r then (r, st1) else raw_loop w rest tex st1
        end
  end.

(** [/^\s*```(?:latex|tex)?\s*/i]: what is left of [s] after the match at
    its start, if there is one. *)
Definition re_open_fence (s : list N) : option (list N) :=
  match Js.strip (Js.str "```") (Js.drop_ws s) with
  | Some r =>
      let r' := match Js.ci_strip (Js.str "latex") r with
                | Some r1 => r1
                | None => match Js.ci_strip (Js.str "tex") r with
                          | Some r2 => r2
                          | None => r
                          end
                end in
      Some (Js.drop_ws r')
  | None => None
  end.

(** [/\s*```\s*$/i] at the head of [s]: a run of white space, the fence,
    and white space up to the end of the string. *)
Definition re_close_fence_at (s : list N) : bool :=
  match Js.strip (Js.str "```") (Js.drop_ws s) with
  | Some r => forallb Js.is_ws r
  | None => false
  end.

(** Cut [s] at the leftmost position where [f] holds. *)
Fixpoint cut_at (f : list N -> bool) (s : list N) : list N :=
  if f s then []
  else match s with
       | [] => []
       | c :: s' => c :: cut_at f s'
       end.

Definition stripCodeFences (s : list N) : list N :=
  let s1 := default s (re_open_fence s) in
  cut_at re_close_fence_at s1.

(** The handler from the rate limiter to the model loops: either an early
    response, or the validated job description, the key and the resolved
    base resume. *)
Record Resolved := { r_jd : list N; r_key : list N; r_base : list N }.

Definition jd_invalid (jd : option (list N)) : bool :=
  match jd with
  | None => true
  | Some s => negb (Js.truthy s) || (N.of_nat (length (Js.trim s)) <? 16)
  end.

Definition first_truthy (a b : option (list N)) : option (list N) :=
  match keep_truthy a with
  | Some s => Some s
  | None => keep_truthy b
  end.

Definition resolve (env : Env) (w : World) (over_limit : bool) (b : Body)
    : Response + Resolved :=
  if over_limit then inl TooManyRequests
  else if jd_invalid b.(jd) then inl JdRequired
  else match first_truthy b.(apiKey) env.(GEMINI_API_KEY) with
       | None => inl MissingKey
       | Some key =>
           match keep_truthy b.(baseTex) with
           | Some base =>
               inr {| r_jd := default [] b.(jd); r_key := key; r_base := base |}
           | None =>
               match w.(base_file) with
               | Some base =>
                   inr {| r_jd := default [] b.(jd); r_key := key; r_base := base |}
               | None => inl InternalError
               end
           end
       end.

Definition init : GenState := {| sdk_calls := 0; raw_calls := 0; trace := [] |}.

(** Both calling conventions: the text the handler ends up with ([None]
    when it answers 502). *)
Definition generate (w : World) (models : list (list N))
    : option (list N) * GenState :=
  let '(tex, st) := sdk_loop w models [] init in
  if Js.nonblank tex then (Some tex, st)
  else
    let '(tex2, st2) := raw_loop w models tex st in
    if Js.nonblank tex2 then (Some tex2, st2) else (None, st2).

(** The last step: strip fences, trim, and fall back to the base resume
    when the document class is gone. *)
Definition finish (base tex : list N) : Response :=
  let tex' := Js.trim (stripCodeFences tex) in
  if negb (has_documentclass tex') then Tex base else Tex tex'.

(** The body of the handler's [try] once [req.json()] has resolved. *)
Definition tailor (env : Env) (w : World) (tailorRate : gmap (list N) RateEnt)
    (now : N) (xff : option (list N)) (b : Body)
    : Response * gmap (list N) RateEnt * list Event :=
  let '(rate', over) :=
    rate_step TAILOR_RATE_WINDOW_MS TAILOR_RATE_MAX tailorRate (client_ip xff) now in
  match resolve env w over b with
  | inl resp => (resp, rate', [])
  | inr r =>
      let models := validModels b.(model) env in
      match generate w models with
      | (None, st) => (GeminiFailed models, rate', st.(trace))
      | (Some tex, st) => (finish r.(r_base) tex, rate', st.(trace))
      end
  end.

(** The handler: [req.json()] rejects ([None]) or gives the body. *)
Definition POST (env : Env) (w : World) (tailorRate : gmap (list N) RateEnt)
    (now : N) (xff : option (list N)) (json : option Body)
    : Response * gmap (list N) RateEnt * list Event :=
  match json with
  | None => (InternalError, tailorRate, [])
  | Some b => tailor env w tailorRate now xff b
  end.

End Tailor.

(** Keep the first occurrence of every element, in order: what
    [a.filter((v, i, a) => a.indexOf(v) === i)] and
    [Array.from(new Set(a))] compute.  [seen] holds the elements met so far. *)
Fixpoint dedup_first {A} `{EqDecision A} (seen l : list A) : list A :=
  match l with
  | [] => []
  | x :: rest =>
      if bool_decide (x ∈ seen) then dedup_first seen rest
      else x :: dedup_first (x :: seen) rest
  end.

(** ** What the two compile routes share *)

Module Svc.

(** A response of [fetch] after [arrayBuffer()]. *)
Record HttpResp := {
  status : N;
  content_type : option (list N);
  body : list N
}.

(** [resp.ok] *)
Definition ok (r : HttpResp) : bool :=
  (200 <=? r.(status)) && (r.(status) <=? 299).

(** A rejected promise (network error, or the abort of the timeout) with
    the text of [e?.message || String(e)], or a response. *)
Inductive HttpResult :=
| Rejects (message : list N)
| Resolves (r : HttpResp).

(** [buf.byteLength > 4 && new TextDecoder("ascii").decode(buf.slice(0, 4)) === "%PDF"].
    The decoder maps a byte below 128 to itself and no other byte to an
    ASCII character, so the comparison is one of bytes. *)
Definition isPdfHeader (buf : list N) : bool :=
  (4 <? N.of_nat (length buf)) && bool_decide (take 4 buf = Js.str "%PDF").

Definition isPdfType (r : HttpResp) : bool :=
  re_pdf (default [] r.(content_type)).

(** [resp.ok && (isPdfType || isPdfHeader)] *)
Definition pdf_success (r : HttpResp) : bool :=
  ok r && (isPdfType r || isPdfHeader r.(body)).

(** Contents of files: raw bytes, the UTF-8 encoding of a string, or the
    output of [tar -cjf] over the listed members. *)
Inductive Content :=
| Bytes (b : list N)
| Utf8 (s : list N).

Inductive Data :=
| Plain (c : Content)
| TarBz2 (members : list (list N * Content)).

Inductive Node :=
| Dir
| File (d : Data).

(** [path.join(dir, name)] for a [name] without separators or dot
    segments, which is all that this definition covers: [path.join]
    normalises, so a [name] with a separator can name a file elsewhere.
    The handlers join fixed names, the name of the upload and the names of
    packages; statements about the last two say that these names hold no
    separator. *)
Definition path_join (dir name : list N) : list N :=
  dir ++ Js.str "/" ++ name.

(** Is [p] the directory [dir] or something below it? *)
Definition within (dir p : list N) : bool :=
  bool_decide (p = dir) || Js.startsWith (dir ++ Js.str "/") p.

(** [new Response(body, { status })] with a body that is not null: the
    constructor throws a [RangeError] for a status outside 200..599 and a
    [TypeError] for a null body status (204, 205, 304; 101 and 103 lie
    below 200). *)
Definition body_status_ok (st : N) : bool :=
  (200 <=? st) && (st <=? 599)
  && negb ((st =? 204) || (st =? 205) || (st =? 304)).

(** A header value is accepted when it is a byte string (no code unit
    above 255) without NUL, line feed or carriage return; otherwise the
    [Headers] of the response throw a [TypeError]. *)
Definition header_value_ok (v : list N) : bool :=
  forallb (fun c => (c <=? 255) && negb ((c =? 0) || (c =? 10) || (c =? 13))) v.

(** [fs.rmSync(p, { recursive: true, force: true })] *)
Definition rmSync_rf (p : list N) (fs : gmap (list N) Node)
    : gmap (list N) Node :=
  filter (fun kv => within p kv.1 = false) fs.

(** [tar -cjf out -C dir member]: the archive holds the one member named on
    the command line.  [None] when the command fails ([execSync] throws). *)
Definition tar_cjf (tar_runs : bool) (out dir member : list N)
    (fs : gmap (list N) Node) : option (gmap (list N) Node) :=
  if tar_runs then
    match fs !! path_join dir member with
    | Some (File (Plain c)) => Some (<[out := File (TarBz2 [(member, c)])]> fs)
    | _ => None
    end
  else None.

(** What is sent to the compilation service. *)
Inductive SvcRequest :=
| PostText (engine : Engine) (tex : list N)   (* POST /compile?command=engine *)
| GetText (engine : Engine) (tex : list N)    (* GET  /compile?command=engine&force=true&text=... *)
| PostArchive (file : option Node).           (* POST /data?target=main.tex&force=true&command=pdflatex *)

(** The platform and the services of one request. *)
Record World := {
  svc : nat -> SvcRequest -> HttpResult;   (* n-th call to latexonline.cc *)
  ctan : list N -> HttpResult;             (* GET of a package from mirrors.ctan.org *)
  tar_runs : bool;                         (* does execSync("tar ...") succeed? *)
  tar_error : list N;                      (* String(e) when it does not *)
  append_error : list N;                   (* e?.message || String(e) of the TypeError of FormData.append(name, stream, filename) *)
  tmpdir : list N;                         (* os.tmpdir() *)
  mkdtemp : list N -> list N;              (* the directory mkdtempSync creates for a prefix *)
  utf8_decode : list N -> list N           (* new TextDecoder("utf-8").decode *)
}.

Inductive Event :=
| EvCompile (rq : SvcRequest)
| EvCtan (package : list N).

End Svc.

(** ** The compile route (text body) *)

Module Compile.
Import Svc.

Record CompileBody := { tex : option (list N); engine : option Engine }.

Definition engine_name (e : Engine) : list N :=
  match e with
  | pdflatex => Js.str "pdflatex"
  | xelatex => Js.str "xelatex"
  | lualatex => Js.str "lualatex"
  end.

(** An entry of [tried]. *)
Record Attempt := {
  a_engine : list N;
  a_status : option N;
  a_error : option (list N)
}.

Inductive Response :=
| InvalidDocument                                    (* 400 *)
| Pdf (bytes : list N)                               (* 200 application/pdf *)
| CompileFailed (hint : list N) (tried : list Attempt)   (* 502 *)
| InternalError.                                     (* 500 *)

Definition http_status (r : Response) : N :=
  match r with
  | InvalidDocument => 400
  | Pdf _ => 200
  | CompileFailed _ _ => 502
  | InternalError => 500
  end.

(** [safeText] *)
Definition safeText (w : World) (buf : list N) : list N :=
  take (N.to_nat 8000) (w.(utf8_decode) buf).

Definition failure_msg (w : World) (r : HttpResp) : list N :=
  if isPdfType r || isPdfHeader r.(body)
  then Js.str "unexpected non-ok while PDF-like"
  else safeText w r.(body).

(** [engines.filter((v, i, a) => a.indexOf(v) === i)] *)
Definition engine_order (initial : Engine) : list Engine :=
  dedup_first [] [initial; xelatex; lualatex; pdflatex].

(** One [try { fetch ... } catch { tried.push ... }] block: the PDF bytes
    when the handler returns from it, and the new [tried]. *)
Definition attempt (w : World) (n : nat) (rq : SvcRequest) (name : list N)
    (tried : list Attempt) : option (list N) * list Attempt :=
  match w.(svc) n rq with
  | Rejects msg =>
      (None, tried ++ [{| a_engine := name; a_status := None; a_error := Some msg |}])
  | Resolves r =>
      if pdf_success r then (Some r.(body), tried)
      else (None, tried ++ [{| a_engine := name; a_status := Some r.(status);
                               a_error := Some (failure_msg w r) |}])
  end.

(** The engine loop: for each engine a POST and then a GET; [n] service
    calls were made before. *)
Fixpoint try_engines (w : World) (tex : list N) (engs : list Engine) (n : nat)
    (tried : list Attempt) (tr : list Event)
    : option (list N) * nat * list Attempt * list Event :=
  match engs with
  | [] => (None, n, tried, tr)
  | eng :: rest =>
      let rq1 := PostText eng tex in
      match attempt w n rq1 (engine_name eng) tried with
      | (Some pdf, tried1) => (Some pdf, S n, tried1, tr ++ [EvCompile rq1])
      | (None, tried1) =>
          let rq2 := GetText eng tex in
          match attempt w (S n) rq2 (engine_name eng) tried1 with
          | (Some pdf, tried2) =>
              (Some pdf, S (S n), tried2, tr ++ [EvCompile rq1; EvCompile rq2])
          | (None, tried2) =>
              try_engines w tex rest (S (S n)) tried2
                (tr ++ [EvCompile rq1; EvCompile rq2])
          end
      end
  end.

Definition tar_entry (msg : option (list N)) (st : option N) : Attempt :=
  {| a_engine := Js.str "tar-bz2"; a_status := st; a_error := msg |}.

(** The tar/bzip2 fallback with its [try] and [catch].  The directory,
    [main.tex] and the archive are made; then
    [form.append("file", stream, "archive.tar.bz2")] hands a read stream
    with a file name to the platform's [FormData], which takes a [Blob]
    there and throws a [TypeError].  So the [catch] is reached on every
    path: what stands behind the [append] in the [try] (the [fetch] of the
    archive, the unlink and rmdir block, the test of the response) is never
    run, and nothing is removed. *)
Definition archive_fallback (w : World) (tex : list N)
    (tried : list Attempt) (tr : list Event) (fs : gmap (list N) Node)
    : Response * gmap (list N) Node * list Event :=
  let hint := if negb (has_documentclass tex)
              then Js.str "Missing \documentclass. " else [] in
  let tmp := w.(mkdtemp) (path_join w.(tmpdir) (Js.str "latex-")) in
  let texPath := path_join tmp (Js.str "main.tex") in
  let tarPath := path_join tmp (Js.str "archive.tar.bz2") in
  let fs1 := <[texPath := File (Plain (Utf8 tex))]> (<[tmp := Dir]> fs) in
  match tar_cjf w.(tar_runs) tarPath tmp (Js.str "main.tex") fs1 with
  | None =>
      (CompileFailed hint
         (tried ++ [tar_entry (Some (Js.str "tar creation failed: " ++ w.(tar_error)))
                      None]),
       fs1, tr)
  | Some fs2 =>
      (CompileFailed hint (tried ++ [tar_entry (Some w.(append_error)) None]),
       fs2, tr)
  end.

(** The body of the handler's [try] once [req.json()] has resolved. *)
Definition compile (w : World) (fs : gmap (list N) Node) (b : CompileBody)
    : Response * gmap (list N) Node * list Event :=
  match b.(tex) with
  | None => (InvalidDocument, fs, [])
  | Some t =>
      if negb (Js.truthy t) || negb (has_documentclass t)
      then (InvalidDocument, fs, [])
      else
        let initial := default (inferEngine t) b.(engine) in
        match try_engines w t (engine_order initial) 0 [] [] with
        | (Some pdf, _, _, tr) => (Pdf pdf, fs, tr)
        | (None, _, tried, tr) => archive_fallback w t tried tr fs
        end
  end.

Definition POST (w : World) (fs : gmap (list N) Node) (json : option CompileBody)
    : Response * gmap (list N) Node * list Event :=
  match json with
  | None => (InternalError, fs, [])
  | Some b => compile w fs b
  end.

End Compile.

(** ** The compile/upload route *)

Module Upload.
Import Svc.

Definition RATE_LIMIT_WINDOW_MS : N := 60000.
Definition RATE_LIMIT_MAX : N := 30.

(** [Number(process.env.MAX_UPLOAD_BYTES) || 5 * 1024 * 1024]; the argument
    is the number the variable holds, if it holds one. *)
Definition MAX_UPLOAD_BYTES (env : option N) : N :=
  match env with
  | Some n => if n =? 0 then 5 * 1024 * 1024 else n
  | None => 5 * 1024 * 1024
  end.

(** [form.get("file")]: nothing, a string, or a [File] with its name and
    bytes ([file.size] is the number of bytes). *)
Inductive FormValue :=
| NoField
| StringField (s : list N)
| FileField (name : list N) (content : list N).

Record Request := {
  xff : option (list N);                (* x-forwarded-for *)
  ctype : option (list N);              (* content-type *)
  form : option FormValue;              (* req.formData(); [None] when it rejects *)
  onlyArchive : option (list N)         (* url.searchParams.get("onlyArchive") *)
}.

Inductive Response :=
| TooManyRequests                          (* 429 *)
| ExpectedMultipart                        (* 400 *)
| MissingFile                              (* 400 *)
| UnsupportedType                          (* 400 *)
| TooLarge                                 (* 413 *)
| TarballFailed                            (* 500 "Failed to create tarball: ..." *)
| ArchiveBack (ct : list N) (filename : list N) (file : Data)   (* 200 *)
| ReadFailed                               (* 500 "Failed to read archive: ..." *)
| Pdf (bytes : list N)                     (* 200 application/pdf *)
| LogText (text : list N) (st : N)         (* the log, with resp.status *)
| InternalError.                           (* 500 from the outer catch *)

Definition http_status (r : Response) : N :=
  match r with
  | TooManyRequests => 429
  | ExpectedMultipart | MissingFile | UnsupportedType => 400
  | TooLarge => 413
  | TarballFailed | ReadFailed | InternalError => 500
  | ArchiveBack _ _ _ | Pdf _ => 200
  | LogText _ st => st
  end.

(** [path.basename]: trailing separators are ignored, then what follows
    the last separator. *)
Fixpoint drop_slashes (s : list N) : list N :=
  match s with
  | c :: s' => if c =? 47 then drop_slashes s' else s
  | [] => []
  end.

Fixpoint until (stop : N) (s : list N) : list N :=
  match s with
  | c :: s' => if c =? stop then [] else c :: until stop s'
  | [] => []
  end.

Definition basename (p : list N) : list N :=
  rev (until 47 (drop_slashes (rev p))).

(** [path.extname]: from the last dot of the base name, unless there is
    none, it is the first character, or the name is [..]. *)
Definition extname (p : list N) : list N :=
  let b := basename p in
  if negb (existsb (N.eqb 46) b) then []
  else
    let after := until 46 (rev b) in
    if (length b - length after =? 1)%nat then []
    else if bool_decide (b = Js.str "..") then []
    else 46 :: rev after.

Definition allowed : list (list N) :=
  List.map Js.str [".tex"; ".tar"; ".tar.bz2"; ".tbz2"; ".tar.bz"]%string.

(** The name the handler works with: [file.name], undefined for a string. *)
Definition file_name (v : FormValue) : list N :=
  match v with
  | FileField name _ => name
  | _ => []
  end.

Definition or_upload (name : list N) : list N :=
  if Js.truthy name then name else Js.str "upload".

(** The checks before anything is written: an early response, or the
    uploaded file. *)
Definition validate (env : option N) (over_limit : bool) (rq : Request)
    : Response + (list N * list N) :=
  if over_limit then inl TooManyRequests
  else if negb (Js.includes (Js.str "multipart/form-data") (default [] rq.(ctype)))
  then inl ExpectedMultipart
  else
    match rq.(form) with
    | None => inl InternalError
    | Some NoField => inl MissingFile
    | Some (StringField []) => inl MissingFile
    | Some v =>
        let lower := Js.to_lower (basename (or_upload (file_name v))) in
        if negb (existsb (fun ext => Js.endsWith ext lower) allowed)
        then inl UnsupportedType
        else
          match v with
          | FileField name content =>
              if MAX_UPLOAD_BYTES env <? N.of_nat (length content)
              then inl TooLarge
              else inr (name, content)
          | _ => inl InternalError
          end
    end.

(** [cleanup()] *)
Definition cleanup (tmp : list N) (fs : gmap (list N) Node)
    : gmap (list N) Node :=
  rmSync_rf tmp fs.

(** The staged upload: where the archive to send is, and the work
    directory when the archive was built here from a [.tex] file. *)
Record Staged := {
  tmp : list N;
  archivePath : list N;
  workdir : option (list N)
}.

(** Write the upload into a fresh directory and decide what to send.  The
    upload is written to [path.join(tmp, file.name || "upload")]: for a name
    without a separator that is a file in the new directory and the write
    succeeds, which is what this definition says.  (With a separator in the
    name the write can fail or land elsewhere; the statements below are
    about names without one.) *)
Definition stage (w : World) (name content : list N) (fs : gmap (list N) Node)
    : (Response + Staged) * gmap (list N) Node :=
  let tmp := w.(mkdtemp) (path_join w.(tmpdir) (Js.str "latex-upload-")) in
  let receivedPath := path_join tmp (or_upload name) in
  let fs1 := <[receivedPath := File (Plain (Bytes content))]> (<[tmp := Dir]> fs) in
  if Js.endsWith (Js.str ".tex") (Js.to_lower name) then
    let tarPath := path_join tmp (Js.str "archive.tar.bz2") in
    let work := path_join tmp (Js.str "work") in
    let mainPath := path_join work (Js.str "main.tex") in
    let fs2 := <[mainPath := File (Plain (Bytes content))]> (<[work := Dir]> fs1) in
    match tar_cjf w.(tar_runs) tarPath work (Js.str "main.tex") fs2 with
    | Some fs3 =>
        (inr {| tmp := tmp; archivePath := tarPath; workdir := Some work |}, fs3)
    | None => (inl TarballFailed, cleanup tmp fs2)
    end
  else
    (inr {| tmp := tmp; archivePath := receivedPath; workdir := None |}, fs1).

(** [url.searchParams.get("onlyArchive") === "1" || ... === "true"] *)
Definition only_archive (rq : Request) : bool :=
  bool_decide (rq.(onlyArchive) = Some (Js.str "1"))
  || bool_decide (rq.(onlyArchive) = Some (Js.str "true")).

(** [`attachment; filename="${path.basename(archivePath)}"`] *)
Definition content_disposition (archivePath : list N) : list N :=
  Js.str "attachment; filename=" ++ [34] ++ basename archivePath ++ [34].

(** The archive-only branch with its [try] and [catch]: the read of the
    archive or the construction of the response (its [Content-Disposition]
    header) may throw. *)
Definition send_back (s : Staged) (fs : gmap (list N) Node)
    : Response * gmap (list N) Node :=
  match fs !! s.(archivePath) with
  | Some (File d) =>
      let ext := Js.to_lower (extname s.(archivePath)) in
      let ct := if Js.includes (Js.str ".bz2") ext || Js.includes (Js.str ".tbz") ext
                then Js.str "application/x-bzip2"
                else Js.str "application/x-tar" in
      if header_value_ok (content_disposition s.(archivePath))
      then (ArchiveBack ct (basename s.(archivePath)) d, fs)
      else (ReadFailed, cleanup s.(tmp) fs)
  | _ => (ReadFailed, cleanup s.(tmp) fs)
  end.

(** [/File `([^']+)\.sty' not found/] at the head of [s]: the captured name
    and what follows the match.  The class [[^']] cannot cross a quote, so
    the name ends where [.sty'] does. *)
Definition re_missing_at (s : list N) : option (list N * list N) :=
  match Js.strip (Js.str "File `") s with
  | Some r =>
      let seg := until 39 r in
      match Js.strip (Js.str "' not found") (drop (length seg) r) with
      | Some rest =>
          if Js.endsWith (Js.str ".sty") seg && (4 <? length seg)%nat
          then Some (take (length seg - 4) seg, rest)
          else None
      | None => None
      end
  | None => None
  end.

(** [text.matchAll(...)] collected into [missing]: after a match the search
    goes on behind it ([skip] characters of the match remain). *)
Fixpoint missing_from (skip : nat) (s : list N) : list (list N) :=
  match s with
  | [] => []
  | _ :: s' =>
      match skip with
      | S k => missing_from k s'
      | O =>
          match re_missing_at s with
          | Some (name, rest) =>
              name :: missing_from (length s - length rest - 1) s'
          | None => missing_from 0 s'
          end
      end
  end.

Definition missing (text : list N) : list (list N) := missing_from 0 text.

(** The loop over [Array.from(new Set(missing))]: every fetched [.sty] is
    written into the work directory, at [path.join(workdir, sty + ".sty")].
    For a package name without a separator that is a file in the work
    directory and the write succeeds, which is what this definition says.
    (With a separator the write can fail, and then [fetchedAny] is not set
    for that package, or land elsewhere; the statements below are about
    names without one.) *)
Fixpoint fetch_packages (w : World) (work : list N) (pkgs : list (list N))
    (fetchedAny : bool) (fs : gmap (list N) Node) (tr : list Event)
    : bool * gmap (list N) Node * list Event :=
  match pkgs with
  | [] => (fetchedAny, fs, tr)
  | sty :: rest =>
      match w.(ctan) sty with
      | Resolves r =>
          if ok r then
            fetch_packages w work rest true
              (<[path_join work (sty ++ Js.str ".sty") := File (Plain (Bytes r.(body)))]> fs)
              (tr ++ [EvCtan sty])
          else fetch_packages w work rest fetchedAny fs (tr ++ [EvCtan sty])
      | Rejects _ => fetch_packages w work rest fetchedAny fs (tr ++ [EvCtan sty])
      end
  end.

(** The retry inside its [try]: the handler's response when it returns from
    there, and the new [buf]. *)
Definition retry_upload (w : World) (s : Staged) (work : list N) (buf : list N)
    (fs : gmap (list N) Node) (tr : list Event)
    : option Response * list N * gmap (list N) Node * list Event :=
  let tarPath2 := path_join s.(tmp) (Js.str "archive_retry.tar.bz2") in
  match tar_cjf w.(tar_runs) tarPath2 work (Js.str "main.tex") fs with
  | None => (None, buf, fs, tr)
  | Some fs1 =>
      let rq := PostArchive (fs1 !! tarPath2) in
      match w.(svc) 1 rq with
      | Rejects _ => (None, buf, fs1, tr ++ [EvCompile rq])
      | Resolves r2 =>
          if ok r2 && (isPdfHeader r2.(body) || isPdfType r2)
          then (Some (Pdf r2.(body)), r2.(body), cleanup s.(tmp) fs1, tr ++ [EvCompile rq])
          else (None, r2.(body), fs1, tr ++ [EvCompile rq])
      end
  end.

(** How the log is answered: [new NextResponse(text, { status: resp.status })]
    throws for a status that cannot go with a body, and the outer [catch]
    answers 500. *)
Definition log_response (text : list N) (st : N) : Response :=
  if body_status_ok st then LogText text st else InternalError.

(** From the first POST to the response. *)
Definition send_and_recover (w : World) (s : Staged) (fs : gmap (list N) Node)
    : Response * gmap (list N) Node * list Event :=
  match fs !! s.(archivePath) with
  | Some (File d) =>
      let rq := PostArchive (Some (File d)) in
      match w.(svc) 0 rq with
      | Rejects _ => (InternalError, fs, [EvCompile rq])
      | Resolves resp =>
          let tr := [EvCompile rq] in
          let '(early, buf, fs1, tr1) :=
            match s.(workdir) with
            | Some work =>
                if negb (ok resp) then
                  let names := missing (w.(utf8_decode) resp.(body)) in
                  if (0 <? length names)%nat then
                    let '(fetchedAny, fs', tr') :=
                      fetch_packages w work (dedup_first [] names) false fs tr in
                    if fetchedAny
                    then retry_upload w s work resp.(body) fs' tr'
                    else (None, resp.(body), fs', tr')
                  else (None, resp.(body), fs, tr)
                else (None, resp.(body), fs, tr)
            | None => (None, resp.(body), fs, tr)
            end in
          match early with
          | Some r => (r, fs1, tr1)
          | None =>
              let fs2 := cleanup s.(tmp) fs1 in
              if ok resp && (isPdfHeader resp.(body) || isPdfType resp)
              then (Pdf buf, fs2, tr1)
              else (log_response (w.(utf8_decode) buf) resp.(status), fs2, tr1)
          end
      end
  | _ => (InternalError, fs, [])
  end.

(** The handler. *)
Definition POST (env : option N) (w : World) (rateMap : gmap (list N) RateEnt)
    (fs : gmap (list N) Node) (now : N) (rq : Request)
    : Response * gmap (list N) RateEnt * gmap (list N) Node * list Event :=
  let '(rate', over) :=
    rate_step RATE_LIMIT_WINDOW_MS RATE_LIMIT_MAX rateMap (client_ip rq.(xff)) now in
  match validate env over rq with
  | inl resp => (resp, rate', fs, [])
  | inr (name, content) =>
      match stage w name content fs with
      | (inl resp, fs1) => (resp, rate', fs1, [])
      | (inr s, fs1) =>
          if only_archive rq then
            let '(resp, fs2) := send_back s fs1 in (resp, rate', fs2, [])
          else
            let '(resp, fs2, tr) := send_and_recover w s fs1 in
            (resp, rate', fs2, tr)
      end
  end.

End Upload.

(** ** Vocabulary of the statements *)

Module Spec.

(** Equal up to the case of the ASCII letters. *)
Definition ci_eq (m w : list N) : Prop := Js.to_lower m = Js.to_lower w.

Definition all_ws (s : list N) : Prop := forallb Js.is_ws s = true.

(** What follows does not continue a word: it is empty or begins with a
    character outside [A-Za-z0-9_]. *)
Definition ends_word (post : list N) : Prop :=
  match post with
  | [] => True
  | c :: _ => Js.is_word c = false
  end.

(** [w] occurs in [tex], letter case ignored. *)
Definition has_word (w tex : list N) : Prop :=
  ∃ pre m post, tex = pre ++ m ++ post ∧ ci_eq m w.

(** [w] occurs in [tex], letter case ignored, and the occurrence is not
    continued by a letter, a digit or an underscore. *)
Definition has_control_word (w tex : list N) : Prop :=
  ∃ pre m post, tex = pre ++ m ++ post ∧ ci_eq m w ∧ ends_word post.

(** [\usepackage{fontspec}], letter case ignored, with optional white space
    on either side of [fontspec] inside the braces. *)
Definition has_fontspec (tex : list N) : Prop :=
  ∃ pre m1 ws1 m2 ws2 m3 post,
    tex = pre ++ m1 ++ ws1 ++ m2 ++ ws2 ++ m3 ++ post
    ∧ ci_eq m1 (Js.str "\usepackage{") ∧ all_ws ws1
    ∧ ci_eq m2 (Js.str "fontspec") ∧ all_ws ws2
    ∧ ci_eq m3 (Js.str "}").

Definition lua_directive (tex : list N) : Prop :=
  has_control_word (Js.str "\directlua") tex.

Definition font_directive (tex : list N) : Prop :=
  has_fontspec tex
  ∨ has_control_word (Js.str "\setmainfont") tex
  ∨ has_word (Js.str "polyglossia") tex
  ∨ has_word (Js.str "xeCJK") tex.

(** Engine inference as the specification words it: the source contains
    the directive, by plain containment. *)
Definition inferEngine_spec (tex : list N) : Engine :=
  if Js.includes (Js.str "\directlua") tex then lualatex
  else if Js.includes (Js.str "\usepackage{fontspec}") tex
          || Js.includes (Js.str "\setmainfont") tex
          || Js.includes (Js.str "polyglossia") tex
          || Js.includes (Js.str "xeCJK") tex
  then xelatex
  else pdflatex.

(** The base resume the tailor route resolves: [baseTex] when it is given
    and not empty, else the bundled template. *)
Definition base_resume (w : Tailor.World) (b : Tailor.Body) : option (list N) :=
  match Tailor.keep_truthy b.(Tailor.baseTex) with
  | Some s => Some s
  | None => w.(Tailor.base_file)
  end.

(** Whether this request finds its address over the limit. *)
Definition over_limit (tailorRate : gmap (list N) RateEnt) (now : N)
    (xff : option (list N)) : bool :=
  (rate_step Tailor.TAILOR_RATE_WINDOW_MS Tailor.TAILOR_RATE_MAX
     tailorRate (client_ip xff) now).2.

(** The text the generative API handed to the tailor route, when the
    request got that far and some candidate answered. *)
Definition ai_output (env : Tailor.Env) (w : Tailor.World)
    (tailorRate : gmap (list N) RateEnt) (now : N) (xff : option (list N))
    (b : Tailor.Body) : option (list N) :=
  match Tailor.resolve env w (over_limit tailorRate now xff) b with
  | inl _ => None
  | inr _ => (Tailor.generate w (Tailor.validModels b.(Tailor.model) env)).1
  end.

(** The job description is missing, or shorter than 16 once trimmed. *)
Definition jd_too_short (b : Tailor.Body) : Prop :=
  b.(Tailor.jd) = None
  ∨ ∃ s, b.(Tailor.jd) = Some s ∧ (length (Js.trim s) < 16)%nat.

(** The requests an address has used in the running window. *)
Definition current_count (now : N) (o : option RateEnt) : N :=
  match o with
  | Some e => if e.(resetAt) <? now then 0 else e.(count)
  | None => 0
  end.

(** The candidate list as the specification words it: deduplicated. *)
Definition candidates_dedup (requested : option (list N)) (env : Tailor.Env)
    : list (list N) :=
  dedup_first [] (Tailor.validModels requested env).

(** [k] rounds of "call the model, get 429, sleep", the first sleep being
    [2^i] seconds. *)
Fixpoint rounds (m : list N) (i : N) (k : nat) : list Tailor.Event :=
  match k with
  | O => []
  | S k' =>
      Tailor.EvGenerate m :: Tailor.EvSleep (2 ^ i * 1000) :: rounds m (i + 1) k'
  end.

(** The direct attempts of the compile route, in order: for each engine a
    POST and then a GET. *)
Definition direct_requests (tex : list N) (engs : list Engine)
    : list Svc.SvcRequest :=
  flat_map (fun e => [Svc.PostText e tex; Svc.GetText e tex]) engs.

(** The n-th call to the compilation service fails: the promise is
    rejected, or the response is not taken for a PDF. *)
Definition fails (w : Svc.World) (n : nat) (rq : Svc.SvcRequest) : Prop :=
  match w.(Svc.svc) n rq with
  | Svc.Rejects _ => True
  | Svc.Resolves r => Svc.pdf_success r = false
  end.



(** Is the answer the archive itself (archive-only mode)? *)
Definition is_archive_back (r : Upload.Response) : bool :=
  match r with Upload.ArchiveBack _ _ _ => true | _ => false end.

(** The mirror gives nothing for [pkg]: the fetch rejects, or the response
    is not ok. *)
Definition mirror_fails (w : Svc.World) (pkg : list N) : Prop :=
  match w.(Svc.ctan) pkg with
  | Svc.Rejects _ => True
  | Svc.Resolves r => Svc.ok r = false
  end.

(** [e] is the first entry of the comma-separated list [h]. *)
Definition first_entry (h e : list N) : Prop :=
  ¬ In 44 e ∧ (h = e ∨ ∃ rest, h = e ++ 44 :: rest).

(** The key under which a client is counted: the first entry of its
    [x-forwarded-for] header without the white space around it, and the
    word [unknown] when there is no header or that entry is blank. *)
Definition address_key (xff : option (list N)) (key : list N) : Prop :=
  match xff with
  | None => key = Js.str "unknown"
  | Some h =>
      ∃ e, first_entry h e
           ∧ key = if Js.truthy (Js.trim e) then Js.trim e else Js.str "unknown"
  end.


(** What the upload route sends for a file: the archive it builds around a
    [.tex] file, or the file as it came. *)
Definition archive_of (name content : list N) : Svc.Data :=
  if Js.endsWith (Js.str ".tex") (Js.to_lower name)
  then Svc.TarBz2 [(Js.str "main.tex", Svc.Bytes content)]
  else Svc.Plain (Svc.Bytes content).

End Spec.

(** ** Concrete requests and worlds *)

Module Fixtures.
Import Tailor.

Definition env0 : Env := {| GEMINI_API_KEY := None; GEMINI_MODEL := None |}.

Definition resume : list N :=
  Js.str "\documentclass{article}\begin{document}Resume\end{document}".

Definition body_ok (requested : option (list N)) : Body :=
  {| jd := Some (Js.str "Backend engineer role requiring Kubernetes and Go experience");
     apiKey := Some (Js.str "key");
     baseTex := Some resume;
     model := requested |}.

Definition body_short : Body :=
  {| jd := Some (Js.str "  Go engineer  ");
     apiKey := Some (Js.str "key");
     baseTex := Some resume;
     model := None |}.

(** Every model answers with prose. *)
Definition w_prose : World :=
  {| sdk := fun _ _ => SdkText (Some (Js.str "Sorry, I cannot help with that."));
     raw := fun _ _ => RawRejects;
     base_file := None |}.

(** Every model answers with empty text, on both calling conventions. *)
Definition w_empty : World :=
  {| sdk := fun _ _ => SdkText (Some []);
     raw := fun _ _ => RawResp true (Some [Some []]);
     base_file := None |}.

(** Every model answers with three spaces, on both calling conventions. *)
Definition w_spaces : World :=
  {| sdk := fun _ _ => SdkText (Some (Js.str "   "));
     raw := fun _ _ => RawResp true (Some [Some (Js.str "   ")]);
     base_file := None |}.

(** The first call is answered with three spaces, the second with a
    document. *)
Definition w_blank_first : World :=
  {| sdk := fun n _ => match n with
                       | O => SdkText (Some (Js.str "   "))
                       | _ => SdkText (Some resume)
                       end;
     raw := fun _ _ => RawRejects;
     base_file := None |}.

(** The address [unknown] has used its 20 requests of the window that
    ends at 60000. *)
Definition rate_full : gmap (list N) RateEnt :=
  {[ Js.str "unknown" := {| count := 20; resetAt := 60000 |} ]}.

(** A platform with a working [tar], whose decoder is the identity (the
    logs below are ASCII). *)
Definition platform (svc : nat -> Svc.SvcRequest -> Svc.HttpResult)
    (ctan : list N -> Svc.HttpResult) : Svc.World :=
  {| Svc.svc := svc; Svc.ctan := ctan; Svc.tar_runs := true;
     Svc.tar_error := [];
     Svc.append_error :=
       Js.str "Failed to execute 'append' on 'FormData': parameter 2 is not of type 'Blob'";
     Svc.tmpdir := Js.str "/tmp";
     Svc.mkdtemp := fun prefix => prefix ++ Js.str "Ab3xYz";
     Svc.utf8_decode := fun b => b |}.


(** 200, labelled text/plain, with a PDF signature. *)
Definition r_pdf_plain : Svc.HttpResp :=
  {| Svc.status := 200; Svc.content_type := Some (Js.str "text/plain");
     Svc.body := Js.str "%PDF-1.5 ..." |}.



(** 400 with a log that misses a package. *)
Definition r_missing_foo : Svc.HttpResp :=
  {| Svc.status := 400; Svc.content_type := Some (Js.str "text/plain");
     Svc.body := Js.str "! LaTeX Error: File `foo.sty' not found." |}.

(** The mirror has [foo] only. *)
Definition ctan_foo (pkg : list N) : Svc.HttpResult :=
  if bool_decide (pkg = Js.str "foo")
  then Svc.Resolves {| Svc.status := 200; Svc.content_type := None;
                       Svc.body := Js.str "\ProvidesPackage{foo}" |}
  else Svc.Rejects (Js.str "fetch failed").

Definition compile_body : Compile.CompileBody :=
  {| Compile.tex := Some (Js.str "\documentclass{article}\begin{document}x\end{document}");
     Compile.engine := None |}.

(** A multipart upload of [cv.tex]. *)
Definition upload_tex (only : option (list N)) : Upload.Request :=
  {| Upload.xff := None;
     Upload.ctype := Some (Js.str "multipart/form-data; boundary=x");
     Upload.form := Some (Upload.FileField (Js.str "cv.tex")
                            (Js.str "\documentclass{article}\usepackage{foo}"));
     Upload.onlyArchive := only |}.


End Fixtures.

(** ** The browser extension: background worker and input checks

    The extension is the client of the tailor route and of the upload
    route: [handleTailorRequest] sends the sanitized job description to
    [/api/tailor], [handleCompileRequest] uploads [resume.tex] to
    [/api/compile/upload], both through [fetchWithRetry]. *)

Module Extension.

(** [ErrorCodes] *)
Inductive ErrorCode :=
| NO_API_KEY | NO_BASE_RESUME | NETWORK_ERROR | API_ERROR | RATE_LIMIT
| INVALID_RESPONSE | STORAGE_ERROR | COMPILATION_ERROR | VALIDATION_ERROR
| OFFLINE_ERROR.

(** The message of an error: a given text, or the template
    [`Max retries exceeded. Status: ${response.status}`]. *)
Inductive Message :=
| Text (s : list N)
| MaxRetriesExceeded (status : N).

Record ExtensionError := { message : Message; code : ErrorCode }.

(** [sanitizeInput] on a string: [input.replace(/\0/g, '')], then
    [trim()]. *)
Definition sanitizeInput (input : list N) : list N :=
  Js.trim (List.filter (fun c => negb (c =? 0)) input).

(** The class [[A-Za-z0-9_-]]. *)
Definition is_key_char (c : N) : bool :=
  ((65 <=? c) && (c <=? 90)) || ((97 <=? c) && (c <=? 122))
  || ((48 <=? c) && (c <=? 57)) || (c =? 95) || (c =? 45).

(** [validateApiKeyFormat] on a string; [/^[A-Za-z0-9_-]+$/] asks for one
    character at least, all of them of the class. *)
Definition validateApiKeyFormat (apiKey : list N) : bool :=
  if negb (Js.truthy apiKey) then false
  else
    let trimmed := Js.trim apiKey in
    if (length trimmed <? 20)%nat || (100 <? length trimmed)%nat then false
    else Js.truthy trimmed && forallb is_key_char trimmed.

(** [message.replace(/[A-Za-z0-9_-]{20,}/g, '[REDACTED]')].  The quantifier
    is greedy and the class is closed under nothing else, so a match is a
    maximal run of class characters of length 20 or more; a shorter run
    holds no match.  [run] is the run read so far, last character first. *)
Definition flush (run : list N) : list N :=
  if (20 <=? length run)%nat then Js.str "[REDACTED]" else rev run.

Fixpoint redact_runs (run : list N) (s : list N) : list N :=
  match s with
  | [] => flush run
  | c :: s' =>
      if is_key_char c then redact_runs (c :: run) s'
      else flush run ++ c :: redact_runs [] s'
  end.

Definition redactSensitiveInfo (message : list N) : list N :=
  redact_runs [] message.

(** What [fetchWithRetry] does to the outside: a [fetch], or a pause. *)
Inductive Event :=
| EvFetch
| EvSleep (ms : N).

(** How the [try] block of one round ends: with [return response], with
    [continue] after its pause, or with an exception (the rejection of
    [fetch], or the [ExtensionError] of the last round with its code). *)
Inductive Outcome :=
| Returns (r : Svc.HttpResp)
| Continues
| Throws (m : Message) (c : option ErrorCode).

(** [Math.pow(2, i) * 1000] *)
Definition delay (i : nat) : N := 2 ^ N.of_nat i * 1000.

(** The [try] block of round [i]; [last] is [i === maxRetries - 1].  The
    i-th call of [fetch] is the one of round [i]. *)
Definition try_round (fetch : nat -> Svc.HttpResult) (last : bool) (i : nat)
    : Outcome * list Event :=
  match fetch i with
  | Svc.Rejects msg => (Throws (Text msg) None, [EvFetch])
  | Svc.Resolves r =>
      if (r.(Svc.status) =? 429) || (500 <=? r.(Svc.status)) then
        if last then
          (Throws (MaxRetriesExceeded r.(Svc.status))
             (Some (if r.(Svc.status) =? 429 then RATE_LIMIT else API_ERROR)),
           [EvFetch])
        else (Continues, [EvFetch; EvSleep (delay i)])
      else (Returns r, [EvFetch])
  end.

(** The loop, with [left = maxRetries - i] rounds to go; the [catch] of a
    round rethrows in the last round and pauses otherwise. *)
Fixpoint retry_rounds (fetch : nat -> Svc.HttpResult) (i left : nat)
    (tr : list Event) : (ExtensionError + Svc.HttpResp) * list Event :=
  match left with
  | O =>
      (inl {| message := Text (Js.str "Unexpected retry loop exit");
              code := NETWORK_ERROR |}, tr)
  | S left' =>
      let last := match left' with O => true | S _ => false end in
      match try_round fetch last i with
      | (Returns r, ev) => (inr r, tr ++ ev)
      | (Continues, ev) => retry_rounds fetch (S i) left' (tr ++ ev)
      | (Throws m _, ev) =>
          if last then (inl {| message := m; code := NETWORK_ERROR |}, tr ++ ev)
          else retry_rounds fetch (S i) left' (tr ++ ev ++ [EvSleep (delay i)])
      end
  end.

Definition fetchWithRetry (fetch : nat -> Svc.HttpResult) (maxRetries : nat)
    : (ExtensionError + Svc.HttpResp) * list Event :=
  retry_rounds fetch 0 maxRetries [].

(** An entry of the history. *)
Record HistoryItem := {
  id : list N;
  timestamp : N;
  h_jd : list N;        (* jd *)
  jdFull : list N;
  h_tex : list N        (* tex *)
}.

(** [saveToHistory]: the list handed to [setStorage].  [stored] is
    [storage.history], [now] is [Date.now()] and [fresh_id] the identifier
    made from it and [Math.random()]. *)
Definition saveToHistory (fresh_id : list N) (now : N)
    (stored : option (list HistoryItem)) (tex jd : list N) : list HistoryItem :=
  let history := default [] stored in
  let historyItem :=
    {| id := fresh_id; timestamp := now; h_jd := take 200 jd; jdFull := jd;
       h_tex := tex |} in
  let history := historyItem :: history in
  if (5 <? length history)%nat then take 5 history else history.

(** [ValidationResult] *)
Record ValidationResult := { valid : bool; error : option (list N) }.

(** [validateJobDescription]; [None] is a value that is not a string. *)
Definition validateJobDescription (jd : option (list N)) : ValidationResult :=
  match jd with
  | None =>
      {| valid := false; error := Some (Js.str "Job description is required.") |}
  | Some s =>
      if negb (Js.truthy s)
      then {| valid := false; error := Some (Js.str "Job description is required.") |}
      else
        let trimmedJd := Js.trim s in
        if (length trimmedJd =? 0)%nat
        then {| valid := false;
                error := Some (Js.str "Job description cannot be empty.") |}
        else if (length trimmedJd <? 16)%nat
        then {| valid := false;
                error := Some (Js.str
                  "Job description must be at least 16 characters long.") |}
        else {| valid := true; error := None |}
  end.

End Extension.

(** ** Further vocabulary *)

Module More.

(** One address sends requests at the given times: the map afterwards and,
    for each request, whether it found the address over the limit. *)
Fixpoint rate_run (window max : N) (m : gmap (list N) RateEnt) (ip : list N)
    (times : list N) : gmap (list N) RateEnt * list bool :=
  match times with
  | [] => (m, [])
  | t :: ts =>
      let '(m1, over) := rate_step window max m ip t in
      let '(m2, overs) := rate_run window max m1 ip ts in
      (m2, over :: overs)
  end.

(** A usable model identifier: not empty, and naming neither an embedding
    nor a gecko model. *)
Definition clean_model (s : list N) : bool :=
  Js.truthy s && negb (Js.includes (Js.str "embedding") s)
  && negb (Js.includes (Js.str "gecko") s).

(** The first and the last character, when there is one, are not white
    space. *)
Definition no_edge_ws (s : list N) : Prop :=
  Js.drop_ws s = s ∧ Js.drop_ws (rev s) = rev s.

Definition is_generate (e : Tailor.Event) : bool :=
  match e with Tailor.EvGenerate _ => true | _ => false end.

Definition is_raw_fetch (e : Tailor.Event) : bool :=
  match e with Tailor.EvRawFetch _ => true | _ => false end.

Definition sleep_ms (e : Tailor.Event) : N :=
  match e with Tailor.EvSleep ms => ms | _ => 0 end.

(** The total of the pauses in a trace, in milliseconds. *)
Definition total_sleep (tr : list Tailor.Event) : N :=
  fold_right (fun e acc => sleep_ms e + acc) 0 tr.

(** The engine names of the entries the compile route logs when every
    attempt fails: two per engine, then the archive. *)
Definition exhausted_names (engs : list Engine) : list (list N) :=
  flat_map (fun e => [Compile.engine_name e; Compile.engine_name e]) engs
  ++ [Js.str "tar-bz2"].

(** The archive the compile route builds around the document. *)
Definition main_archive (tex : list N) : Svc.Node :=
  Svc.File (Svc.TarBz2 [(Js.str "main.tex", Svc.Utf8 tex)]).

(** Every request the compile route can make for a document, in order: for
    each engine a POST and then a GET.  (The archive of the fallback is
    never sent.) *)
Definition compile_plan (tex : list N) (engs : list Engine) : list Svc.Event :=
  List.map Svc.EvCompile (Spec.direct_requests tex engs).

(** The body carries a non-empty [tex] that contains [\documentclass]. *)
Definition valid_tex (b : Compile.CompileBody) : bool :=
  match b.(Compile.tex) with
  | Some t => Js.truthy t && has_documentclass t
  | None => false
  end.


Definition is_compile (e : Svc.Event) : bool :=
  match e with Svc.EvCompile _ => true | Svc.EvCtan _ => false end.

(** The name contains no path separator. *)
Definition no_slash (name : list N) : Prop := ¬ In 47 name.

(** [file.name] of the upload, when there is a file. *)
Definition upload_name (rq : Upload.Request) : list N :=
  match rq.(Upload.form) with
  | Some v => Upload.file_name v
  | None => []
  end.

(** The directory the upload route works in. *)
Definition upload_dir (w : Svc.World) : list N :=
  w.(Svc.mkdtemp) (Svc.path_join w.(Svc.tmpdir) (Js.str "latex-upload-")).

(** Outside [dir] the two file systems hold the same. *)
Definition same_outside (dir : list N) (fs fs' : gmap (list N) Svc.Node) : Prop :=
  ∀ p, Svc.within dir p = false → fs' !! p = fs !! p.

(** The mirror answers the request for [pkg] with an ok response. *)
Definition mirror_ok (w : Svc.World) (pkg : list N) : bool :=
  match w.(Svc.ctan) pkg with
  | Svc.Resolves r => Svc.ok r
  | Svc.Rejects _ => false
  end.

(** The two halves of [Upload.send_and_recover] after the first response:
    the recovery block, and what follows it. *)
Definition recovery (w : Svc.World) (s : Upload.Staged) (resp : Svc.HttpResp)
    (fs : gmap (list N) Svc.Node) (tr : list Svc.Event)
    : option Upload.Response * list N * gmap (list N) Svc.Node * list Svc.Event :=
  match s.(Upload.workdir) with
  | Some work =>
      if negb (Svc.ok resp) then
        let names := Upload.missing (w.(Svc.utf8_decode) resp.(Svc.body)) in
        if (0 <? length names)%nat then
          let '(fetchedAny, fs', tr') :=
            Upload.fetch_packages w work (dedup_first [] names) false fs tr in
          if fetchedAny
          then Upload.retry_upload w s work resp.(Svc.body) fs' tr'
          else (None, resp.(Svc.body), fs', tr')
        else (None, resp.(Svc.body), fs, tr)
      else (None, resp.(Svc.body), fs, tr)
  | None => (None, resp.(Svc.body), fs, tr)
  end.

Definition conclude (w : Svc.World) (s : Upload.Staged) (resp : Svc.HttpResp)
    (x : option Upload.Response * list N * gmap (list N) Svc.Node * list Svc.Event)
    : Upload.Response * gmap (list N) Svc.Node * list Svc.Event :=
  let '(early, buf, fs1, tr1) := x in
  match early with
  | Some r => (r, fs1, tr1)
  | None =>
      let fs2 := Upload.cleanup s.(Upload.tmp) fs1 in
      if Svc.ok resp && (Svc.isPdfHeader resp.(Svc.body) || Svc.isPdfType resp)
      then (Upload.Pdf buf, fs2, tr1)
      else (Upload.log_response (w.(Svc.utf8_decode) buf) resp.(Svc.status),
            fs2, tr1)
  end.

(** The line of a LaTeX log that reports a missing package. *)
Definition missing_line (name : list N) : list N :=
  Js.str "File `" ++ name ++ Js.str ".sty' not found".

(** The answer of a [fetch] that makes [fetchWithRetry] go on: a rejection,
    or a response with status 429 or 500 and above. *)
Definition retryable (o : Svc.HttpResult) : bool :=
  match o with
  | Svc.Rejects _ => true
  | Svc.Resolves r => (r.(Svc.status) =? 429) || (500 <=? r.(Svc.status))
  end.

(** [k] rounds that each end in a pause, the first being round [i]. *)
Fixpoint backoff (i k : nat) : list Extension.Event :=
  match k with
  | O => []
  | S k' =>
      Extension.EvFetch :: Extension.EvSleep (Extension.delay i) :: backoff (S i) k'
  end.

(** The longest run of key characters in [s], a run of [cur] characters
    standing before it. *)
Fixpoint max_run (cur : nat) (s : list N) : nat :=
  match s with
  | [] => cur
  | c :: s' =>
      if Extension.is_key_char c then max_run (S cur) s'
      else Nat.max cur (max_run 0 s')
  end.

(** The entry that [saveToHistory] makes of a result. *)
Definition history_item (x : list N * N * list N * list N) : Extension.HistoryItem :=
  let '(fresh_id, now, tex, jd) := x in
  {| Extension.id := fresh_id; Extension.timestamp := now;
     Extension.h_jd := take 200 jd; Extension.jdFull := jd;
     Extension.h_tex := tex |}.

(** The history after the results [xs] were saved one after the other. *)
Definition save_all (stored : option (list Extension.HistoryItem))
    (xs : list (list N * N * list N * list N)) : option (list Extension.HistoryItem) :=
  fold_left (fun h x => let '(fresh_id, now, tex, jd) := x in
                        Some (Extension.saveToHistory fresh_id now h tex jd))
            xs stored.

End More.

(** * Properties *)

(** ** Strings and patterns *)

Ltac bool_N :=
  repeat match goal with
         | H : (_ || _) = true |- _ => apply orb_true_iff in H as [H | H]
         | H : (_ && _) = true |- _ => apply andb_true_iff in H as [? ?]
         | H : (_ || _) = false |- _ => apply orb_false_iff in H as [? ?]
         | H : (_ && _) = false |- _ => apply andb_false_iff in H as [H | H]
         | H : negb _ = true |- _ => apply negb_true_iff in H
         | H : negb _ = false |- _ => apply negb_false_iff in H
         | H : (_ =? _) = true |- _ => apply N.eqb_eq in H
         | H : (_ =? _) = false |- _ => apply N.eqb_neq in H
         | H : (_ <=? _) = true |- _ => apply N.leb_le in H
         | H : (_ <=? _) = false |- _ => apply N.leb_gt in H
         | H : (_ <? _) = true |- _ => apply N.ltb_lt in H
         | H : (_ <? _) = false |- _ => apply N.ltb_ge in H
         end.

Section JsFacts.
Import Js.

Lemma lower_ws c : is_ws c = true → lower c = c.
Proof.
  intros H. unfold lower.
  destruct ((65 <=? c) && (c <=? 90)) eqn:E; [|done].
  exfalso. unfold is_ws in H. bool_N; lia.
Qed.

(** A character that folds to something which is not white space is not
    white space. *)
Lemma not_ws_of_lower a c :
  is_ws (lower a) = false → lower c = lower a → is_ws c = false.
Proof.
  intros Ha Hc. destruct (is_ws c) eqn:E; [|done].
  apply lower_ws in E as E'. congruence.
Qed.

Lemma ci_strip_Some p s r :
  ci_strip p s = Some r ↔ ∃ m, s = m ++ r ∧ to_lower m = to_lower p.
Proof.
  revert s. induction p as [|a p IH]; intros s; simpl.
  - split.
    + intros [= ->]. by exists [].
    + intros (m & -> & Hm). apply map_eq_nil in Hm. by subst.
  - destruct s as [|c s].
    + split; [done|]. intros (m & Hs & Hm).
      symmetry in Hs. apply app_eq_nil in Hs as [-> ->]. done.
    + destruct (lower a =? lower c) eqn:E.
      * apply N.eqb_eq in E. rewrite IH. split.
        -- intros (m & -> & Hm). exists (c :: m). simpl. split; [done|].
           by rewrite Hm, E.
        -- intros (m & Hs & Hm). destruct m as [|c' m]; [done|].
           simpl in Hs, Hm. injection Hs as -> ->. injection Hm as _ Hm.
           by exists m.
      * apply N.eqb_neq in E. split; [done|].
        intros (m & Hs & Hm). destruct m as [|c' m]; [done|].
        simpl in Hs, Hm. injection Hs as -> ->. injection Hm as Hc _.
        congruence.
Qed.

Lemma strip_Some p s r : strip p s = Some r ↔ s = p ++ r.
Proof.
  revert s. induction p as [|a p IH]; intros s; simpl.
  - split; [by intros [= ->] | by intros ->].
  - destruct s as [|c s]; [done|].
    destruct (a =? c) eqn:E.
    + apply N.eqb_eq in E as ->. rewrite IH. split; [by intros ->|].
      by intros [= ->].
    + apply N.eqb_neq in E. split; [done|]. intros [= -> _]. done.
Qed.

Lemma anywhere_true f s :
  anywhere f s = true ↔ ∃ pre post, s = pre ++ post ∧ f post = true.
Proof.
  induction s as [|c s IH]; simpl.
  - rewrite orb_false_r. split.
    + intros H. by exists [], [].
    + intros (pre & post & Hs & H). symmetry in Hs.
      apply app_eq_nil in Hs as [-> ->]. done.
  - rewrite orb_true_iff, IH. split.
    + intros [H | (pre & post & -> & H)].
      * by exists [], (c :: s).
      * by exists (c :: pre), post.
    + intros (pre & post & Hs & H). destruct pre as [|c' pre].
      * simpl in Hs. subst post. by left.
      * simpl in Hs. injection Hs as -> ->. right. by exists pre, post.
Qed.

Lemma drop_ws_app ws r :
  forallb is_ws ws = true → drop_ws (ws ++ r) = drop_ws r.
Proof.
  induction ws as [|c ws IH]; simpl; [done|].
  intros H. apply andb_true_iff in H as [Hc Hws]. rewrite Hc. by apply IH.
Qed.

Lemma drop_ws_split s :
  ∃ ws, s = ws ++ drop_ws s ∧ forallb is_ws ws = true.
Proof.
  induction s as [|c s (ws & Hs & Hws)]; simpl.
  - by exists [].
  - destruct (is_ws c) eqn:E.
    + exists (c :: ws). simpl. rewrite E, Hws. split; [by f_equal|done].
    + by exists [].
Qed.

(** White space before a literal that does not begin with white space:
    the run is skipped whole. *)
Lemma drop_ws_before q m ws r :
  match q with a :: _ => is_ws (lower a) | [] => true end = false →
  to_lower m = to_lower q →
  forallb is_ws ws = true →
  drop_ws (ws ++ m ++ r) = m ++ r.
Proof.
  intros Ha Hm Hws. rewrite drop_ws_app by done.
  destruct q as [|a q]; [done|].
  destruct m as [|c m]; [done|]. simpl in Hm. injection Hm as Hc _.
  simpl. by rewrite (not_ws_of_lower a c).
Qed.

Lemma ci_strip_app p m r :
  to_lower m = to_lower p → ci_strip p (m ++ r) = Some r.
Proof. intros H. apply ci_strip_Some. by exists m. Qed.

End JsFacts.

(** ** Engine inference *)

Section EngineInference.
Import Js Spec.

Lemma at_word_end_true post : at_word_end post = true ↔ ends_word post.
Proof.
  destruct post as [|c post]; simpl; [done|]. by rewrite negb_true_iff.
Qed.

Lemma control_word_at p s :
  match ci_strip p s with Some rest => at_word_end rest | None => false end = true
  ↔ ∃ m post, s = m ++ post ∧ ci_eq m p ∧ ends_word post.
Proof.
  split.
  - destruct (ci_strip p s) as [rest|] eqn:E; [|done].
    intros H. apply ci_strip_Some in E as (m & -> & Hm).
    exists m, rest. by rewrite <- at_word_end_true.
  - intros (m & post & -> & Hm & Hpost).
    rewrite ci_strip_app by done. by apply at_word_end_true.
Qed.

Lemma word_at p s :
  matches (ci_strip p s) = true ↔ ∃ m post, s = m ++ post ∧ ci_eq m p.
Proof.
  split.
  - destruct (ci_strip p s) as [rest|] eqn:E; [|done].
    intros _. apply ci_strip_Some in E as (m & -> & Hm). by exists m, rest.
  - intros (m & post & -> & Hm). by rewrite ci_strip_app.
Qed.

Lemma fontspec_at s :
  re_fontspec_at s = true
  ↔ ∃ m1 ws1 m2 ws2 m3 post,
      s = m1 ++ ws1 ++ m2 ++ ws2 ++ m3 ++ post
      ∧ ci_eq m1 (str "\usepackage{") ∧ all_ws ws1
      ∧ ci_eq m2 (str "fontspec") ∧ all_ws ws2
      ∧ ci_eq m3 (str "}").
Proof.
  unfold re_fontspec_at. split.
  - destruct (ci_strip (str "\usepackage{") s) as [r1|] eqn:E1; [|done].
    apply ci_strip_Some in E1 as (m1 & -> & H1).
    destruct (drop_ws_split r1) as (ws1 & Hr1 & Hws1).
    destruct (ci_strip (str "fontspec") (drop_ws r1)) as [r2|] eqn:E2; [|done].
    apply ci_strip_Some in E2 as (m2 & Hd1 & H2).
    destruct (drop_ws_split r2) as (ws2 & Hr2 & Hws2).
    destruct (ci_strip (str "}") (drop_ws r2)) as [r3|] eqn:E3; [|done].
    apply ci_strip_Some in E3 as (m3 & Hd2 & H3). intros _.
    exists m1, ws1, m2, ws2, m3, r3.
    repeat split; try done.
    rewrite Hr1 at 1. rewrite Hd1. rewrite Hr2 at 1. by rewrite Hd2.
  - intros (m1 & ws1 & m2 & ws2 & m3 & post & -> & H1 & Hws1 & H2 & Hws2 & H3).
    rewrite ci_strip_app by done.
    rewrite (drop_ws_before (str "fontspec")) by done.
    rewrite ci_strip_app by done.
    rewrite (drop_ws_before (str "}")) by done.
    by rewrite ci_strip_app.
Qed.

Lemma directlua_test tex :
  anywhere re_directlua_at tex = true ↔ lua_directive tex.
Proof.
  rewrite anywhere_true. unfold lua_directive, has_control_word. split.
  - intros (pre & s & -> & H). apply control_word_at in H as (m & post & -> & ?).
    by exists pre, m, post.
  - intros (pre & m & post & -> & H). exists pre, (m ++ post). split; [done|].
    apply control_word_at. by exists m, post.
Qed.

Lemma fonts_test tex :
  anywhere re_fonts_at tex = true ↔ font_directive tex.
Proof.
  rewrite anywhere_true. unfold font_directive, re_fonts_at. split.
  - intros (pre & s & -> & H).
    rewrite !orb_true_iff in H. destruct H as [[[H | H] | H] | H].
    + left. apply fontspec_at in H
        as (m1 & ws1 & m2 & ws2 & m3 & post & -> & ?).
      by exists pre, m1, ws1, m2, ws2, m3, post.
    + right; left. apply control_word_at in H as (m & post & -> & ?).
      by exists pre, m, post.
    + right; right; left. apply word_at in H as (m & post & -> & ?).
      by exists pre, m, post.
    + right; right; right. apply word_at in H as (m & post & -> & ?).
      by exists pre, m, post.
  - intros [H | [H | [H | H]]].
    + destruct H as (pre & m1 & ws1 & m2 & ws2 & m3 & post & -> & H).
      exists pre, (m1 ++ ws1 ++ m2 ++ ws2 ++ m3 ++ post). split; [done|].
      rewrite !orb_true_iff. left; left; left. apply fontspec_at.
      by exists m1, ws1, m2, ws2, m3, post.
    + destruct H as (pre & m & post & -> & H).
      exists pre, (m ++ post). split; [done|].
      rewrite !orb_true_iff. left; left; right. apply control_word_at.
      by exists m, post.
    + destruct H as (pre & m & post & -> & H).
      exists pre, (m ++ post). split; [done|].
      rewrite !orb_true_iff. left; right. apply word_at. by exists m, post.
    + destruct H as (pre & m & post & -> & H).
      exists pre, (m ++ post). split; [done|].
      rewrite !orb_true_iff. right. apply word_at. by exists m, post.
Qed.

(** The sources the specification names. *)
Example inferEngine_directlua :
  inferEngine (str "\documentclass{article}\directlua{tex.print(1)}") = lualatex.
Proof. reflexivity. Qed.

Example inferEngine_fontspec :
  inferEngine (str "\documentclass{article}\usepackage{fontspec}") = xelatex.
Proof. reflexivity. Qed.

Example inferEngine_setmainfont :
  inferEngine (str "\documentclass{article}\setmainfont{Arial}") = xelatex
  ∧ Compile.engine_order xelatex = [xelatex; lualatex; pdflatex].
Proof. split; reflexivity. Qed.

Example inferEngine_plain :
  inferEngine (str "\documentclass{article}") = pdflatex.
Proof. reflexivity. Qed.

(** Both directives: [\directlua] wins. *)
Example inferEngine_lua_over_fonts :
  inferEngine (str "\usepackage{fontspec}\directlua{}") = lualatex.
Proof. reflexivity. Qed.

(** C6 (as amended).  Engine inference is a function of the source alone,
    decided in this order: a source in which [\directlua] occurs, letter
    case ignored and not continued by a letter, digit or underscore, gives
    lualatex; otherwise a source in which [\usepackage{fontspec}] (white
    space allowed around [fontspec]), [\setmainfont] (not continued by a
    word character), [polyglossia] or [xeCJK] occurs, letter case ignored,
    gives xelatex; otherwise pdflatex. *)
Theorem inferEngine_priority (tex : list N) :
  (inferEngine tex = lualatex ↔ lua_directive tex)
  ∧ (inferEngine tex = xelatex ↔ ¬ lua_directive tex ∧ font_directive tex)
  ∧ (inferEngine tex = pdflatex ↔ ¬ lua_directive tex ∧ ¬ font_directive tex).
Proof.
  unfold inferEngine.
  pose proof (directlua_test tex) as Hl. pose proof (fonts_test tex) as Hf.
  destruct (anywhere re_directlua_at tex);
    destruct (anywhere re_fonts_at tex);
    intuition (try discriminate).
Qed.

(** C6, the claim as worded fails: the code ignores letter case, allows
    white space inside the braces, and wants [\directlua] to end at a word
    boundary, so plain containment decides differently on these sources. *)
Lemma inferEngine_not_plain_containment :
  (inferEngine (str "\documentclass{article}\usepackage{xecjk}") = xelatex
   ∧ inferEngine_spec (str "\documentclass{article}\usepackage{xecjk}") = pdflatex)
  ∧ (inferEngine (str "\documentclass{article}\usepackage{ fontspec }") = xelatex
     ∧ inferEngine_spec (str "\documentclass{article}\usepackage{ fontspec }") = pdflatex)
  ∧ (inferEngine (str "\documentclass{article}\def\directluacode{}") = pdflatex
     ∧ inferEngine_spec (str "\documentclass{article}\def\directluacode{}") = lualatex).
Proof. vm_compute. repeat split. Qed.

End EngineInference.

(** ** The tailor route *)

Section TailorFacts.
Import Js Spec Tailor.

Lemma jd_too_short_invalid b : jd_too_short b → jd_invalid b.(jd) = true.
Proof.
  intros [H | (s & H & Hlen)]; rewrite H; simpl; [done|].
  apply orb_true_iff. right. apply N.ltb_lt. lia.
Qed.

Lemma resolve_over env w b : resolve env w true b = inl TooManyRequests.
Proof. reflexivity. Qed.

Lemma resolve_base env w over b r :
  resolve env w over b = inr r → base_resume w b = Some r.(r_base).
Proof.
  unfold resolve, base_resume. intros H.
  destruct over; [done|]. destruct (jd_invalid (jd b)); [done|].
  destruct (first_truthy (apiKey b) (GEMINI_API_KEY env)); [|done].
  destruct (keep_truthy (baseTex b)).
  - by injection H as <-.
  - destruct (base_file w); [|done]. by injection H as <-.
Qed.

Lemma resolve_not_over env w b :
  resolve env w false b ≠ inl TooManyRequests.
Proof.
  unfold resolve. destruct (jd_invalid (jd b)); [done|].
  destruct (first_truthy _ _); [|done].
  destruct (keep_truthy _); [done|]. by destruct (base_file w).
Qed.

(** A fenced answer: the fences go, the document stays. *)
Example stripCodeFences_latex :
  trim (stripCodeFences (str "```latex
\documentclass{article}\begin{document}x\end{document}
```"))
  = str "\documentclass{article}\begin{document}x\end{document}".
Proof. reflexivity. Qed.

Example stripCodeFences_plain :
  stripCodeFences (str "\documentclass{article}") = str "\documentclass{article}".
Proof. reflexivity. Qed.

(** C2 (as amended).  Whenever the route has obtained text from a model
    (the request passed the limiter and the checks, and some answer was not
    blank) and that text, with code fences stripped and white space
    trimmed, holds no [\documentclass], the tailor route answers 200 with
    the resolved base resume, unchanged. *)
Theorem tailor_degrades_to_base env w tailorRate now xff b tex :
  ai_output env w tailorRate now xff b = Some tex →
  has_documentclass (trim (stripCodeFences tex)) = false →
  nonblank tex = true
  ∧ ∃ base,
      base_resume w b = Some base
      ∧ (tailor env w tailorRate now xff b).1.1 = Tex base
      ∧ http_status (tailor env w tailorRate now xff b).1.1 = 200.
Proof.
  unfold ai_output, over_limit, tailor. intros Hout Hdoc.
  destruct (rate_step _ _ _ _ _) as [rate' over]. simpl in Hout.
  destruct (resolve env w over b) as [?|r] eqn:Hres; [done|].
  split.
  { revert Hout. unfold generate.
    destruct (sdk_loop w _ [] init) as [t st].
    destruct (nonblank t) eqn:E; [by intros [= <-]|].
    destruct (raw_loop w _ t st) as [t2 st2].
    destruct (nonblank t2) eqn:E2; [by intros [= <-]|done]. }
  exists r.(r_base). split; [by eapply resolve_base|].
  destruct (generate w _) as [[t|] st]; simpl in Hout; [|done].
  injection Hout as ->. unfold finish. rewrite Hdoc. by simpl.
Qed.

(** C2, the claim as worded fails: when every model answers with white
    space only, the output stripped and trimmed is empty and holds no
    [\documentclass], yet the route answers 502 and not the base resume. *)
Lemma blank_output_is_an_error :
  has_documentclass (trim (stripCodeFences (str "   "))) = false
  ∧ (tailor Fixtures.env0 Fixtures.w_spaces ∅ 0 None (Fixtures.body_ok None)).1.1
    = GeminiFailed (validModels None Fixtures.env0)
  ∧ http_status
      (tailor Fixtures.env0 Fixtures.w_spaces ∅ 0 None (Fixtures.body_ok None)).1.1
    = 502.
Proof. vm_compute. repeat split. Qed.

(** C4 (as amended).  A request whose job description is missing or shorter
    than 16 characters once trimmed is answered 400, unless its address is
    over the rate limit, in which case it is answered 429; either way the
    handler makes no call at all, and its result does not depend on the
    outside world. *)
Theorem short_jd_fails_without_calls env w tailorRate now xff b :
  jd_too_short b →
  (tailor env w tailorRate now xff b).1.1
    = (if over_limit tailorRate now xff then TooManyRequests else JdRequired)
  ∧ (http_status (tailor env w tailorRate now xff b).1.1
       = if over_limit tailorRate now xff then 429 else 400)
  ∧ (tailor env w tailorRate now xff b).2 = []
  ∧ ∀ w', tailor env w' tailorRate now xff b = tailor env w tailorRate now xff b.
Proof.
  intros H%jd_too_short_invalid. unfold over_limit, tailor.
  destruct (rate_step _ _ _ _ _) as [rate' over]. simpl.
  unfold resolve. rewrite H. destruct over; simpl; repeat split; done.
Qed.

Lemma rate_step_bump window max m ip now :
  rate_step window max m ip now
  = (<[ip := rate_bump window now (m !! ip)]> m,
     max <? (rate_bump window now (m !! ip)).(count)).
Proof. reflexivity. Qed.

Lemma rate_bump_count window now o :
  (rate_bump window now o).(count) = current_count now o + 1.
Proof.
  unfold rate_bump, current_count. destruct o as [e|]; simpl.
  - by destruct (resetAt e <? now).
  - destruct (now + window <? now) eqn:E; [|done]. by bool_N.
Qed.

Lemma before_comma_entry h e : first_entry h e → before_comma h = e.
Proof.
  intros [Hno [-> | [rest ->]]].
  - induction e as [|c e IH]; simpl; [done|].
    destruct (c =? 44) eqn:E.
    + apply N.eqb_eq in E. exfalso. apply Hno. by left.
    + f_equal. apply IH. intros Hin. apply Hno. by right.
  - induction e as [|c e IH]; simpl; [done|].
    destruct (c =? 44) eqn:E.
    + apply N.eqb_eq in E. exfalso. apply Hno. by left.
    + f_equal. apply IH. intros Hin. apply Hno. by right.
Qed.

(** The key of the limiter is the one the vocabulary gives the address. *)
Lemma client_ip_key xff key : address_key xff key → client_ip xff = key.
Proof.
  destruct xff as [h|]; simpl.
  - intros (e & He & ->). unfold client_ip. simpl.
    by rewrite (before_comma_entry h e He).
  - by intros ->.
Qed.

(** C9 (as amended).  For a request whose body is read, the tailor route
    bumps the counter of the client address before it looks at the body:
    whatever the body is, the map afterwards holds, under the first entry of
    [x-forwarded-for] (trimmed; [unknown] without one), one more than the
    requests of the running window, and the answer is 429 exactly when
    that count exceeds 20 -- also for a request without a usable job
    description or key. *)
Theorem rate_limit_precedes_validation env w tailorRate now xff b key :
  address_key xff key →
  ∃ ent,
    (POST env w tailorRate now xff (Some b)).1.2 = <[key := ent]> tailorRate
    ∧ ent.(count) = current_count now (tailorRate !! key) + 1
    ∧ ((POST env w tailorRate now xff (Some b)).1.1 = TooManyRequests
       ↔ TAILOR_RATE_MAX < ent.(count)).
Proof.
  intros Hkey. apply client_ip_key in Hkey. subst key.
  exists (rate_bump TAILOR_RATE_WINDOW_MS now (tailorRate !! client_ip xff)).
  unfold POST, tailor. rewrite rate_step_bump.
  split; [|split; [apply rate_bump_count|]].
  - destruct (resolve _ _ _ _); [done|]. by destruct (generate _ _) as [[?|] ?].
  - rewrite <- N.ltb_lt.
    destruct (TAILOR_RATE_MAX <? _) eqn:E.
    + by rewrite resolve_over.
    + pose proof (resolve_not_over env w b) as Hn.
      destruct (resolve env w false b) as [resp|r] eqn:Hres.
      * simpl. split; [|done]. by intros ->.
      * destruct (generate _ _) as [[?|] ?]; simpl; [|done].
        unfold finish. by destruct (negb _).
Qed.

Lemma rate_limit_precedes_validation_witness :
  ∃ ent,
    (POST Fixtures.env0 Fixtures.w_prose Fixtures.rate_full 1000
       (Some (str " 10.0.0.1 , 192.168.0.7")) (Some Fixtures.body_short)).1.2
    = <[str "10.0.0.1" := ent]> Fixtures.rate_full
    ∧ ent.(count) = 1.
Proof.
  destruct (rate_limit_precedes_validation Fixtures.env0 Fixtures.w_prose
              Fixtures.rate_full 1000 (Some (str " 10.0.0.1 , 192.168.0.7"))
              Fixtures.body_short (str "10.0.0.1")) as (ent & Hmap & Hcount & _).
  - exists (str " 10.0.0.1 "). split; [|reflexivity]. split.
    + vm_compute. intuition discriminate.
    + right. by exists (str " 192.168.0.7").
  - exists ent. split; [exact Hmap|]. rewrite Hcount. reflexivity.
Defined.

(** C9, the claim as worded fails: the body is read before the limiter
    runs, so a request whose body cannot be read is answered 500 and counts
    for nothing -- here from an address that has used up its window, which
    gets neither a 429 nor a higher count. *)
Lemma unparsable_body_is_not_counted :
  POST Fixtures.env0 Fixtures.w_prose Fixtures.rate_full 1000 None None
  = (InternalError, Fixtures.rate_full, [])
  ∧ http_status InternalError = 500
  ∧ (tailor Fixtures.env0 Fixtures.w_prose Fixtures.rate_full 1000 None
       Fixtures.body_short).1.1 = TooManyRequests.
Proof. vm_compute. repeat split. Qed.

Lemma tailor_degrades_to_base_witness :
  ∃ base,
    base_resume Fixtures.w_prose (Fixtures.body_ok None) = Some base
    ∧ (tailor Fixtures.env0 Fixtures.w_prose ∅ 0 None (Fixtures.body_ok None)).1.1
      = Tex base
    ∧ http_status
        (tailor Fixtures.env0 Fixtures.w_prose ∅ 0 None (Fixtures.body_ok None)).1.1
      = 200.
Proof.
  destruct (tailor_degrades_to_base Fixtures.env0 Fixtures.w_prose ∅ 0 None
              (Fixtures.body_ok None) (str "Sorry, I cannot help with that."))
    as [_ H]; [vm_compute; reflexivity | vm_compute; reflexivity | exact H].
Defined.

Lemma short_jd_fails_without_calls_witness :
  (tailor Fixtures.env0 Fixtures.w_prose ∅ 0 None Fixtures.body_short).1.1
    = (if over_limit ∅ 0 None then TooManyRequests else JdRequired)
  ∧ (http_status (tailor Fixtures.env0 Fixtures.w_prose ∅ 0 None Fixtures.body_short).1.1
       = if over_limit ∅ 0 None then 429 else 400)
  ∧ (tailor Fixtures.env0 Fixtures.w_prose ∅ 0 None Fixtures.body_short).2 = []
  ∧ ∀ w', tailor Fixtures.env0 w' ∅ 0 None Fixtures.body_short
          = tailor Fixtures.env0 Fixtures.w_prose ∅ 0 None Fixtures.body_short.
Proof.
  apply (short_jd_fails_without_calls Fixtures.env0 Fixtures.w_prose ∅ 0 None
           Fixtures.body_short).
  right. exists (str "  Go engineer  "). split; [reflexivity|]. vm_compute. lia.
Defined.

(** C4, the claim as worded fails: the 21st request of a window is answered
    429 ("Too many requests"), not 400, although its job description is too
    short. *)
Lemma short_jd_over_limit_gets_429 :
  jd_invalid Fixtures.body_short.(jd) = true
  ∧ (tailor Fixtures.env0 Fixtures.w_prose Fixtures.rate_full 1000 None
       Fixtures.body_short).1.1 = TooManyRequests
  ∧ TooManyRequests ≠ JdRequired
  ∧ http_status
      (tailor Fixtures.env0 Fixtures.w_prose Fixtures.rate_full 1000 None
         Fixtures.body_short).1.1 = 429.
Proof. vm_compute. repeat split; discriminate. Qed.

(** *** The model loops *)

Lemma retry_loop_blank w m left i st :
  (∀ n m t, sdk w n m = SdkText t → nonblank (default [] t) = false) →
  nonblank (default [] (retry_loop w m left i st).1) = false.
Proof.
  intros Hw. revert i st. induction left as [|left IH]; intros i st; simpl.
  - done.
  - destruct (sdk w (sdk_calls st) m) as [t|code|] eqn:E; simpl.
    + by eapply Hw.
    + destruct (code =? 429); [apply IH|done].
    + done.
Qed.

Lemma sdk_loop_blank w models tex st :
  (∀ n m t, sdk w n m = SdkText t → nonblank (default [] t) = false) →
  nonblank tex = false →
  nonblank (sdk_loop w models tex st).1 = false.
Proof.
  intros Hw. revert tex st.
  induction models as [|name rest IH]; intros tex st Htex; simpl; [done|].
  destruct (negb (truthy name)); [by apply IH|].
  pose proof (retry_loop_blank w name 3 0 st Hw) as Hr.
  unfold generateWithRetry. destruct (retry_loop w name 3 0 st) as [r st1].
  simpl in Hr. rewrite Hr. by apply IH.
Qed.

Lemma raw_loop_blank w models tex st :
  (∀ n m parts, raw w n m = RawResp true parts →
                nonblank (raw_text parts) = false) →
  nonblank tex = false →
  nonblank (raw_loop w models tex st).1 = false.
Proof.
  intros Hw. revert st.
  induction models as [|name rest IH]; intros st Htex; simpl; [done|].
  destruct (negb (truthy name)); [by apply IH|].
  unfold rawGenerateV1.
  destruct (raw w (raw_calls st) name) as [|ok parts] eqn:E; [done|].
  destruct ok; [|done]. rewrite (Hw _ _ _ E). by apply IH.
Qed.

Lemma dedup_first_length_le {A} `{EqDecision A} (seen l : list A) :
  (length (dedup_first seen l) ≤ length l)%nat.
Proof.
  revert seen. induction l as [|x l IH]; intros seen; simpl; [done|].
  case_bool_decide; simpl.
  - specialize (IH seen). lia.
  - specialize (IH (x :: seen)). lia.
Qed.

Lemma dedup_first_keeps_length {A} `{EqDecision A} (seen l : list A) :
  length (dedup_first seen l) = length l
  ↔ NoDup l ∧ ∀ x, x ∈ l → x ∉ seen.
Proof.
  revert seen. induction l as [|x l IH]; intros seen; simpl.
  - split; [|done]. intros _. split; [constructor|]. intros x Hx.
    by apply elem_of_nil in Hx.
  - case_bool_decide as Hx; simpl.
    + pose proof (dedup_first_length_le seen l). split; [lia|].
      intros [_ Hs]. exfalso. apply (Hs x); [left|done].
    + split.
      * intros Hlen. injection Hlen as Hlen. apply IH in Hlen as [Hnd Hs].
        split.
        -- constructor; [|done]. intros Hin. apply (Hs x Hin). left.
        -- intros y Hy Hys. apply elem_of_cons in Hy as [-> | Hy]; [done|].
           apply (Hs y Hy). by right.
      * intros [Hnd Hs]. f_equal. apply IH. apply NoDup_cons in Hnd as [Hxl Hnd].
        split; [done|]. intros y Hy Hys.
        apply elem_of_cons in Hys as [-> | Hys]; [done|].
        apply (Hs y); [by right|done].
Qed.

(** C5 (as amended).  For a request that passes the limiter and the
    validation, when no candidate yields text that is not blank, neither
    through the SDK nor through the raw endpoint, the answer is 502 and its
    [tried] list is the filtered candidate list itself, duplicates kept; its
    length is that of the deduplicated list only when the list has no
    duplicate. *)
Theorem exhausted_lists_every_candidate env w tailorRate now xff b r :
  resolve env w (over_limit tailorRate now xff) b = inr r →
  (∀ n m t, sdk w n m = SdkText t → nonblank (default [] t) = false) →
  (∀ n m parts, raw w n m = RawResp true parts →
                nonblank (raw_text parts) = false) →
  (tailor env w tailorRate now xff b).1.1 = GeminiFailed (validModels b.(model) env)
  ∧ http_status (tailor env w tailorRate now xff b).1.1 = 502
  ∧ (length (validModels b.(model) env)
       = length (candidates_dedup b.(model) env)
     ↔ NoDup (validModels b.(model) env)).
Proof.
  intros Hres Hsdk Hraw.
  assert ((tailor env w tailorRate now xff b).1.1
          = GeminiFailed (validModels b.(model) env)) as Ht.
  { unfold over_limit, tailor in *.
    destruct (rate_step _ _ _ _ _) as [rate' over]. simpl in Hres.
    rewrite Hres. unfold generate.
    pose proof (sdk_loop_blank w (validModels b.(model) env) [] init Hsdk eq_refl) as H1.
    destruct (sdk_loop w _ [] init) as [tex st]. simpl in H1. rewrite H1.
    pose proof (raw_loop_blank w (validModels b.(model) env) tex st Hraw H1) as H2.
    destruct (raw_loop w _ tex st) as [tex2 st2]. simpl in H2. by rewrite H2. }
  rewrite Ht. split; [done|]. split; [done|].
  unfold candidates_dedup. split.
  - intros Hlen. symmetry in Hlen. by apply dedup_first_keeps_length in Hlen as [? _].
  - intros Hnd. symmetry. apply dedup_first_keeps_length. split; [done|].
    intros x _ Hx. by apply elem_of_nil in Hx.
Qed.

Lemma exhausted_lists_every_candidate_witness :
  (tailor Fixtures.env0 Fixtures.w_empty ∅ 0 None (Fixtures.body_ok None)).1.1
    = GeminiFailed (validModels None Fixtures.env0)
  ∧ http_status
      (tailor Fixtures.env0 Fixtures.w_empty ∅ 0 None (Fixtures.body_ok None)).1.1
    = 502
  ∧ (length (validModels None Fixtures.env0)
       = length (candidates_dedup None Fixtures.env0)
     ↔ NoDup (validModels None Fixtures.env0)).
Proof.
  apply (exhausted_lists_every_candidate Fixtures.env0 Fixtures.w_empty ∅ 0 None
           (Fixtures.body_ok None)
           {| r_jd := default [] (jd (Fixtures.body_ok None));
              r_key := str "key"; r_base := Fixtures.resume |}).
  - vm_compute. reflexivity.
  - intros n m t [= <-]. reflexivity.
  - intros n m parts [= <-]. reflexivity.
Defined.

(** C5, the claim as worded fails: a request for gemini-pro, already among
    the static candidates, gets all eleven entries back, while the
    deduplicated list has ten. *)
Lemma tried_keeps_duplicates :
  ∃ tried,
    (tailor Fixtures.env0 Fixtures.w_empty ∅ 0 None
       (Fixtures.body_ok (Some (str "gemini-pro")))).1.1 = GeminiFailed tried
    ∧ length tried = 11%nat
    ∧ length (candidates_dedup (Some (str "gemini-pro")) Fixtures.env0) = 10%nat.
Proof.
  exists (validModels (Some (str "gemini-pro")) Fixtures.env0).
  vm_compute. repeat split.
Qed.

(** *** Retry and backoff *)

Lemma retry_loop_shape w m left i st :
  ∃ k, (k ≤ left)%nat
    ∧ (∀ j, (j < k)%nat → sdk w (sdk_calls st + j) m = SdkApiError 429)
    ∧ trace (retry_loop w m left i st).2
      = trace st ++ rounds m i k
          ++ (if (k <? left)%nat then [EvGenerate m] else [])
    ∧ ((k < left)%nat →
       sdk w (sdk_calls st + k) m ≠ SdkApiError 429
       ∧ (retry_loop w m left i st).1
         = match sdk w (sdk_calls st + k) m with
           | SdkText t => t
           | _ => Some []
           end).
Proof.
  revert i st. induction left as [|left IH]; intros i st.
  - exists 0%nat. simpl. split; [lia|]. split; [lia|].
    split; [by rewrite app_nil_r|lia].
  - simpl. destruct (sdk w (sdk_calls st) m) as [t|code|] eqn:E.
    + exists 0%nat. simpl. rewrite Nat.add_0_r, E.
      split; [lia|]. split; [lia|]. done.
    + destruct (code =? 429) eqn:Ec.
      * apply N.eqb_eq in Ec as ->.
        destruct (IH (i + 1) (emit (EvSleep (2 ^ i * 1000))
                                (count_sdk (emit (EvGenerate m) st))))
          as (k & Hk & H429 & Htr & Hend).
        exists (S k). split; [lia|]. split; [|split].
        -- intros [|j] Hj; [by rewrite Nat.add_0_r|].
           replace (sdk_calls st + S j)%nat with (S (sdk_calls st) + j)%nat by lia.
           apply H429. lia.
        -- rewrite Htr. simpl. rewrite <- !app_assoc. simpl.
           by replace (S k <? S left)%nat with (k <? left)%nat by done.
        -- intros Hlt.
           replace (sdk_calls st + S k)%nat with (S (sdk_calls st) + k)%nat by lia.
           apply Hend. lia.
      * exists 0%nat. simpl. rewrite Nat.add_0_r, E.
        split; [lia|]. split; [lia|]. split; [done|]. intros _.
        split; [|done]. intros [= ->]. done.
    + exists 0%nat. simpl. rewrite Nat.add_0_r, E.
      split; [lia|]. split; [lia|]. done.
Qed.

Lemma sdk_loop_stops w pre post tex st :
  nonblank tex = false →
  nonblank (sdk_loop w pre tex st).1 = true →
  sdk_loop w (pre ++ post) tex st = sdk_loop w pre tex st.
Proof.
  revert tex st. induction pre as [|name pre IH]; intros tex st Htex; simpl.
  - congruence.
  - destruct (negb (truthy name)); [by apply IH|].
    destruct (generateWithRetry w name st) as [r st1].
    destruct (nonblank (default [] r)) eqn:E; [done|]. by apply IH.
Qed.

(** After [left] answers 429 in a row the loop has made [left] calls and
    [left] pauses and returns the empty string. *)
Lemma retry_loop_exhausted w m left i st :
  (∀ j, (j < left)%nat → sdk w (sdk_calls st + j) m = SdkApiError 429) →
  retry_loop w m left i st
  = (Some [], {| sdk_calls := (sdk_calls st + left)%nat; raw_calls := raw_calls st;
                 trace := trace st ++ rounds m i left |}).
Proof.
  revert i st. induction left as [|left IH]; intros i st H429.
  - simpl. rewrite Nat.add_0_r, app_nil_r. by destruct st.
  - simpl. pose proof (H429 0%nat ltac:(lia)) as H0. rewrite Nat.add_0_r in H0.
    rewrite H0. simpl. rewrite IH.
    + simpl. rewrite <- !app_assoc. simpl. do 3 f_equal. lia.
    + intros j Hj. cbn [sdk_calls emit count_sdk].
      replace (S (sdk_calls st) + j)%nat with (sdk_calls st + S j)%nat by lia.
      apply H429. lia.
Qed.

(** C8 (as amended).  For every candidate the SDK is called at most three
    times: each answer 429 is followed by a pause of 1 s, 2 s and 4 s in
    turn and, while fewer than three calls were made, by another call to
    the same model; after the third 429 and its pause of 4 s the candidate
    is given up with the empty string, and the loop goes on to the next
    candidate; any other error ends the work on that model after that one
    call, with no pause; once a candidate has returned text that is not
    blank, no later candidate and no fallback call is made; and an answer
    that is empty or all white space sends the loop on to the next
    candidate. *)
Theorem generateWithRetry_policy (w : World) :
  (∀ m st, ∃ k, (k ≤ 3)%nat
     ∧ (∀ j, (j < k)%nat → sdk w (sdk_calls st + j) m = SdkApiError 429)
     ∧ trace (generateWithRetry w m st).2
       = trace st ++ rounds m 0 k ++ (if (k <? 3)%nat then [EvGenerate m] else [])
     ∧ ((k < 3)%nat →
        sdk w (sdk_calls st + k) m ≠ SdkApiError 429
        ∧ (generateWithRetry w m st).1
          = match sdk w (sdk_calls st + k) m with
            | SdkText t => t
            | _ => Some []
            end))
  ∧ (∀ m, rounds m 0 3
          = [EvGenerate m; EvSleep 1000; EvGenerate m; EvSleep 2000;
             EvGenerate m; EvSleep 4000])
  ∧ (∀ m st,
       (∀ j, (j < 3)%nat → sdk w (sdk_calls st + j) m = SdkApiError 429) →
       generateWithRetry w m st
       = (Some [], {| sdk_calls := (sdk_calls st + 3)%nat; raw_calls := raw_calls st;
                      trace := trace st ++ rounds m 0 3 |})
       ∧ ∀ rest tex,
           truthy m = true →
           sdk_loop w (m :: rest) tex st
           = sdk_loop w rest []
               {| sdk_calls := (sdk_calls st + 3)%nat; raw_calls := raw_calls st;
                  trace := trace st ++ rounds m 0 3 |})
  ∧ (∀ m st,
       (sdk w (sdk_calls st) m = SdkOtherError
        ∨ ∃ code, sdk w (sdk_calls st) m = SdkApiError code ∧ code ≠ 429) →
       generateWithRetry w m st = (Some [], count_sdk (emit (EvGenerate m) st)))
  ∧ (∀ pre post,
       nonblank (sdk_loop w pre [] init).1 = true →
       generate w (pre ++ post)
       = (Some (sdk_loop w pre [] init).1, (sdk_loop w pre [] init).2))
  ∧ (∀ m rest tex st,
       truthy m = true →
       nonblank (default [] (generateWithRetry w m st).1) = false →
       sdk_loop w (m :: rest) tex st
       = sdk_loop w rest (default [] (generateWithRetry w m st).1)
           (generateWithRetry w m st).2).
Proof.
  split; [|split; [|split; [|split; [|split]]]]; cycle 5.
  { intros m rest tex st Hm Hb. simpl. rewrite Hm. simpl.
    destruct (generateWithRetry w m st) as [r st1]. simpl in *. by rewrite Hb. }
  - intros m st. apply (retry_loop_shape w m 3 0 st).
  - reflexivity.
  - intros m st H429.
    assert (generateWithRetry w m st
            = (Some [], {| sdk_calls := (sdk_calls st + 3)%nat; raw_calls := raw_calls st;
                           trace := trace st ++ rounds m 0 3 |})) as Hgen
      by apply (retry_loop_exhausted w m 3 0 st H429).
    split; [done|]. intros rest tex Hm.
    cbn [sdk_loop]. rewrite Hm, Hgen. done.
  - intros m st H. unfold generateWithRetry. simpl.
    destruct H as [-> | (code & -> & Hc)]; [done|].
    apply N.eqb_neq in Hc. by rewrite Hc.
  - intros pre post H. unfold generate.
    rewrite (sdk_loop_stops w pre post [] init eq_refl H).
    destruct (sdk_loop w pre [] init) as [tex st]. simpl in *. by rewrite H.
Qed.

(** C8, the claim as worded fails: an answer of three spaces is text that
    is not empty, yet the loop does not stop there and the next candidate
    is called. *)
Lemma blank_answer_does_not_stop :
  truthy (str "   ") = true
  ∧ (tailor Fixtures.env0 Fixtures.w_blank_first ∅ 0 None (Fixtures.body_ok None)).2
    = [EvGenerate (str "gemini-1.5-flash-latest");
       EvGenerate (str "gemini-1.5-flash")]
  ∧ (tailor Fixtures.env0 Fixtures.w_blank_first ∅ 0 None (Fixtures.body_ok None)).1.1
    = Tex Fixtures.resume.
Proof. vm_compute. repeat split. Qed.

(** A model that keeps answering 429 is called three times, with pauses of
    1 s, 2 s and 4 s, and then given up. *)
Example generateWithRetry_429 :
  generateWithRetry
    {| sdk := fun _ _ => SdkApiError 429; raw := fun _ _ => RawRejects;
       base_file := None |}
    (str "gemini-pro") init
  = (Some [],
     {| sdk_calls := 3; raw_calls := 0;
        trace := rounds (str "gemini-pro") 0 3 |}).
Proof. reflexivity. Qed.

End TailorFacts.

(** ** The compile routes *)

Section CompileFacts.
Import Js Spec Svc.





Lemma attempt_miss w n rq name tried :
  fails w n rq → (Compile.attempt w n rq name tried).1 = None.
Proof.
  unfold fails, Compile.attempt. destruct (svc w n rq) as [msg|r']; [done|].
  by intros ->.
Qed.


(** What [stage] leaves at [archivePath]. *)
Lemma stage_archive w name content fs s fs1 :
  Upload.stage w name content fs = (inr s, fs1) →
  fs1 !! s.(Upload.archivePath) = Some (File (archive_of name content)).
Proof.
  unfold Upload.stage, archive_of.
  destruct (endsWith (str ".tex") (to_lower name)).
  - unfold tar_cjf. destruct (tar_runs w); [|done].
    rewrite lookup_insert_eq. intros [= <- <-]. simpl.
    by rewrite lookup_insert_eq.
  - intros [= <- <-]. simpl. by rewrite lookup_insert_eq.
Qed.





(** *** Archive-only mode *)

Lemma until_app c a b : ¬ In c a → Upload.until c (a ++ c :: b) = a.
Proof.
  induction a as [|x a IH]; simpl; intros H.
  - by rewrite N.eqb_refl.
  - destruct (x =? c) eqn:E.
    + apply N.eqb_eq in E. exfalso. apply H. by left.
    + f_equal. apply IH. intros Hin. apply H. by right.
Qed.









(** What comes back for [cv.tex]: the archive built around it. *)
Example archive_only_gives_archive :
  (Upload.POST None (Fixtures.platform (fun _ _ => Rejects []) Fixtures.ctan_foo)
     ∅ ∅ 0 (Fixtures.upload_tex (Some (str "1")))).1.1.1
  = Upload.ArchiveBack (str "application/x-bzip2") (str "archive.tar.bz2")
      (TarBz2 [(str "main.tex",
                Bytes (str "\documentclass{article}\usepackage{foo}"))]).
Proof. vm_compute. reflexivity. Qed.


(** *** Temporary files *)

(** C1, evaluated where the code leaves files behind.  (1) The upload
    route in archive-only mode answers 200 and returns without [cleanup()]:
    the fresh directory, the upload, the work directory and the archive all
    remain.  (2) The upload route, when [fetch] rejects, goes to the outer
    [catch], which has no cleanup.  (3) The compile route, when every
    direct attempt has failed, ends in the [catch] of the archive fallback
    (here with a compilation service whose [fetch] rejects; the fallback
    reaches its [catch] before it would send the archive): the directory,
    [main.tex] and the archive remain. *)
Theorem temporary_files_remain :
  let w := Fixtures.platform (fun _ _ => Rejects (str "This operation was aborted"))
             Fixtures.ctan_foo in
  let up1 := Upload.POST None w ∅ ∅ 0 (Fixtures.upload_tex (Some (str "1"))) in
  let up2 := Upload.POST None w ∅ ∅ 0 (Fixtures.upload_tex None) in
  let co := Compile.compile w ∅ Fixtures.compile_body in
  (Upload.http_status up1.1.1.1 = 200
   ∧ up1.1.2 !! str "/tmp/latex-upload-Ab3xYz" = Some Dir
   ∧ up1.1.2 !! str "/tmp/latex-upload-Ab3xYz/archive.tar.bz2"
     = Some (File (TarBz2 [(str "main.tex",
                            Bytes (str "\documentclass{article}\usepackage{foo}"))]))
   ∧ size up1.1.2 = 5%nat)
  ∧ (up2.1.1.1 = Upload.InternalError
     ∧ up2.1.2 !! str "/tmp/latex-upload-Ab3xYz" = Some Dir
     ∧ size up2.1.2 = 5%nat)
  ∧ (Compile.http_status co.1.1 = 502
     ∧ co.1.2 !! str "/tmp/latex-Ab3xYz" = Some Dir
     ∧ co.1.2 !! str "/tmp/latex-Ab3xYz/main.tex"
       = Some (File (Plain (Utf8 (str "\documentclass{article}\begin{document}x\end{document}"))))
     ∧ size co.1.2 = 3%nat).
Proof. vm_compute. repeat split. Qed.

(** The same in general.  Whatever the upload, the world and the file
    system before: an answer in archive-only mode leaves the directory
    made by [mkdtempSync] in place. *)
Lemma path_join_longer dir name : (length dir < length (path_join dir name))%nat.
Proof. unfold path_join. rewrite !length_app. simpl. lia. Qed.

Lemma longer_ne (p q : list N) : (length p < length q)%nat → q ≠ p.
Proof. intros H ->. lia. Qed.

Lemma stage_keeps_tmp w name content fs s fs1 :
  Upload.stage w name content fs = (inr s, fs1) →
  s.(Upload.tmp) = w.(mkdtemp) (path_join w.(tmpdir) (str "latex-upload-"))
  ∧ fs1 !! s.(Upload.tmp) = Some Dir.
Proof.
  unfold Upload.stage.
  set (tmp := mkdtemp w _).
  pose proof (path_join_longer tmp (Upload.or_upload name)) as H1.
  pose proof (path_join_longer tmp (str "archive.tar.bz2")) as H2.
  pose proof (path_join_longer tmp (str "work")) as H3.
  pose proof (path_join_longer (path_join tmp (str "work")) (str "main.tex")) as H4.
  destruct (endsWith (str ".tex") (to_lower name)).
  - unfold tar_cjf. destruct (tar_runs w); [|done].
    rewrite lookup_insert_eq. intros [= <- <-]. simpl. split; [done|].
    rewrite !lookup_insert_ne by (apply longer_ne; lia).
    apply lookup_insert_eq.
  - intros [= <- <-]. simpl. split; [done|].
    rewrite lookup_insert_ne by (apply longer_ne; lia).
    apply lookup_insert_eq.
Qed.

Lemma validate_not_archive env over rq resp :
  Upload.validate env over rq = inl resp → is_archive_back resp = false.
Proof.
  unfold Upload.validate. intros H.
  repeat match type of H with
         | (if ?c then _ else _) = _ => destruct c
         | match ?x with _ => _ end = _ => destruct x
         end; first [discriminate | by injection H as <-].
Qed.

Lemma stage_not_archive w name content fs resp fs1 :
  Upload.stage w name content fs = (inl resp, fs1) → is_archive_back resp = false.
Proof.
  unfold Upload.stage. intros H.
  repeat match type of H with
         | (if ?c then _ else _) = _ => destruct c
         | match ?x with _ => _ end = _ => destruct x
         end; first [discriminate | by injection H as <-].
Qed.

Lemma retry_not_archive w s work buf fs tr r :
  (Upload.retry_upload w s work buf fs tr).1.1.1 = Some r →
  is_archive_back r = false.
Proof.
  unfold Upload.retry_upload.
  destruct (tar_cjf _ _ _ _ _); [|done].
  destruct (svc w 1 _); [done|]. destruct (ok _ && _); [|done].
  by intros [= <-].
Qed.

Lemma recover_not_archive w s fs :
  is_archive_back (Upload.send_and_recover w s fs).1.1 = false.
Proof.
  unfold Upload.send_and_recover.
  destruct (fs !! Upload.archivePath s) as [[|d]|]; try done.
  destruct (svc w 0 _) as [msg|resp]; [done|].
  assert (∀ x : option Upload.Response * list N * gmap (list N) Node * list Event,
            (∀ r, x.1.1.1 = Some r → is_archive_back r = false) →
            is_archive_back
              (let '(early, buf, fs1, tr1) := x in
               match early with
               | Some r => (r, fs1, tr1)
               | None =>
                   if ok resp && (isPdfHeader (body resp) || isPdfType resp)
                   then (Upload.Pdf buf, Upload.cleanup (Upload.tmp s) fs1, tr1)
                   else (Upload.log_response (utf8_decode w buf) (status resp),
                         Upload.cleanup (Upload.tmp s) fs1, tr1)
               end).1.1 = false) as Hcase.
  { intros [[[[r|] buf] fs1] tr1] Hx; simpl.
    - by apply Hx.
    - unfold Upload.log_response.
      destruct (ok resp && _); [done|]. by destruct (body_status_ok _). }
  apply Hcase. intros r.
  destruct (Upload.workdir s) as [work|]; [|done].
  destruct (negb (ok resp)); [|done].
  destruct (0 <? _)%nat; [|done].
  destruct (Upload.fetch_packages _ _ _ _ _ _) as [[[] fs'] tr']; [|done].
  apply retry_not_archive.
Qed.

Lemma archive_only_leaves_tmp env w rateMap fs now rq :
  is_archive_back (Upload.POST env w rateMap fs now rq).1.1.1 = true →
  (Upload.POST env w rateMap fs now rq).1.2
    !! w.(mkdtemp) (path_join w.(tmpdir) (str "latex-upload-")) = Some Dir.
Proof.
  unfold Upload.POST. destruct (rate_step _ _ _ _ _) as [rate' over].
  destruct (Upload.validate env over rq) as [resp|[name content]] eqn:Hval.
  { simpl. by rewrite (validate_not_archive _ _ _ _ Hval). }
  destruct (Upload.stage w name content fs) as [[resp|s] fs1] eqn:Hst.
  { simpl. by rewrite (stage_not_archive _ _ _ _ _ _ Hst). }
  destruct (stage_keeps_tmp _ _ _ _ _ _ Hst) as [Htmp Hdir]. rewrite <- Htmp.
  destruct (Upload.only_archive rq).
  - unfold Upload.send_back. rewrite (stage_archive _ _ _ _ _ _ Hst).
    by destruct (header_value_ok _).
  - pose proof (recover_not_archive w s fs1) as Hn.
    destruct (Upload.send_and_recover w s fs1) as [[resp fs2] tr].
    simpl in *. by rewrite Hn.
Qed.

(** And in the compile route: whenever the archive fallback is reached,
    the directory and [main.tex] are still there afterwards, and so is the
    archive when [tar] has run. *)
Lemma fallback_leaves_tmp w tex tried tr fs :
  (Compile.archive_fallback w tex tried tr fs).1.2
    !! w.(mkdtemp) (path_join w.(tmpdir) (str "latex-")) = Some Dir
  ∧ (Compile.archive_fallback w tex tried tr fs).1.2
      !! path_join (w.(mkdtemp) (path_join w.(tmpdir) (str "latex-"))) (str "main.tex")
    = Some (File (Plain (Utf8 tex)))
  ∧ (tar_runs w = true →
     (Compile.archive_fallback w tex tried tr fs).1.2
       !! path_join (w.(mkdtemp) (path_join w.(tmpdir) (str "latex-")))
            (str "archive.tar.bz2")
     = Some (File (TarBz2 [(str "main.tex", Utf8 tex)]))).
Proof.
  unfold Compile.archive_fallback, tar_cjf.
  set (tmp := mkdtemp w _).
  pose proof (path_join_longer tmp (str "main.tex")) as H1.
  pose proof (path_join_longer tmp (str "archive.tar.bz2")) as H2.
  assert (path_join tmp (str "archive.tar.bz2") ≠ path_join tmp (str "main.tex"))
    as Hne.
  { unfold path_join. intros H%app_inv_head%app_inv_head. discriminate H. }
  destruct (tar_runs w).
  - rewrite lookup_insert_eq. simpl. split; [|split].
    + rewrite !lookup_insert_ne by (apply longer_ne; lia). apply lookup_insert_eq.
    + rewrite lookup_insert_ne by done. apply lookup_insert_eq.
    + intros _. apply lookup_insert_eq.
  - simpl. split; [|split; [|done]].
    + rewrite lookup_insert_ne by (apply longer_ne; lia). apply lookup_insert_eq.
    + apply lookup_insert_eq.
Qed.

(** Also when the compilation service answers every request (here with a
    failure): the archive is never sent, and the three entries stay. *)
Example compile_leaves_files_after_answer :
  size (Compile.compile
          (Fixtures.platform (fun _ _ => Resolves Fixtures.r_missing_foo)
             Fixtures.ctan_foo)
          ∅ Fixtures.compile_body).1.2 = 3%nat.
Proof. vm_compute. reflexivity. Qed.

(** *** Missing-package recovery *)

(** Whatever was fetched, the archive of the retry holds [main.tex] alone:
    [tar] is run on that one member. *)
Lemma retry_sends_main_tex_only w s work buf fs tr :
  ∃ new,
    (Upload.retry_upload w s work buf fs tr).2 = tr ++ new
    ∧ Forall (fun e => ∃ c, e = EvCompile
                (PostArchive (Some (File (TarBz2 [(str "main.tex", c)]))))) new.
Proof.
  unfold Upload.retry_upload, tar_cjf.
  destruct (tar_runs w); [|exists []; by rewrite app_nil_r].
  destruct (fs !! path_join work (str "main.tex")) as [[|[c|]]|];
    try (exists []; by rewrite app_nil_r).
  rewrite lookup_insert_eq.
  destruct (svc w 1 _) as [msg|r2].
  - eexists [_]. split; [done|]. repeat constructor. by exists c.
  - destruct (ok r2 && _); eexists [_]; (split; [done|]);
      repeat constructor; by exists c.
Qed.

(** The part of the recovery that works as described: when the mirror gives
    nothing, no package is written, the compilation service is not called
    again, and the answer is the text of the first response with its
    status (500 when that status cannot go with a body). *)
Lemma fetch_packages_none w work pkgs fs tr :
  (∀ pkg, mirror_fails w pkg) →
  ∃ tr', Upload.fetch_packages w work pkgs false fs tr = (false, fs, tr ++ tr')
         ∧ Forall (fun e => ∃ pkg, e = EvCtan pkg) tr'.
Proof.
  intros Hm. revert tr. induction pkgs as [|sty rest IH]; intros tr; simpl.
  - exists []. by rewrite app_nil_r.
  - specialize (Hm sty) as Hsty. unfold mirror_fails in Hsty.
    destruct (IH (tr ++ [EvCtan sty])) as (tr' & Heq & Hall).
    exists (EvCtan sty :: tr').
    rewrite <- app_assoc in Heq. simpl in Heq.
    destruct (ctan w sty) as [msg|r]; [|rewrite Hsty]; rewrite Heq;
      (split; [done|]); constructor; eauto.
Qed.

Lemma no_fetch_returns_original_log w s fs d resp :
  fs !! s.(Upload.archivePath) = Some (File d) →
  w.(svc) 0 (PostArchive (Some (File d))) = Resolves resp →
  ok resp = false →
  (∀ pkg, mirror_fails w pkg) →
  ∃ tr',
    Upload.send_and_recover w s fs
    = (Upload.log_response (w.(utf8_decode) resp.(body)) resp.(status),
       Upload.cleanup s.(Upload.tmp) fs,
       EvCompile (PostArchive (Some (File d))) :: tr')
    ∧ Forall (fun e => ∃ pkg, e = EvCtan pkg) tr'.
Proof.
  intros Hfs Hsvc Hok Hm. unfold Upload.send_and_recover.
  rewrite Hfs, Hsvc, Hok. cbn [negb andb].
  destruct (Upload.workdir s) as [work|]; [|by exists []].
  destruct (0 <? _)%nat; [|by exists []].
  destruct (fetch_packages_none w work
              (dedup_first [] (Upload.missing (utf8_decode w (body resp)))) fs
              [EvCompile (PostArchive (Some (File d)))] Hm) as (tr' & -> & Hall).
  by exists tr'.
Qed.

(** C7, evaluated where the code departs from it.  A [.tex] upload fails
    with a log naming [foo.sty]; the mirror has the package and it is
    written into the work directory; the handler then retries once, but with
    an archive that holds [main.tex] alone, the same as before. *)
Theorem retry_archive_lacks_fetched_sty :
  let w := Fixtures.platform (fun _ _ => Resolves Fixtures.r_missing_foo)
             Fixtures.ctan_foo in
  let work := str "/tmp/latex-upload-Ab3xYz/work" in
  let archive :=
    Some (File (TarBz2 [(str "main.tex",
                         Bytes (str "\documentclass{article}\usepackage{foo}"))])) in
  Upload.missing (w.(utf8_decode) Fixtures.r_missing_foo.(body)) = [str "foo"]
  ∧ (Upload.fetch_packages w work [str "foo"] false ∅ []).1.2
      !! path_join work (str "foo.sty")
    = Some (File (Plain (Bytes (str "\ProvidesPackage{foo}"))))
  ∧ (Upload.POST None w ∅ ∅ 0 (Fixtures.upload_tex None)).2
    = [EvCompile (PostArchive archive); EvCtan (str "foo");
       EvCompile (PostArchive archive)]
  ∧ (Upload.POST None w ∅ ∅ 0 (Fixtures.upload_tex None)).1.1.1
    = Upload.LogText Fixtures.r_missing_foo.(body) 400.
Proof. vm_compute. repeat split. Qed.

End CompileFacts.

(** * Further properties of the routes *)

(** ** The rate limiter *)

Section RateLimiter.
Import Js More.

Lemma rate_bump_in_window window t e :
  t <= e.(resetAt) →
  rate_bump window t (Some e)
  = {| count := e.(count) + 1; resetAt := e.(resetAt) |}.
Proof.
  intros Ht. unfold rate_bump. simpl.
  destruct (resetAt e <? t) eqn:E; [bool_N; lia|done].
Qed.

Lemma rate_bump_fresh window t :
  rate_bump window t None = {| count := 1; resetAt := t + window |}.
Proof.
  unfold rate_bump. simpl.
  destruct (t + window <? t) eqn:E; [bool_N; lia|done].
Qed.

Lemma rate_bump_expired window t e :
  e.(resetAt) < t →
  rate_bump window t (Some e) = {| count := 1; resetAt := t + window |}.
Proof.
  intros Ht. unfold rate_bump. simpl. apply N.ltb_lt in Ht. by rewrite Ht.
Qed.

Lemma rate_run_window window max m ip e times :
  m !! ip = Some e →
  Forall (fun t => t <= e.(resetAt)) times →
  (rate_run window max m ip times).2
    = List.map (fun k => max <? e.(count) + N.of_nat k) (seq 1 (length times))
  ∧ (rate_run window max m ip times).1 !! ip
    = Some {| count := e.(count) + N.of_nat (length times);
              resetAt := e.(resetAt) |}.
Proof.
  revert m e. induction times as [|t ts IH]; intros m e Hm Hts.
  - simpl. split; [done|]. rewrite N.add_0_r. by destruct e.
  - apply Forall_cons in Hts as [Ht Hts].
    cbn [rate_run]. rewrite rate_step_bump, Hm, (rate_bump_in_window _ _ _ Ht).
    cbn [count].
    destruct (IH (<[ip := {| count := count e + 1; resetAt := resetAt e |}]> m)
                {| count := count e + 1; resetAt := resetAt e |}
                (lookup_insert_eq _ _ _) Hts) as [IH1 IH2].
    destruct (rate_run window max _ ip ts) as [m2 overs].
    cbn [fst snd count resetAt length seq List.map] in *. split.
    + f_equal. rewrite IH1, <- (seq_shift _ 1), List.map_map.
      apply List.map_ext. intros k. f_equal. lia.
    + rewrite IH2. f_equal. f_equal. lia.
Qed.

(** X1.  An address unknown to the limiter sends requests, all of them
    within the window opened by the first: the k-th request is refused
    exactly when k exceeds the maximum, and the counter ends at the number
    of requests sent, refused ones included. *)
Theorem rate_limit_admits_first_max window max m ip t0 rest :
  m !! ip = None →
  Forall (fun t => t <= t0 + window) rest →
  (rate_run window max m ip (t0 :: rest)).2
    = List.map (fun k => max <? N.of_nat k) (seq 1 (S (length rest)))
  ∧ (rate_run window max m ip (t0 :: rest)).1 !! ip
    = Some {| count := N.of_nat (S (length rest)); resetAt := t0 + window |}.
Proof.
  intros Hm Hrest. cbn [rate_run]. rewrite rate_step_bump, Hm, rate_bump_fresh.
  cbn [count].
  destruct (rate_run_window window max
              (<[ip := {| count := 1; resetAt := t0 + window |}]> m) ip
              {| count := 1; resetAt := t0 + window |} rest
              (lookup_insert_eq _ _ _) Hrest) as [H1 H2].
  destruct (rate_run window max _ ip rest) as [m2 overs].
  cbn [fst snd count resetAt length seq List.map] in *. split.
  - f_equal. rewrite H1, <- (seq_shift _ 1), List.map_map.
    apply List.map_ext. intros k. f_equal. lia.
  - rewrite H2. f_equal. f_equal. lia.
Qed.

Lemma rate_limit_admits_first_max_witness :
  (rate_run 60000 2 ∅ (str "10.0.0.1") [100; 200; 300; 60100]).2
    = [false; false; true; true].
Proof.
  destruct (rate_limit_admits_first_max 60000 2 ∅ (str "10.0.0.1") 100
              [200; 300; 60100]) as [H _].
  - reflexivity.
  - repeat constructor; vm_compute; discriminate.
  - exact H.
Defined.

(** The answers the upload route can give behind its checks. *)
Lemma recover_shape w s fs :
  match (Upload.send_and_recover w s fs).1.1 with
  | Upload.InternalError | Upload.Pdf _ | Upload.LogText _ _ => True
  | _ => False
  end.
Proof.
  unfold Upload.send_and_recover.
  destruct (fs !! Upload.archivePath s) as [[|d]|]; try done.
  destruct (Svc.svc w 0 _) as [msg|resp]; [done|].
  assert (∀ x : option Upload.Response * list N * gmap (list N) Svc.Node
                  * list Svc.Event,
            (∀ r, x.1.1.1 = Some r → ∃ b, r = Upload.Pdf b) →
            match
              (let '(early, buf, fs1, tr1) := x in
               match early with
               | Some r => (r, fs1, tr1)
               | None =>
                   if Svc.ok resp
                      && (Svc.isPdfHeader (Svc.body resp) || Svc.isPdfType resp)
                   then (Upload.Pdf buf, Upload.cleanup (Upload.tmp s) fs1, tr1)
                   else (Upload.log_response (Svc.utf8_decode w buf)
                           (Svc.status resp),
                         Upload.cleanup (Upload.tmp s) fs1, tr1)
               end).1.1
            with
            | Upload.InternalError | Upload.Pdf _ | Upload.LogText _ _ => True
            | _ => False
            end) as Hcase.
  { intros [[[[r|] buf] fs1] tr1] Hx; simpl.
    - by destruct (Hx r eq_refl) as [b ->].
    - unfold Upload.log_response.
      destruct (Svc.ok resp && _); [done|]. by destruct (Svc.body_status_ok _). }
  apply Hcase. intros r.
  destruct (Upload.workdir s) as [work|]; [|done].
  destruct (negb (Svc.ok resp)); [|done].
  destruct (0 <? _)%nat; [|done].
  destruct (Upload.fetch_packages _ _ _ _ _ _) as [[[] fs'] tr']; [|done].
  unfold Upload.retry_upload.
  destruct (Svc.tar_cjf _ _ _ _ _); [|done].
  destruct (Svc.svc w 1 _) as [|r2]; [done|].
  destruct (Svc.ok r2 && _); [|done]. intros [= <-]. by eexists.
Qed.

Lemma upload_too_many_only_over env w rateMap fs now rq :
  (rate_step Upload.RATE_LIMIT_WINDOW_MS Upload.RATE_LIMIT_MAX rateMap
     (client_ip rq.(Upload.xff)) now).2 = false →
  (Upload.POST env w rateMap fs now rq).1.1.1 ≠ Upload.TooManyRequests.
Proof.
  unfold Upload.POST. destruct (rate_step _ _ _ _ _) as [rate' over].
  simpl. intros ->.
  destruct (Upload.validate env false rq) as [resp|[name content]] eqn:Hval.
  { simpl. intros ->. unfold Upload.validate in Hval.
    repeat match type of Hval with
           | (if ?c then _ else _) = _ => destruct c
           | match ?x with _ => _ end = _ => destruct x
           end; discriminate. }
  destruct (Upload.stage w name content fs) as [[resp|s] fs1] eqn:Hst.
  { simpl. intros ->. unfold Upload.stage in Hst.
    repeat match type of Hst with
           | (if ?c then _ else _) = _ => destruct c
           | match ?x with _ => _ end = _ => destruct x
           end; discriminate. }
  destruct (Upload.only_archive rq).
  - unfold Upload.send_back.
    destruct (fs1 !! _) as [[|?]|]; try done. by destruct (Svc.header_value_ok _).
  - pose proof (recover_shape w s fs1) as Hs.
    destruct (Upload.send_and_recover w s fs1) as [[resp ?] ?].
    simpl in *. by intros ->.
Qed.

(** X2.  A request to the tailor route or to the upload route changes the
    counter of its own address only, and a request that arrives after the
    window of its address has ended is not refused by the limiter. *)
Theorem rate_limit_is_per_address (env : Tailor.Env) (w : Tailor.World)
    (tailorRate : gmap (list N) RateEnt) (now : N) (xff : option (list N))
    (b : Tailor.Body) (uenv : option N) (uw : Svc.World) (rateMap : gmap (list N) RateEnt)
    (fs : gmap (list N) Svc.Node) (rq : Upload.Request) :
  (∀ ip, ip ≠ client_ip xff →
         (Tailor.tailor env w tailorRate now xff b).1.2 !! ip = tailorRate !! ip)
  ∧ (∀ ip, ip ≠ client_ip rq.(Upload.xff) →
           (Upload.POST uenv uw rateMap fs now rq).1.1.2 !! ip = rateMap !! ip)
  ∧ (∀ e, tailorRate !! client_ip xff = Some e → e.(resetAt) < now →
          (Tailor.tailor env w tailorRate now xff b).1.1 ≠ Tailor.TooManyRequests)
  ∧ (∀ e, rateMap !! client_ip rq.(Upload.xff) = Some e → e.(resetAt) < now →
          (Upload.POST uenv uw rateMap fs now rq).1.1.1 ≠ Upload.TooManyRequests).
Proof.
  split; [|split; [|split]].
  - intros ip Hip. unfold Tailor.tailor. rewrite rate_step_bump.
    destruct (Tailor.resolve _ _ _ _); [|destruct (Tailor.generate _ _) as [[?|] ?]];
      simpl; by rewrite lookup_insert_ne.
  - intros ip Hip. unfold Upload.POST. rewrite rate_step_bump.
    destruct (Upload.validate _ _ _) as [?|[name content]];
      [simpl; by rewrite lookup_insert_ne|].
    destruct (Upload.stage _ _ _ _) as [[?|s] fs1];
      [simpl; by rewrite lookup_insert_ne|].
    destruct (Upload.only_archive rq).
    + destruct (Upload.send_back s fs1). simpl. by rewrite lookup_insert_ne.
    + destruct (Upload.send_and_recover uw s fs1) as [[? ?] ?]. simpl.
      by rewrite lookup_insert_ne.
  - intros e He Hexp. unfold Tailor.tailor.
    rewrite rate_step_bump, He, (rate_bump_expired _ _ _ Hexp).
    cbn [count]. replace (Tailor.TAILOR_RATE_MAX <? 1) with false by reflexivity.
    pose proof (resolve_not_over env w b) as Hn.
    destruct (Tailor.resolve env w false b) as [resp|r]; simpl.
    + by intros ->.
    + destruct (Tailor.generate _ _) as [[?|] ?]; simpl; [|done].
      unfold Tailor.finish. by destruct (negb _).
  - intros e He Hexp. apply upload_too_many_only_over.
    by rewrite rate_step_bump, He, (rate_bump_expired _ _ _ Hexp).
Qed.

End RateLimiter.

(** ** More on strings *)

Section MoreJsFacts.
Import Js More.

Lemma drop_ws_length s : (length (drop_ws s) ≤ length s)%nat.
Proof.
  induction s as [|c s IH]; simpl; [done|].
  destruct (is_ws c); simpl; lia.
Qed.

Lemma drop_ws_fixed t :
  drop_ws t = t ↔ match t with [] => True | c :: _ => is_ws c = false end.
Proof.
  destruct t as [|c t]; simpl; [done|].
  destruct (is_ws c) eqn:E; [|done]. split; [|done].
  intros H. pose proof (drop_ws_length t) as Hl. rewrite H in Hl. simpl in Hl. lia.
Qed.

Lemma drop_ws_idem s : drop_ws (drop_ws s) = drop_ws s.
Proof.
  induction s as [|c s IH]; simpl; [done|].
  destruct (is_ws c) eqn:E; [done|]. simpl. by rewrite E.
Qed.

Lemma drop_ws_prefix p q :
  p ≠ [] → drop_ws (p ++ q) = p ++ q → drop_ws p = p.
Proof.
  intros Hp H. apply drop_ws_fixed in H. apply drop_ws_fixed.
  by destruct p.
Qed.

Lemma drop_ws_extend p q : p ≠ [] → drop_ws p = p → drop_ws (p ++ q) = p ++ q.
Proof.
  intros Hp H. apply drop_ws_fixed in H. apply drop_ws_fixed.
  by destruct p.
Qed.

Lemma trim_no_edge_ws s : no_edge_ws (trim s).
Proof.
  unfold no_edge_ws, trim. rewrite rev_involutive. split; [|apply drop_ws_idem].
  destruct (drop_ws_split (rev (drop_ws s))) as (ws & Hsplit & _).
  set (b := drop_ws (rev (drop_ws s))) in *.
  destruct b as [|c b'] eqn:Hb; [done|].
  apply (f_equal (@rev N)) in Hsplit.
  rewrite rev_involutive, rev_app_distr in Hsplit.
  apply (drop_ws_prefix _ (rev ws)).
  - intros Hnil. apply (f_equal (@rev N)) in Hnil.
    by rewrite rev_involutive in Hnil.
  - rewrite <- Hsplit. apply drop_ws_idem.
Qed.

Lemma trim_fixed s : no_edge_ws s → trim s = s.
Proof.
  intros [H1 H2]. unfold trim. by rewrite H1, H2, rev_involutive.
Qed.

Lemma trim_idem s : trim (trim s) = trim s.
Proof. apply trim_fixed, trim_no_edge_ws. Qed.

Lemma drop_ws_In x s : In x (drop_ws s) → In x s.
Proof.
  induction s as [|c s IH]; simpl; [done|].
  destruct (is_ws c); simpl; tauto.
Qed.

Lemma trim_In x s : In x (trim s) → In x s.
Proof.
  unfold trim. intros H. apply in_rev in H. apply drop_ws_In in H.
  apply in_rev in H. by apply drop_ws_In.
Qed.

Lemma before_comma_no_comma s : ¬ In 44 (before_comma s).
Proof.
  induction s as [|c s IH]; simpl; [tauto|].
  destruct (c =? 44) eqn:E; simpl; [tauto|].
  apply N.eqb_neq in E. intros [H | H]; [done|tauto].
Qed.

Lemma before_comma_split s :
  s = before_comma s ∨ ∃ rest, s = before_comma s ++ 44 :: rest.
Proof.
  induction s as [|c s IH]; simpl; [by left|].
  destruct (c =? 44) eqn:E.
  - apply N.eqb_eq in E as ->. right. by exists s.
  - destruct IH as [IH | [rest IH]].
    + left. simpl. by f_equal.
    + right. exists rest. simpl. by f_equal.
Qed.

(** X3.  The key under which a client is counted is the first entry of
    [x-forwarded-for] without the white space around it, and the word
    [unknown] when there is no header or that entry is blank: whatever
    stands before the first comma of the header (or the whole header when
    it has no comma) decides the key.  The key is never the empty string,
    holds no comma, and has no white space at either end. *)
Theorem client_ip_is_a_clean_key (xff : option (list N)) :
  truthy (client_ip xff) = true
  ∧ ¬ In 44 (client_ip xff)
  ∧ trim (client_ip xff) = client_ip xff
  ∧ (client_ip xff = str "unknown"
     ∨ client_ip xff = trim (before_comma (default [] xff)))
  ∧ Spec.address_key xff (client_ip xff)
  ∧ (∀ key, Spec.address_key xff key → client_ip xff = key)
  ∧ (∀ e rest,
       ¬ In 44 e → truthy (trim e) = true →
       client_ip (Some e) = trim e
       ∧ client_ip (Some (e ++ 44 :: rest)) = trim e).
Proof.
  assert (∀ e rest,
            ¬ In 44 e → truthy (trim e) = true →
            client_ip (Some e) = trim e
            ∧ client_ip (Some (e ++ 44 :: rest)) = trim e) as Hentry.
  { intros e rest He Ht. split.
    - rewrite (client_ip_key (Some e) (trim e)); [done|].
      exists e. rewrite Ht. by repeat split; [|left].
    - rewrite (client_ip_key (Some (e ++ 44 :: rest)) (trim e)); [done|].
      exists e. rewrite Ht. split; [|done]. split; [done|]. right. by exists rest. }
  assert (Spec.address_key xff (client_ip xff)) as Hkey.
  { destruct xff as [h|]; [|reflexivity].
    exists (before_comma h). split; [|reflexivity].
    split; [apply before_comma_no_comma|apply before_comma_split]. }
  unfold client_ip in *.
  destruct (truthy (trim (before_comma (default [] xff)))) eqn:E.
  - split; [done|]. split.
    { intros H%trim_In. by apply before_comma_no_comma in H. }
    split; [apply trim_idem|]. split; [by right|]. split; [done|].
    split; [|done]. intros key Hk. apply client_ip_key in Hk.
    unfold client_ip in Hk. by rewrite E in Hk.
  - split; [done|]. split.
    { vm_compute. intuition discriminate. }
    split; [done|]. split; [by left|]. split; [done|].
    split; [|done]. intros key Hk. apply client_ip_key in Hk.
    unfold client_ip in Hk. by rewrite E in Hk.
Qed.

Example client_ip_first_entry :
  client_ip (Some (str " 203.0.113.7 , 10.0.0.1")) = str "203.0.113.7"
  ∧ client_ip (Some (str " , 10.0.0.1")) = str "unknown"
  ∧ client_ip None = str "unknown".
Proof. repeat split. Qed.

End MoreJsFacts.

(** ** More on the tailor route *)

Section MoreTailorFacts.
Import Js More Tailor.

Lemma valid_model_clean o s : valid_model o = Some s → clean_model s = true.
Proof.
  unfold valid_model, clean_model. destruct o as [t|]; [|done].
  destruct (truthy t && _ && _) eqn:E; [|done]. by intros [= <-].
Qed.

(** X4.  The candidate list is the requested model and the configured
    default, each kept only when it is a non-empty identifier naming neither
    an embedding nor a gecko model, followed by the ten static models in
    their order; every candidate passes that filter, and there are between
    ten and twelve of them. *)
Theorem validModels_shape (requested : option (list N)) (env : Env) :
  validModels requested env
    = omap valid_model [requested; env.(GEMINI_MODEL)] ++ static_models
  ∧ Forall (fun m => clean_model m = true) (validModels requested env)
  ∧ (10 ≤ length (validModels requested env) ≤ 12)%nat.
Proof.
  assert (validModels requested env
          = omap valid_model [requested; env.(GEMINI_MODEL)] ++ static_models)
    as Heq.
  { unfold validModels. by rewrite omap_app. }
  split; [done|]. rewrite Heq. split.
  - apply Forall_app. split.
    + simpl. destruct (valid_model requested) eqn:E1;
        destruct (valid_model (GEMINI_MODEL env)) eqn:E2;
        repeat constructor; by eapply valid_model_clean.
    + apply Forall_forall. intros m Hm.
      assert (forallb clean_model static_models = true) as Hall by reflexivity.
      rewrite forallb_forall in Hall. apply Hall.
      by apply list_elem_of_In.
  - rewrite length_app. simpl.
    destruct (valid_model requested); destruct (valid_model (GEMINI_MODEL env));
      simpl; lia.
Qed.

(** *** Code fences *)

Lemma includes_after_ws p s r :
  strip p (drop_ws s) = Some r → includes p s = true.
Proof.
  intros H. unfold includes. apply anywhere_true.
  destruct (drop_ws_split s) as (ws & Hs & _).
  exists ws, (drop_ws s). split; [done|]. by rewrite H.
Qed.

Lemma includes_suffix p pre post :
  includes p post = true → includes p (pre ++ post) = true.
Proof.
  unfold includes. rewrite !anywhere_true.
  intros (a & b & -> & H). exists (pre ++ a), b. by rewrite app_assoc.
Qed.

Lemma cut_at_none f s : anywhere f s = false → cut_at f s = s.
Proof.
  induction s as [|c s IH]; simpl.
  - intros H. apply orb_false_iff in H as [-> _]. done.
  - intros H. apply orb_false_iff in H as [-> H]. by rewrite IH.
Qed.

(** X5.  A text that holds no run of three backticks comes out of
    [stripCodeFences] unchanged. *)
Theorem stripCodeFences_without_fence (s : list N) :
  includes (str "```") s = false → stripCodeFences s = s.
Proof.
  intros H. unfold stripCodeFences, re_open_fence.
  destruct (strip (str "```") (drop_ws s)) as [r|] eqn:E.
  { apply includes_after_ws in E. congruence. }
  simpl. apply cut_at_none.
  destruct (anywhere re_close_fence_at s) eqn:Ea; [|done].
  apply anywhere_true in Ea as (pre & post & -> & Hc).
  unfold re_close_fence_at in Hc.
  destruct (strip (str "```") (drop_ws post)) as [r|] eqn:E'; [|done].
  apply includes_after_ws in E'. apply (includes_suffix _ pre) in E'. congruence.
Qed.

Lemma stripCodeFences_without_fence_witness :
  stripCodeFences (str "\documentclass{article} `x` ``y``")
  = str "\documentclass{article} `x` ``y``".
Proof.
  apply (stripCodeFences_without_fence (str "\documentclass{article} `x` ``y``")).
  reflexivity.
Defined.

Lemma cut_at_app f d tail :
  (∀ pre post, d = pre ++ post → post ≠ [] → f (post ++ tail) = false) →
  f tail = true →
  cut_at f (d ++ tail) = d.
Proof.
  intros Hd Ht. induction d as [|c d IH]; simpl.
  - destruct tail; simpl; by rewrite Ht.
  - pose proof (Hd [] (c :: d) eq_refl ltac:(done)) as H0. simpl in H0.
    rewrite H0. f_equal. apply IH.
    intros pre post -> Hpost. by apply (Hd (c :: pre) post).
Qed.

Lemma forallb_ws_rev s : forallb is_ws s = true → forallb is_ws (rev s) = true.
Proof.
  rewrite !forallb_forall. intros H x Hx. apply H. by apply in_rev.
Qed.

Lemma close_fence_not_inside pre post :
  post ≠ [] →
  drop_ws (rev (pre ++ post)) = rev (pre ++ post) →
  re_close_fence_at (post ++ [10] ++ str "```") = false.
Proof.
  intros Hpost Hlast. unfold re_close_fence_at.
  destruct (drop_ws_split (post ++ [10] ++ str "```")) as (ws & Hs & Hws).
  destruct (strip (str "```") (drop_ws (post ++ [10] ++ str "```")))
    as [r|] eqn:E; [|done].
  destruct (forallb is_ws r) eqn:Hr; [|done]. exfalso.
  apply strip_Some in E. rewrite E in Hs.
  (* the text ends with a backtick, so nothing follows the fence *)
  assert (r = []) as ->.
  { destruct (rev r) as [|c r'] eqn:Hrev.
    - apply (f_equal (@rev N)) in Hrev. by rewrite rev_involutive in Hrev.
    - apply (f_equal (@rev N)) in Hs.
      rewrite !rev_app_distr, Hrev in Hs. simpl in Hs.
      injection Hs as Hc _. apply forallb_ws_rev in Hr. rewrite Hrev in Hr.
      simpl in Hr. rewrite <- Hc in Hr. done. }
  rewrite app_nil_r, (app_assoc post [10]) in Hs.
  apply app_inv_tail in Hs. subst ws.
  rewrite forallb_app in Hws. apply andb_true_iff in Hws as [Hp _].
  rewrite rev_app_distr in Hlast.
  apply drop_ws_prefix in Hlast.
  - apply drop_ws_fixed in Hlast. apply forallb_ws_rev in Hp.
    destruct (rev post) as [|c p'] eqn:Hrev.
    + apply (f_equal (@rev N)) in Hrev. by rewrite rev_involutive in Hrev.
    + simpl in Hp. rewrite Hlast in Hp. done.
  - intros Hnil. apply (f_equal (@rev N)) in Hnil.
    by rewrite rev_involutive in Hnil.
Qed.

(** X6.  A document wrapped in a fence -- three backticks, an optional tag
    [latex] or [tex], a line break, the document, a line break and three
    backticks -- comes back as it was after [stripCodeFences] and [trim],
    provided it is not empty and neither begins nor ends with white
    space. *)
Theorem fenced_document_round_trip (tag d : list N) :
  tag = [] ∨ tag = str "latex" ∨ tag = str "tex" →
  d ≠ [] →
  no_edge_ws d →
  trim (stripCodeFences (str "```" ++ tag ++ [10] ++ d ++ [10] ++ str "```")) = d.
Proof.
  intros Htag Hd [Hhead Hlast].
  assert (re_open_fence (str "```" ++ tag ++ [10] ++ d ++ [10] ++ str "```")
          = Some (d ++ [10] ++ str "```")) as Hopen.
  { unfold re_open_fence.
    change (drop_ws (str "```" ++ tag ++ [10] ++ d ++ [10] ++ str "```"))
      with (str "```" ++ tag ++ [10] ++ d ++ [10] ++ str "```").
    rewrite (proj2 (strip_Some _ _ _) eq_refl).
    assert (drop_ws ([10] ++ d ++ [10] ++ str "```") = d ++ [10] ++ str "```")
      as Hdrop.
    { rewrite (drop_ws_app [10]) by reflexivity. by apply drop_ws_extend. }
    destruct Htag as [-> | [-> | ->]].
    - simpl. simpl in Hdrop. by rewrite Hdrop.
    - rewrite ci_strip_app by reflexivity. by rewrite Hdrop.
    - change (ci_strip (str "latex") (str "tex" ++ [10] ++ d ++ [10] ++ str "```"))
        with (@None (list N)).
      rewrite ci_strip_app by reflexivity. by rewrite Hdrop. }
  unfold stripCodeFences. rewrite Hopen. simpl default.
  rewrite cut_at_app.
  - by apply trim_fixed.
  - intros pre post -> Hpost. by apply (close_fence_not_inside pre).
  - reflexivity.
Qed.

Lemma fenced_document_round_trip_witness :
  trim (stripCodeFences
          (str "```" ++ str "latex" ++ [10]
           ++ str "\documentclass{article}\begin{document}x\end{document}"
           ++ [10] ++ str "```"))
  = str "\documentclass{article}\begin{document}x\end{document}".
Proof.
  apply (fenced_document_round_trip (str "latex")
           (str "\documentclass{article}\begin{document}x\end{document}")).
  - right. left. reflexivity.
  - discriminate.
  - split; reflexivity.
Defined.

End MoreTailorFacts.

(** *** What the tailor route answers *)

Section TailorAnswers.
Import Js Spec More Tailor.

(** X7.  Whatever the models return, a 200 answer of the tailor route
    carries either a text that holds [\documentclass] or the resolved base
    resume itself. *)
Theorem tailored_text_has_documentclass env w tailorRate now xff b t :
  (tailor env w tailorRate now xff b).1.1 = Tex t →
  has_documentclass t = true ∨ base_resume w b = Some t.
Proof.
  unfold tailor. destruct (rate_step _ _ _ _ _) as [rate' over].
  destruct (resolve env w over b) as [resp|r] eqn:Hres.
  - simpl. intros ->. unfold resolve in Hres.
    repeat match type of Hres with
           | (if ?c then _ else _) = _ => destruct c
           | match ?x with _ => _ end = _ => destruct x
           end; discriminate.
  - apply resolve_base in Hres.
    destruct (generate w _) as [[tex|] st]; simpl; [|done].
    unfold finish.
    destruct (has_documentclass (trim (stripCodeFences tex))) eqn:E; simpl.
    + intros [= <-]. by left.
    + intros [= <-]. by right.
Qed.

Lemma tailored_text_has_documentclass_witness :
  has_documentclass Fixtures.resume = true
  ∨ base_resume Fixtures.w_prose (Fixtures.body_ok None) = Some Fixtures.resume.
Proof.
  apply (tailored_text_has_documentclass Fixtures.env0 Fixtures.w_prose ∅ 0 None
           (Fixtures.body_ok None) Fixtures.resume).
  vm_compute. reflexivity.
Defined.

(** X8.  A request under the limit with a usable job description, whose
    body gives no key or an empty one while the environment has none
    either, is answered 400 ("Missing GEMINI_API_KEY"); no call is made and
    the answer does not depend on the outside world. *)
Theorem missing_key_fails_without_calls env w tailorRate now xff b :
  over_limit tailorRate now xff = false →
  jd_invalid b.(jd) = false →
  b.(apiKey) = None ∨ b.(apiKey) = Some [] →
  env.(GEMINI_API_KEY) = None ∨ env.(GEMINI_API_KEY) = Some [] →
  (tailor env w tailorRate now xff b).1.1 = MissingKey
  ∧ http_status (tailor env w tailorRate now xff b).1.1 = 400
  ∧ (tailor env w tailorRate now xff b).2 = []
  ∧ ∀ w', tailor env w' tailorRate now xff b = tailor env w tailorRate now xff b.
Proof.
  unfold over_limit, tailor. destruct (rate_step _ _ _ _ _) as [rate' over].
  simpl. intros -> Hjd Hb He. unfold resolve. rewrite Hjd.
  assert (first_truthy (apiKey b) (GEMINI_API_KEY env) = None) as ->.
  { unfold first_truthy. by destruct Hb as [-> | ->], He as [-> | ->]. }
  done.
Qed.

Lemma missing_key_fails_without_calls_witness :
  (tailor Fixtures.env0 Fixtures.w_prose ∅ 0 None
     {| jd := Some (str "Backend engineer role requiring Go");
        apiKey := Some []; baseTex := None; model := None |}).1.1 = MissingKey.
Proof.
  destruct (missing_key_fails_without_calls Fixtures.env0 Fixtures.w_prose ∅ 0 None
              {| jd := Some (str "Backend engineer role requiring Go");
                 apiKey := Some []; baseTex := None; model := None |})
    as [H _]; try reflexivity; auto.
Defined.

(** *** Calls and pauses *)

Lemma filter_emit (P : Event → bool) e st :
  List.filter P (trace (emit e st))
  = List.filter P (trace st) ++ (if P e then [e] else []).
Proof. unfold emit. simpl. rewrite List.filter_app. simpl. by destruct (P e). Qed.

Lemma total_sleep_app a b : total_sleep (a ++ b) = total_sleep a + total_sleep b.
Proof.
  unfold total_sleep. induction a as [|e a IH]; simpl; [done|].
  rewrite IH. lia.
Qed.

Lemma retry_loop_raw_calls w m left i st :
  raw_calls (retry_loop w m left i st).2 = raw_calls st.
Proof.
  revert st i. induction left as [|left IH]; intros st i; simpl; [done|].
  destruct (sdk w (sdk_calls st) m) as [t|code|]; simpl; try done.
  destruct (code =? 429); simpl; [|done]. by rewrite IH.
Qed.

(** One candidate: its calls and pauses, read off the shape of the loop. *)
Lemma generateWithRetry_cost w m st :
  ∃ new,
    trace (generateWithRetry w m st).2 = trace st ++ new
    ∧ raw_calls (generateWithRetry w m st).2 = raw_calls st
    ∧ (length (List.filter is_generate new) ≤ 3)%nat
    ∧ List.filter is_raw_fetch new = []
    ∧ total_sleep new <= 7000.
Proof.
  destruct (retry_loop_shape w m 3 0 st) as (k & Hk & _ & Htr & _).
  exists (rounds m 0 k ++ (if (k <? 3)%nat then [EvGenerate m] else [])).
  split; [exact Htr|]. split; [apply retry_loop_raw_calls|].
  destruct k as [|[|[|[|k]]]]; [..|lia]; vm_compute; repeat split;
    solve [lia | discriminate | reflexivity].
Qed.

Lemma sdk_loop_cost w models tex st :
  ∃ new,
    trace (sdk_loop w models tex st).2 = trace st ++ new
    ∧ raw_calls (sdk_loop w models tex st).2 = raw_calls st
    ∧ (length (List.filter is_generate new) ≤ 3 * length models)%nat
    ∧ List.filter is_raw_fetch new = []
    ∧ total_sleep new <= 7000 * N.of_nat (length models).
Proof.
  revert tex st. induction models as [|name rest IH]; intros tex st.
  - exists []. simpl. rewrite app_nil_r. repeat split; solve [done | lia].
  - cbn [sdk_loop]. destruct (negb (truthy name)).
    + destruct (IH tex st) as (new & H1 & H2 & H3 & H4 & H5).
      exists new. repeat split; solve [done | simpl length; lia].
    + destruct (generateWithRetry_cost w name st) as (n1 & G1 & G2 & G3 & G4 & G5).
      destruct (generateWithRetry w name st) as [r st1]. simpl in G1, G2.
      destruct (nonblank (default [] r)).
      * exists n1. simpl. repeat split; solve [done | lia].
      * destruct (IH (default [] r) st1) as (n2 & H1 & H2 & H3 & H4 & H5).
        exists (n1 ++ n2). rewrite H1, G1, H2, G2, app_assoc.
        rewrite !List.filter_app, length_app, total_sleep_app, G4, H4.
        repeat split; solve [done | simpl length; lia].
Qed.

Lemma raw_loop_cost w models tex st :
  ∃ new,
    trace (raw_loop w models tex st).2 = trace st ++ new
    ∧ List.filter is_generate new = []
    ∧ (length (List.filter is_raw_fetch new) ≤ length models)%nat
    ∧ total_sleep new = 0.
Proof.
  revert st. induction models as [|name rest IH]; intros st.
  - exists []. simpl. by rewrite app_nil_r.
  - cbn [raw_loop]. destruct (negb (truthy name)).
    + destruct (IH st) as (new & H1 & H2 & H3 & H4).
      exists new. repeat split; solve [done | simpl length; lia].
    + unfold rawGenerateV1.
      set (st1 := count_raw (emit (EvRawFetch name) st)).
      assert (trace st1 = trace st ++ [EvRawFetch name]) as Hst1 by done.
      destruct (IH st1) as (new & H1 & H2 & H3 & H4).
      assert (∃ new', trace st1 ++ new = trace st ++ new'
                      ∧ List.filter is_generate new' = []
                      ∧ (length (List.filter is_raw_fetch new') ≤ S (length rest))%nat
                      ∧ total_sleep new' = 0) as Hstep.
      { exists (EvRawFetch name :: new). rewrite Hst1, <- app_assoc. simpl.
        repeat split; solve [done | lia]. }
      assert (∃ new', trace st1 = trace st ++ new'
                      ∧ List.filter is_generate new' = []
                      ∧ (length (List.filter is_raw_fetch new') ≤ S (length rest))%nat
                      ∧ total_sleep new' = 0) as Hstop.
      { exists [EvRawFetch name]. repeat split; solve [done | simpl; lia]. }
      destruct (raw w (raw_calls st) name) as [|ok parts]; [exact Hstop|].
      destruct ok; [|exact Hstop].
      destruct (nonblank (raw_text parts)); [exact Hstop|].
      rewrite H1. exact Hstep.
Qed.

(** X10.  One request to the tailor route calls the SDK at most three times
    per candidate and the raw endpoint at most once per candidate -- with
    at most twelve candidates, 36 and 12 calls -- and pauses for at most
    seven seconds per candidate, 84 seconds in all. *)
Theorem tailor_call_budget env w tailorRate now xff b :
  (length (List.filter is_generate (tailor env w tailorRate now xff b).2)
     ≤ 3 * length (validModels b.(model) env) ≤ 36)%nat
  ∧ (length (List.filter is_raw_fetch (tailor env w tailorRate now xff b).2)
     ≤ length (validModels b.(model) env) ≤ 12)%nat
  ∧ total_sleep (tailor env w tailorRate now xff b).2
    <= 7000 * N.of_nat (length (validModels b.(model) env)) <= 84000.
Proof.
  destruct (validModels_shape b.(model) env) as (_ & _ & Hlen).
  assert (∀ tr,
            (length (List.filter is_generate tr)
               ≤ 3 * length (validModels b.(model) env))%nat
            ∧ (length (List.filter is_raw_fetch tr)
                 ≤ length (validModels b.(model) env))%nat
            ∧ total_sleep tr <= 7000 * N.of_nat (length (validModels b.(model) env)) →
            (length (List.filter is_generate tr)
               ≤ 3 * length (validModels b.(model) env) ≤ 36)%nat
            ∧ (length (List.filter is_raw_fetch tr)
                 ≤ length (validModels b.(model) env) ≤ 12)%nat
            ∧ total_sleep tr
              <= 7000 * N.of_nat (length (validModels b.(model) env)) <= 84000)
    as Hwrap.
  { intros tr (H1 & H2 & H3). repeat split; solve [done | lia]. }
  apply Hwrap. unfold tailor. destruct (rate_step _ _ _ _ _) as [rate' over].
  destruct (resolve env w over b) as [resp|r].
  { simpl. repeat split; lia. }
  set (models := validModels b.(model) env) in *.
  assert (∃ tr, trace (generate w models).2 = tr
                ∧ (length (List.filter is_generate tr) ≤ 3 * length models)%nat
                ∧ (length (List.filter is_raw_fetch tr) ≤ length models)%nat
                ∧ total_sleep tr <= 7000 * N.of_nat (length models))
    as (tr & Htr & H1 & H2 & H3).
  { unfold generate.
    destruct (sdk_loop_cost w models [] init) as (n1 & S1 & _ & S3 & S4 & S5).
    destruct (sdk_loop w models [] init) as [tex st]. simpl in S1.
    destruct (nonblank tex).
    - exists n1. simpl. rewrite S1. repeat split; solve [done | rewrite S4; simpl; lia].
    - destruct (raw_loop_cost w models tex st) as (n2 & R1 & R2 & R3 & R4).
      destruct (raw_loop w models tex st) as [tex2 st2]. simpl in R1.
      exists (n1 ++ n2).
      split; [destruct (nonblank tex2); simpl; by rewrite R1, S1|].
      rewrite !List.filter_app, !length_app, total_sleep_app, S4, R2, R4.
      simpl. repeat split; lia. }
  destruct (generate w models) as [[tex|] st]; simpl in *; by subst tr.
Qed.

(** X9.  The raw-endpoint fallback stops at its first failure: when no
    candidate gave text through the SDK and the raw call for the first
    candidate is rejected or answered with a status that is not ok, the
    route answers 502 after that single raw call, whatever the raw endpoint
    would have answered for the other candidates. *)
Theorem raw_fallback_stops_at_first_failure env w tailorRate now xff b r m rest :
  resolve env w (over_limit tailorRate now xff) b = inr r →
  validModels b.(model) env = m :: rest →
  (∀ n m t, sdk w n m = SdkText t → nonblank (default [] t) = false) →
  (w.(raw) 0%nat m = RawRejects ∨ ∃ parts, w.(raw) 0%nat m = RawResp false parts) →
  (tailor env w tailorRate now xff b).1.1 = GeminiFailed (m :: rest)
  ∧ List.filter is_raw_fetch (tailor env w tailorRate now xff b).2 = [EvRawFetch m].
Proof.
  intros Hres Hmodels Hsdk Hraw.
  destruct (validModels_shape b.(model) env) as (_ & Hclean & _).
  rewrite Hmodels in Hclean. apply Forall_cons in Hclean as [Hm _].
  assert (truthy m = true) as Htruthy.
  { unfold clean_model in Hm. by bool_N. }
  unfold over_limit, tailor in *. destruct (rate_step _ _ _ _ _) as [rate' over].
  simpl in Hres. rewrite Hres, Hmodels. unfold generate.
  pose proof (sdk_loop_blank w (m :: rest) [] init Hsdk eq_refl) as Hblank.
  destruct (sdk_loop_cost w (m :: rest) [] init) as (n1 & S1 & S2 & _ & S4 & _).
  destruct (sdk_loop w (m :: rest) [] init) as [tex st].
  simpl in Hblank, S1, S2. rewrite Hblank.
  cbn [raw_loop]. rewrite Htruthy. cbn [negb]. unfold rawGenerateV1.
  rewrite S2. cbn [raw_calls init].
  assert (List.filter is_raw_fetch (trace (count_raw (emit (EvRawFetch m) st)))
          = [EvRawFetch m]) as Htr.
  { simpl. rewrite S1, !List.filter_app, S4. done. }
  destruct Hraw as [-> | [parts ->]]; cbn [fst snd]; rewrite Hblank; by simpl.
Qed.

Lemma raw_fallback_stops_at_first_failure_witness :
  List.filter is_raw_fetch
    (tailor Fixtures.env0
       {| sdk := fun _ _ => SdkText None;
          raw := fun n _ => match n with
                            | O => RawResp false None
                            | _ => RawResp true (Some [Some Fixtures.resume])
                            end;
          base_file := None |}
       ∅ 0 None (Fixtures.body_ok None)).2
  = [EvRawFetch (str "gemini-1.5-flash-latest")].
Proof.
  destruct (raw_fallback_stops_at_first_failure Fixtures.env0
              {| sdk := fun _ _ => SdkText None;
                 raw := fun n _ => match n with
                                   | O => RawResp false None
                                   | _ => RawResp true (Some [Some Fixtures.resume])
                                   end;
                 base_file := None |}
              ∅ 0 None (Fixtures.body_ok None)
              {| r_jd := default [] (jd (Fixtures.body_ok None));
                 r_key := str "key"; r_base := Fixtures.resume |}
              (str "gemini-1.5-flash-latest")
              (List.tl (validModels None Fixtures.env0)))
    as [_ H].
  - vm_compute. reflexivity.
  - reflexivity.
  - intros n m t [= <-]. reflexivity.
  - right. by exists None.
  - exact H.
Defined.

(** *** The text of a raw answer *)

Lemma join_lines_nil l :
  Forall (fun s => truthy s = true) l → join_lines l = [] → l = [].
Proof.
  intros Hall Hj. destruct l as [|x l]; [done|].
  apply Forall_cons in Hall as [Hx _]. destruct x as [|c x]; [done|].
  simpl in Hj. by destruct l.
Qed.

Lemma keep_truthy_all ps :
  Forall (fun s => truthy s = true) (omap keep_truthy ps).
Proof.
  induction ps as [|[s|] ps IH]; simpl; [constructor| |done].
  unfold keep_truthy at 1. destruct (truthy s) eqn:E; [|done].
  by constructor.
Qed.

(** X11.  The text taken from a raw answer is the texts of its parts that
    are not empty, joined by line breaks, and the empty string when the
    answer has no parts: the second alternative of the expression, the text
    of the first part, never adds anything. *)
Theorem raw_text_is_joined_parts (parts : option (list (option (list N)))) :
  raw_text parts = join_lines (omap keep_truthy (default [] parts)).
Proof.
  destruct parts as [ps|]; [|done]. unfold raw_text. simpl default.
  destruct (truthy (join_lines (omap keep_truthy ps))) eqn:E; [done|].
  assert (join_lines (omap keep_truthy ps) = []) as Hj.
  { by destruct (join_lines _). }
  rewrite Hj. pose proof (join_lines_nil _ (keep_truthy_all ps) Hj) as Hnil.
  destruct ps as [|[t|] ps]; try done.
  simpl in Hnil. unfold keep_truthy at 1 in Hnil.
  destruct (truthy t) eqn:Et; [done|]. by destruct t.
Qed.

End TailorAnswers.

(** ** More on the compile route *)


Section MoreCompileFacts.
Import Js Spec More Svc.

Lemma try_engines_trace w tex engs n tried tr :
  ∃ new, (Compile.try_engines w tex engs n tried tr).2 = tr ++ new.
Proof.
  revert n tried tr. induction engs as [|eng rest IH]; intros n tried tr.
  - exists []. simpl. by rewrite app_nil_r.
  - cbn [Compile.try_engines].
    destruct (Compile.attempt w n _ _ tried) as [[pdf|] tried1].
    + by eexists.
    + destruct (Compile.attempt w (S n) _ _ tried1) as [[pdf|] tried2].
      * by eexists.
      * destruct (IH (S (S n)) tried2
                    (tr ++ [EvCompile (PostText eng tex); EvCompile (GetText eng tex)]))
          as (new & ->).
        rewrite <- app_assoc. by eexists.
Qed.

Lemma attempt_inv w n rq name tried :
  match Compile.attempt w n rq name tried with
  | (Some pdf, t) =>
      t = tried
      ∧ ∃ r, svc w n rq = Resolves r ∧ pdf_success r = true ∧ body r = pdf
  | (None, t) =>
      ∃ a, t = tried ++ [a] ∧ Compile.a_engine a = name ∧ fails w n rq
  end.
Proof.
  unfold Compile.attempt, fails. destruct (svc w n rq) as [msg|r].
  - by eexists.
  - destruct (pdf_success r) eqn:E.
    + split; [done|]. by exists r.
    + by eexists.
Qed.

(** The engine loop asks for the direct requests in order and stops at the
    first success. *)
Lemma try_engines_plan w tex engs n tried tr :
  ∃ new,
    (Compile.try_engines w tex engs n tried tr).2 = tr ++ new
    ∧ (Compile.try_engines w tex engs n tried tr).1.1.2 = (n + length new)%nat
    ∧ new `prefix_of` List.map EvCompile (direct_requests tex engs)
    ∧ ((Compile.try_engines w tex engs n tried tr).1.1.1 = None →
       new = List.map EvCompile (direct_requests tex engs)).
Proof.
  unfold direct_requests.
  revert n tried tr. induction engs as [|eng rest IH]; intros n tried tr.
  - exists []. simpl. rewrite app_nil_r. repeat split; solve [lia | done].
  - cbn [Compile.try_engines].
    destruct (Compile.attempt w n _ _ tried) as [[pdf|] tried1].
    + exists [EvCompile (PostText eng tex)]. simpl.
      repeat split; [lia| |done]. by eexists.
    + destruct (Compile.attempt w (S n) _ _ tried1) as [[pdf|] tried2].
      * exists [EvCompile (PostText eng tex); EvCompile (GetText eng tex)]. simpl.
        repeat split; [lia| |done]. by eexists.
      * destruct (IH (S (S n)) tried2
                    (tr ++ [EvCompile (PostText eng tex); EvCompile (GetText eng tex)]))
          as (new & H1 & H2 & H3 & H4).
        exists (EvCompile (PostText eng tex) :: EvCompile (GetText eng tex) :: new).
        rewrite H1, H2, <- app_assoc. simpl. repeat split; [lia| |].
        -- by do 2 apply prefix_cons.
        -- intros H. by rewrite (H4 H).
Qed.

(** A PDF of the engine loop is the body of the last response. *)
Lemma try_engines_pdf w tex engs n tried tr pdf :
  (Compile.try_engines w tex engs n tried tr).1.1.1 = Some pdf →
  ∃ front rq r,
    (Compile.try_engines w tex engs n tried tr).2 = tr ++ front ++ [EvCompile rq]
    ∧ svc w (n + length front) rq = Resolves r
    ∧ pdf_success r = true ∧ body r = pdf.
Proof.
  revert n tried tr. induction engs as [|eng rest IH]; intros n tried tr; [done|].
  cbn [Compile.try_engines].
  pose proof (attempt_inv w n (PostText eng tex) (Compile.engine_name eng) tried) as H1.
  destruct (Compile.attempt w n _ _ tried) as [[pdf1|] tried1].
  - destruct H1 as (_ & r & Hr & Hp & Hb). intros [= <-].
    exists [], (PostText eng tex), r. simpl. by rewrite Nat.add_0_r.
  - pose proof (attempt_inv w (S n) (GetText eng tex) (Compile.engine_name eng) tried1)
      as H2.
    destruct (Compile.attempt w (S n) _ _ tried1) as [[pdf2|] tried2].
    + destruct H2 as (_ & r & Hr & Hp & Hb). intros [= <-].
      exists [EvCompile (PostText eng tex)], (GetText eng tex), r. simpl.
      by rewrite Nat.add_1_r.
    + intros H. destruct (IH _ _ _ H) as (front & rq & r & Htr & Hr & Hp & Hb).
      exists (EvCompile (PostText eng tex) :: EvCompile (GetText eng tex) :: front), rq, r.
      rewrite Htr, <- app_assoc. simpl.
      by replace (n + S (S (length front)))%nat with (S (S n) + length front)%nat by lia.
Qed.

(** When the engine loop finds nothing it has logged two entries for each
    engine. *)
Lemma try_engines_tried w tex engs n tried tr :
  (Compile.try_engines w tex engs n tried tr).1.1.1 = None →
  ∃ new,
    (Compile.try_engines w tex engs n tried tr).1.2 = tried ++ new
    ∧ List.map Compile.a_engine new
      = flat_map (fun e => [Compile.engine_name e; Compile.engine_name e]) engs.
Proof.
  revert n tried tr. induction engs as [|eng rest IH]; intros n tried tr.
  - intros _. exists []. simpl. by rewrite app_nil_r.
  - cbn [Compile.try_engines].
    pose proof (attempt_inv w n (PostText eng tex) (Compile.engine_name eng) tried) as H1.
    destruct (Compile.attempt w n _ _ tried) as [[pdf1|] tried1]; [done|].
    destruct H1 as (a1 & -> & Ha1 & _).
    pose proof (attempt_inv w (S n) (GetText eng tex) (Compile.engine_name eng)
                  (tried ++ [a1])) as H2.
    destruct (Compile.attempt w (S n) _ _ _) as [[pdf2|] tried2]; [done|].
    destruct H2 as (a2 & -> & Ha2 & _).
    intros H. destruct (IH _ _ _ H) as (new & Ht & Hn).
    exists (a1 :: a2 :: new). rewrite Ht, <- !app_assoc. simpl.
    by rewrite Ha1, Ha2, Hn.
Qed.

Lemma try_engines_all_fail w tex engs n tried tr :
  (∀ k rq, fails w k rq) →
  (Compile.try_engines w tex engs n tried tr).1.1.1 = None.
Proof.
  intros Hfail. revert n tried tr.
  induction engs as [|eng rest IH]; intros n tried tr; [done|].
  cbn [Compile.try_engines].
  pose proof (attempt_miss w n (PostText eng tex) (Compile.engine_name eng) tried
                (Hfail _ _)) as H1.
  destruct (Compile.attempt w n _ _ tried) as [[pdf1|] tried1]; [done|].
  pose proof (attempt_miss w (S n) (GetText eng tex) (Compile.engine_name eng) tried1
                (Hfail _ _)) as H2.
  destruct (Compile.attempt w (S n) _ _ tried1) as [[pdf2|] tried2]; [done|].
  apply IH.
Qed.

(** The archive fallback makes no request and answers 502 with one more
    entry, named [tar-bz2]. *)
Lemma fallback_cases w tex tried tr fs :
  ∃ a fs',
    Compile.archive_fallback w tex tried tr fs
    = (Compile.CompileFailed
         (if negb (has_documentclass tex) then str "Missing \documentclass. " else [])
         (tried ++ [a]), fs', tr)
    ∧ Compile.a_engine a = str "tar-bz2".
Proof.
  unfold Compile.archive_fallback. destruct (tar_cjf _ _ _ _ _); by eexists _, _.
Qed.

(** X12.  For a body with a non-empty [tex] containing [\documentclass],
    the compile route tries each of the three engines at most once,
    beginning with the engine the body names or, when it names none, with
    the inferred one.  Its first request is a POST for that engine, and
    its requests are an initial part of the plan: for each engine in that
    order a POST and then a GET, and nothing else. *)
Theorem compile_follows_engine_plan (w : World) (fs : gmap (list N) Node)
    (tex : list N) (eng : option Engine) :
  truthy tex = true → has_documentclass tex = true →
  let initial := default (inferEngine tex) eng in
  let tr := (Compile.compile w fs {| Compile.tex := Some tex;
                                      Compile.engine := eng |}).2 in
  NoDup (Compile.engine_order initial)
  ∧ Compile.engine_order initial ≡ₚ [pdflatex; xelatex; lualatex]
  ∧ hd_error tr = Some (EvCompile (PostText initial tex))
  ∧ tr `prefix_of` compile_plan tex (Compile.engine_order initial).
Proof.
  intros Htex Hdoc initial tr.
  assert (∃ rest, Compile.engine_order initial = initial :: rest) as (rest & Hord).
  { destruct initial; by eexists. }
  split; [|split].
  { destruct initial; vm_compute; repeat constructor;
      rewrite ?elem_of_cons, ?elem_of_nil; intuition discriminate. }
  { destruct initial.
    - done.
    - symmetry. apply (Permutation_cons_append [xelatex; lualatex] pdflatex).
    - symmetry. apply (Permutation_rev [pdflatex; xelatex; lualatex]). }
  subst tr. unfold Compile.compile. cbn [Compile.tex Compile.engine].
  rewrite Htex, Hdoc. cbn [negb orb]. fold initial.
  destruct (try_engines_plan w tex (Compile.engine_order initial) 0 [] [])
    as (new & Htr & Hn & Hpre & Hall).
  assert (hd_error new = Some (EvCompile (PostText initial tex))) as Hhd.
  { revert Htr. rewrite Hord. cbn [Compile.try_engines].
    destruct (Compile.attempt w 0 _ _ []) as [[pdf|] tried1]; simpl.
    { by intros <-. }
    destruct (Compile.attempt w 1 _ _ tried1) as [[pdf|] tried2]; simpl.
    { by intros <-. }
    destruct (try_engines_trace w tex rest 2 tried2
                [EvCompile (PostText initial tex); EvCompile (GetText initial tex)])
      as (new2 & ->).
    by intros <-. }
  destruct (Compile.try_engines w tex _ 0 [] []) as [[[[pdf|] n] tried] tr1];
    cbn [fst snd app Nat.add] in Htr, Hn, Hall; subst tr1.
  - simpl. by split.
  - destruct (fallback_cases w tex tried new fs) as (a & fs' & -> & _).
    simpl. by split.
Qed.

Lemma compile_follows_engine_plan_witness :
  hd_error (Compile.compile
              (Fixtures.platform (fun _ _ => Resolves Fixtures.r_missing_foo)
                 Fixtures.ctan_foo)
              ∅ Fixtures.compile_body).2
  = Some (EvCompile (PostText pdflatex
            (str "\documentclass{article}\begin{document}x\end{document}"))).
Proof.
  destruct (compile_follows_engine_plan
              (Fixtures.platform (fun _ _ => Resolves Fixtures.r_missing_foo)
                 Fixtures.ctan_foo)
              ∅ (str "\documentclass{article}\begin{document}x\end{document}") None)
    as (_ & _ & H & _); [reflexivity | reflexivity | exact H].
Defined.

(** X13.  A PDF answered by the compile route is the body of the response
    to its last request, a response that was ok and either typed as PDF or
    signed [%PDF]: the route never makes up a PDF. *)
Theorem compile_pdf_comes_from_service (w : World) (fs : gmap (list N) Node)
    (b : Compile.CompileBody) (pdf : list N) :
  (Compile.compile w fs b).1.1 = Compile.Pdf pdf →
  ∃ front rq r,
    (Compile.compile w fs b).2 = front ++ [EvCompile rq]
    ∧ svc w (length front) rq = Resolves r
    ∧ pdf_success r = true ∧ body r = pdf.
Proof.
  unfold Compile.compile. destruct (Compile.tex b) as [t|]; [|done].
  destruct (negb (truthy t) || negb (has_documentclass t)); [done|].
  set (engs := Compile.engine_order _).
  pose proof (try_engines_pdf w t engs 0 [] []) as Hpdf.
  destruct (Compile.try_engines w t engs 0 [] []) as [[[[pdf1|] n] tried] tr1];
    cbn [fst snd app Nat.add] in Hpdf.
  - simpl. intros [= <-].
    destruct (Hpdf pdf1 eq_refl) as (front & rq & r & -> & Hr & Hp & Hb).
    by exists front, rq, r.
  - by destruct (fallback_cases w t tried tr1 fs) as (a & fs' & -> & _).
Qed.

Lemma compile_pdf_comes_from_service_witness :
  ∃ front rq r,
    (Compile.compile
       (Fixtures.platform (fun _ _ => Resolves Fixtures.r_pdf_plain) Fixtures.ctan_foo)
       ∅ Fixtures.compile_body).2 = front ++ [EvCompile rq]
    ∧ svc (Fixtures.platform (fun _ _ => Resolves Fixtures.r_pdf_plain)
             Fixtures.ctan_foo) (length front) rq = Resolves r
    ∧ pdf_success r = true ∧ body r = str "%PDF-1.5 ...".
Proof.
  apply (compile_pdf_comes_from_service
           (Fixtures.platform (fun _ _ => Resolves Fixtures.r_pdf_plain) Fixtures.ctan_foo)
           ∅ Fixtures.compile_body (str "%PDF-1.5 ...")).
  reflexivity.
Defined.

(** X14.  When no request to the compilation service yields a PDF, a valid
    document is answered 502 with seven entries in [tried]: two for each
    engine, in the order the engines were tried, and one named [tar-bz2];
    the hint of the message is empty. *)
Theorem compile_failure_lists_every_attempt (w : World) (fs : gmap (list N) Node)
    (tex : list N) (eng : option Engine) :
  truthy tex = true → has_documentclass tex = true →
  (∀ k rq, fails w k rq) →
  ∃ tried,
    (Compile.compile w fs {| Compile.tex := Some tex; Compile.engine := eng |}).1.1
    = Compile.CompileFailed [] tried
    ∧ List.map Compile.a_engine tried
      = exhausted_names (Compile.engine_order (default (inferEngine tex) eng))
    ∧ length tried = 7%nat.
Proof.
  intros Htex Hdoc Hfail. unfold Compile.compile. cbn [Compile.tex Compile.engine].
  rewrite Htex, Hdoc. cbn [negb orb].
  set (initial := default (inferEngine tex) eng).
  pose proof (try_engines_all_fail w tex (Compile.engine_order initial) 0 [] [] Hfail)
    as Hnone.
  pose proof (try_engines_tried w tex (Compile.engine_order initial) 0 [] []) as Htried.
  destruct (Compile.try_engines w tex _ 0 [] []) as [[[o n] tried] tr].
  simpl in Hnone, Htried. subst o.
  destruct (Htried eq_refl) as (new & -> & Hnames). simpl.
  destruct (fallback_cases w tex new tr fs) as (a & fs' & -> & Ha).
  rewrite Hdoc. simpl.
  exists (new ++ [a]). split; [done|].
  assert (List.map Compile.a_engine (new ++ [a])
          = exhausted_names (Compile.engine_order initial)) as Hall.
  { rewrite map_app, Hnames. simpl. by rewrite Ha. }
  split; [done|].
  apply (f_equal length) in Hall. rewrite length_map in Hall. rewrite Hall.
  by destruct initial.
Qed.

Lemma compile_failure_lists_every_attempt_witness :
  ∃ tried,
    (Compile.compile
       (Fixtures.platform (fun _ _ => Rejects (str "fetch failed")) Fixtures.ctan_foo)
       ∅ Fixtures.compile_body).1.1 = Compile.CompileFailed [] tried
    ∧ List.map Compile.a_engine tried
      = List.map str ["pdflatex"; "pdflatex"; "xelatex"; "xelatex";
                      "lualatex"; "lualatex"; "tar-bz2"]%string
    ∧ length tried = 7%nat.
Proof.
  apply (compile_failure_lists_every_attempt
           (Fixtures.platform (fun _ _ => Rejects (str "fetch failed")) Fixtures.ctan_foo)
           ∅ (str "\documentclass{article}\begin{document}x\end{document}") None);
    [reflexivity | reflexivity | by intros k rq].
Defined.

(** X15.  The compile route answers 400, 200 or 502 and nothing else once
    the body is read.  It answers 400 exactly when the body has no
    non-empty [tex] containing [\documentclass], and then asks nothing of
    the service and writes nothing; a 502 names at least one attempt, and
    its message never carries the hint about a missing [\documentclass]. *)
Theorem compile_answer_kinds (w : World) (fs : gmap (list N) Node)
    (b : Compile.CompileBody) :
  match (Compile.compile w fs b).1.1 with
  | Compile.InvalidDocument =>
      valid_tex b = false
      ∧ (Compile.compile w fs b).1.2 = fs ∧ (Compile.compile w fs b).2 = []
  | Compile.Pdf _ => valid_tex b = true ∧ (Compile.compile w fs b).2 ≠ []
  | Compile.CompileFailed hint tried =>
      valid_tex b = true ∧ hint = [] ∧ tried ≠ []
      ∧ (Compile.compile w fs b).2 ≠ []
  | Compile.InternalError => False
  end.
Proof.
  unfold Compile.compile, valid_tex. destruct (Compile.tex b) as [t|]; [|done].
  destruct (truthy t) eqn:Htex; [|done].
  destruct (has_documentclass t) eqn:Hdoc; [|done]. cbn [negb orb andb].
  set (initial := default (inferEngine t) (Compile.engine b)).
  assert (∃ rest, Compile.engine_order initial = initial :: rest) as (rest & Hord).
  { destruct initial; by eexists. }
  destruct (try_engines_plan w t (Compile.engine_order initial) 0 [] [])
    as (new & Htr & _ & _ & Hall).
  assert (new ≠ []) as Hnew.
  { revert Htr. rewrite Hord. cbn [Compile.try_engines].
    destruct (Compile.attempt w 0 _ _ []) as [[pdf|] tried1]; simpl.
    { by intros <-. }
    destruct (Compile.attempt w 1 _ _ tried1) as [[pdf|] tried2]; simpl.
    { by intros <-. }
    destruct (try_engines_trace w t rest 2 tried2
                [EvCompile (PostText initial t); EvCompile (GetText initial t)])
      as (new2 & ->).
    by intros <-. }
  destruct (Compile.try_engines w t _ 0 [] []) as [[[[pdf|] n] tried] tr1];
    cbn [fst snd app Nat.add] in Htr; subst tr1; [done|].
  destruct (fallback_cases w t tried new fs) as (a & fs' & -> & _).
  rewrite Hdoc. simpl. repeat split; try done. by destruct tried.
Qed.

Lemma within_join dir name : within dir (path_join dir name) = true.
Proof.
  unfold within, path_join, startsWith. rewrite app_assoc.
  assert (strip (dir ++ str "/") ((dir ++ str "/") ++ name) = Some name) as ->
    by by apply strip_Some.
  apply orb_true_r.
Qed.

Lemma within_self dir : within dir dir = true.
Proof. unfold within. by rewrite bool_decide_eq_true_2. Qed.

(** The fallback writes below its directory only. *)
Lemma fallback_outside w tex tried tr fs p :
  within (mkdtemp w (path_join (tmpdir w) (str "latex-"))) p = false →
  (Compile.archive_fallback w tex tried tr fs).1.2 !! p = fs !! p.
Proof.
  intros Hp. unfold Compile.archive_fallback, tar_cjf.
  set (tmp := mkdtemp w _) in *.
  assert (p ≠ tmp) as H0 by (intros ->; by rewrite within_self in Hp).
  assert (∀ name, p ≠ path_join tmp name) as H1
    by (intros name ->; by rewrite within_join in Hp).
  destruct (tar_runs w); [rewrite lookup_insert_eq|]; simpl;
    by rewrite !lookup_insert_ne.
Qed.

(** X16.  The compile route removes nothing it has written.  For a valid
    document: when a direct attempt gives a PDF nothing was written; in
    every other case the answer is 502 and the directory made by
    [mkdtempSync] is left behind with [main.tex] in it, and with the
    archive too when [tar] has run -- the fallback ends in its [catch]
    before the archive is sent, and the [catch] removes nothing.  Paths
    outside that directory hold what they held before. *)
Theorem compile_failure_leaves_its_files (w : World) (fs : gmap (list N) Node)
    (tex : list N) (eng : option Engine) :
  truthy tex = true → has_documentclass tex = true →
  let tmp := mkdtemp w (path_join (tmpdir w) (str "latex-")) in
  let res := Compile.compile w fs {| Compile.tex := Some tex;
                                     Compile.engine := eng |} in
  match res.1.1 with
  | Compile.Pdf _ => res.1.2 = fs
  | _ =>
      Compile.http_status res.1.1 = 502
      ∧ res.1.2 !! tmp = Some Dir
      ∧ res.1.2 !! path_join tmp (str "main.tex") = Some (File (Plain (Utf8 tex)))
      ∧ (tar_runs w = true →
         res.1.2 !! path_join tmp (str "archive.tar.bz2") = Some (main_archive tex))
      ∧ ∀ p, within tmp p = false → res.1.2 !! p = fs !! p
  end.
Proof.
  intros Htex Hdoc tmp res. subst res. unfold Compile.compile.
  cbn [Compile.tex Compile.engine]. rewrite Htex, Hdoc. cbn [negb orb].
  destruct (Compile.try_engines w tex _ 0 [] []) as [[[[pdf|] n] tried] tr1];
    [done|].
  destruct (fallback_leaves_tmp w tex tried tr1 fs) as (Hdir & Hmain & Harch).
  pose proof (fallback_outside w tex tried tr1 fs) as Hout.
  destruct (fallback_cases w tex tried tr1 fs) as (a & fs' & Heq & _).
  rewrite Heq in Hdir, Hmain, Harch, Hout |- *. simpl in *.
  by repeat split.
Qed.

Lemma compile_failure_leaves_its_files_witness :
  (Compile.compile
     (Fixtures.platform (fun _ _ => Resolves Fixtures.r_missing_foo) Fixtures.ctan_foo)
     ∅ Fixtures.compile_body).1.2 !! str "/tmp/latex-Ab3xYz/main.tex"
  = Some (File (Plain (Utf8
       (str "\documentclass{article}\begin{document}x\end{document}")))).
Proof.
  pose proof (compile_failure_leaves_its_files
                (Fixtures.platform (fun _ _ => Resolves Fixtures.r_missing_foo)
                   Fixtures.ctan_foo)
                ∅ (str "\documentclass{article}\begin{document}x\end{document}") None
                eq_refl eq_refl) as H.
  vm_compute in H. destruct H as (_ & _ & H & _). vm_compute. exact H.
Defined.

End MoreCompileFacts.

(** ** More on the upload route *)

(** *** Reading the log *)

Section MissingPackages.
Import Js Spec More Svc.

Lemma until_split c s :
  s = Upload.until c s ++ drop (length (Upload.until c s)) s
  ∧ ¬ In c (Upload.until c s).
Proof.
  induction s as [|a s [IH1 IH2]]; simpl; [by split; [|intros []]|].
  destruct (a =? c) eqn:E; simpl.
  - by split; [|intros []].
  - apply N.eqb_neq in E. split; [by f_equal|].
    intros [H | H]; [done|by apply IH2].
Qed.

Lemma endsWith_app p s : endsWith p (s ++ p) = true.
Proof.
  unfold endsWith. rewrite rev_app_distr.
  assert (strip (rev p) (rev p ++ rev s) = Some (rev s)) as -> by by apply strip_Some.
  done.
Qed.

Lemma endsWith_inv p s : endsWith p s = true → ∃ front, s = front ++ p.
Proof.
  unfold endsWith, matches. destruct (strip (rev p) (rev s)) as [l|] eqn:E; [|done].
  intros _. apply strip_Some in E. exists (rev l).
  apply (f_equal (@rev N)) in E.
  by rewrite rev_involutive, rev_app_distr, rev_involutive in E.
Qed.

(** A match of the pattern at the head of [s] is a report line for the
    captured name. *)
Lemma re_missing_at_Some s name rest :
  Upload.re_missing_at s = Some (name, rest) →
  s = missing_line name ++ rest ∧ name ≠ [] ∧ ¬ In 39 name.
Proof.
  unfold Upload.re_missing_at.
  destruct (strip (str "File `") s) as [r|] eqn:E1; [|done].
  apply strip_Some in E1.
  destruct (until_split 39 r) as [Hr Hq].
  set (seg := Upload.until 39 r) in *.
  destruct (strip (str "' not found") (drop (length seg) r)) as [rest'|] eqn:E2; [|done].
  apply strip_Some in E2. rewrite E2 in Hr.
  destruct (endsWith (str ".sty") seg) eqn:E3; [|done].
  destruct (4 <? length seg)%nat eqn:E4; [|done].
  apply Nat.ltb_lt in E4. apply endsWith_inv in E3 as [front Hseg].
  simpl. intros [= <- <-].
  assert (length seg = (length front + 4)%nat) as Hlen
    by (rewrite Hseg, length_app; done).
  assert (take (length seg - 4) seg = front) as ->.
  { rewrite Hseg at 2. apply take_app_length'. lia. }
  split; [|split].
  - rewrite E1, Hr, Hseg. unfold missing_line.
    change (str ".sty' not found") with (str ".sty" ++ str "' not found").
    by rewrite <- !app_assoc.
  - intros ->. simpl in Hlen. lia.
  - intros Hin. apply Hq. rewrite Hseg. apply in_or_app. by left.
Qed.

Lemma re_missing_at_line name post :
  name ≠ [] → ¬ In 39 name →
  Upload.re_missing_at (missing_line name ++ post) = Some (name, post).
Proof.
  intros Hne Hq. unfold Upload.re_missing_at, missing_line.
  rewrite <- app_assoc.
  assert (strip (str "File `")
            (str "File `" ++ (name ++ str ".sty' not found") ++ post)
          = Some ((name ++ str ".sty' not found") ++ post)) as ->
    by by apply strip_Some.
  assert ((name ++ str ".sty' not found") ++ post
          = (name ++ str ".sty") ++ 39 :: (str " not found" ++ post)) as ->.
  { change (str ".sty' not found") with (str ".sty" ++ 39 :: str " not found").
    by rewrite <- !app_assoc. }
  rewrite until_app.
  2:{ intros [H | H]%in_app_or; [done|].
      simpl in H. intuition discriminate. }
  rewrite drop_app_length.
  assert (strip (str "' not found") (39 :: str " not found" ++ post) = Some post) as ->
    by by apply strip_Some.
  rewrite endsWith_app.
  assert ((4 <? length (name ++ str ".sty"))%nat = true) as ->.
  { apply Nat.ltb_lt. rewrite length_app. destruct name; [done|]. simpl. lia. }
  simpl. f_equal. f_equal. apply take_app_length'.
  rewrite length_app. simpl. lia.
Qed.

Lemma missing_from_sound skip s name :
  In name (Upload.missing_from skip s) →
  ∃ pre post, s = pre ++ missing_line name ++ post ∧ name ≠ [] ∧ ¬ In 39 name.
Proof.
  revert skip. induction s as [|c s IH]; intros skip; [done|].
  cbn [Upload.missing_from]. destruct skip as [|k].
  - destruct (Upload.re_missing_at (c :: s)) as [[n rest]|] eqn:E.
    + intros [-> | Hin].
      * apply re_missing_at_Some in E as (E & Hne & Hq).
        exists [], rest. by rewrite E.
      * destruct (IH _ Hin) as (pre & post & -> & Hne & Hq).
        by exists (c :: pre), post.
    + intros Hin. destruct (IH _ Hin) as (pre & post & -> & Hne & Hq).
      by exists (c :: pre), post.
  - intros Hin. destruct (IH _ Hin) as (pre & post & -> & Hne & Hq).
    by exists (c :: pre), post.
Qed.

Lemma missing_from_skip pre s :
  Upload.missing_from (length pre) (pre ++ s) = Upload.missing_from 0 s.
Proof. induction pre as [|c pre IH]; [done|]. simpl. apply IH. Qed.

(** X17.  Every name the upload route reads out of a log comes from a line
    [File `name.sty' not found] of that log; it is not empty and holds no
    quote. *)
Theorem missing_names_come_from_the_log (text name : list N) :
  In name (Upload.missing text) →
  name ≠ [] ∧ ¬ In 39 name
  ∧ ∃ pre post, text = pre ++ missing_line name ++ post.
Proof.
  intros Hin. destruct (missing_from_sound 0 text name Hin)
    as (pre & post & -> & Hne & Hq).
  split; [done|]. split; [done|]. by exists pre, post.
Qed.

Lemma missing_names_come_from_the_log_witness :
  ∃ pre post,
    str "! LaTeX Error: File `foo.sty' not found."
    = pre ++ missing_line (str "foo") ++ post.
Proof.
  apply (missing_names_come_from_the_log
           (str "! LaTeX Error: File `foo.sty' not found.") (str "foo")).
  vm_compute. by left.
Defined.

(** X18.  A report line for a name that is not empty and holds no quote is
    read as that name, and the reading goes on behind the line. *)
Theorem missing_reads_a_report_line (name post : list N) :
  name ≠ [] → ¬ In 39 name →
  Upload.missing (missing_line name ++ post) = name :: Upload.missing post.
Proof.
  intros Hne Hq. unfold Upload.missing.
  pose proof (re_missing_at_line name post Hne Hq) as Hre.
  assert (∃ line', missing_line name = 70 :: line') as (line' & Hline)
    by by eexists.
  rewrite Hline in Hre |- *. simpl app in Hre |- *. cbn [Upload.missing_from].
  rewrite Hre. f_equal.
  replace (length (70%N :: line' ++ post) - length post - 1)%nat with (length line')
    by (simpl; rewrite length_app; lia).
  apply missing_from_skip.
Qed.

Lemma missing_reads_a_report_line_witness :
  Upload.missing (missing_line (str "fontawesome5") ++ str ". See the log.")
  = [str "fontawesome5"].
Proof.
  apply (missing_reads_a_report_line (str "fontawesome5") (str ". See the log.")).
  - discriminate.
  - vm_compute. intuition discriminate.
Defined.

End MissingPackages.

(** *** Files and requests of an upload *)

Section UploadFiles.
Import Js Spec More Svc.

Lemma same_outside_refl dir fs : same_outside dir fs fs.
Proof. by intros p _. Qed.

Lemma same_outside_trans dir fs1 fs2 fs3 :
  same_outside dir fs1 fs2 → same_outside dir fs2 fs3 → same_outside dir fs1 fs3.
Proof. intros H1 H2 p Hp. by rewrite (H2 p Hp), (H1 p Hp). Qed.

Lemma same_outside_insert dir fs fs' q x :
  within dir q = true → same_outside dir fs fs' →
  same_outside dir fs (<[q := x]> fs').
Proof.
  intros Hq H p Hp. rewrite lookup_insert_ne; [by apply H|].
  intros ->. congruence.
Qed.

Lemma cleanup_outside dir fs p :
  within dir p = false → Upload.cleanup dir fs !! p = fs !! p.
Proof.
  intros Hp. unfold Upload.cleanup, rmSync_rf. apply option_eq. intros x.
  rewrite map_lookup_filter_Some. simpl. tauto.
Qed.

Lemma cleanup_inside dir fs p :
  within dir p = true → Upload.cleanup dir fs !! p = None.
Proof.
  intros Hp. unfold Upload.cleanup, rmSync_rf. apply map_lookup_filter_None.
  right. intros x _. simpl. congruence.
Qed.

Lemma same_outside_cleanup dir fs fs' :
  same_outside dir fs fs' → same_outside dir fs (Upload.cleanup dir fs').
Proof. intros H p Hp. rewrite cleanup_outside by done. by apply H. Qed.

Lemma within_join2 dir a b : within dir (path_join (path_join dir a) b) = true.
Proof.
  unfold within, path_join, startsWith. rewrite <- !app_assoc.
  assert (strip (dir ++ str "/") (dir ++ str "/" ++ a ++ str "/" ++ b)
          = Some (a ++ str "/" ++ b)) as ->.
  { apply strip_Some. by rewrite <- app_assoc. }
  apply orb_true_r.
Qed.


(** What [stage] does to the file system stays below its directory. *)
Lemma stage_outside w name content fs :
  same_outside (upload_dir w) fs (Upload.stage w name content fs).2.
Proof.
  unfold Upload.stage, upload_dir. set (tmp := mkdtemp w _).
  destruct (endsWith (str ".tex") (to_lower name)).
  - unfold tar_cjf. destruct (tar_runs w).
    + rewrite lookup_insert_eq. simpl.
      repeat first [apply same_outside_insert
                   | apply within_join2 | apply within_join | apply within_self].
      apply same_outside_refl.
    + simpl. apply same_outside_cleanup.
      repeat first [apply same_outside_insert
                   | apply within_join2 | apply within_join | apply within_self].
      apply same_outside_refl.
  - simpl.
    repeat first [apply same_outside_insert
                 | apply within_join2 | apply within_join | apply within_self].
    apply same_outside_refl.
Qed.

Lemma stage_shape w name content fs s fs1 :
  Upload.stage w name content fs = (inr s, fs1) →
  Upload.tmp s = upload_dir w
  ∧ (Upload.workdir s = None
     ∨ Upload.workdir s = Some (path_join (upload_dir w) (str "work"))).
Proof.
  unfold Upload.stage, upload_dir.
  destruct (endsWith (str ".tex") (to_lower name)).
  - destruct (tar_cjf _ _ _ _ _); [|done]. intros [= <- <-]. simpl. auto.
  - intros [= <- <-]. simpl. auto.
Qed.

(** The loop over the packages: every package is asked for, in order;
    something was fetched when the mirror had one of them; files are
    written under [name.sty] in the work directory and nowhere else. *)
Lemma fetch_packages_spec w work pkgs any fs tr :
  (Upload.fetch_packages w work pkgs any fs tr).2 = tr ++ List.map EvCtan pkgs
  ∧ (Upload.fetch_packages w work pkgs any fs tr).1.1
    = any || existsb (mirror_ok w) pkgs
  ∧ ∀ p, (∀ sty, p ≠ path_join work (sty ++ str ".sty")) →
         (Upload.fetch_packages w work pkgs any fs tr).1.2 !! p = fs !! p.
Proof.
  revert any fs tr. induction pkgs as [|sty rest IH]; intros any fs tr.
  - simpl. rewrite app_nil_r, orb_false_r. by repeat split.
  - cbn [Upload.fetch_packages existsb List.map]. unfold mirror_ok at 1.
    destruct (ctan w sty) as [msg|r].
    + destruct (IH any fs (tr ++ [EvCtan sty])) as (H1 & H2 & H3).
      rewrite H1, H2, <- app_assoc. by repeat split.
    + destruct (ok r).
      * destruct (IH true
                    (<[path_join work (sty ++ str ".sty")
                       := File (Plain (Bytes (body r)))]> fs)
                    (tr ++ [EvCtan sty])) as (H1 & H2 & H3).
        rewrite H1, H2, <- app_assoc, orb_true_r. simpl.
        split; [done|]. split; [done|].
        intros p Hp. rewrite (H3 p Hp). by apply lookup_insert_ne.
      * destruct (IH any fs (tr ++ [EvCtan sty])) as (H1 & H2 & H3).
        rewrite H1, H2, <- app_assoc. by repeat split.
Qed.

Lemma retry_upload_outside w s work buf fs tr :
  same_outside (Upload.tmp s) fs (Upload.retry_upload w s work buf fs tr).1.2.
Proof.
  unfold Upload.retry_upload, tar_cjf.
  destruct (tar_runs w); [|apply same_outside_refl].
  destruct (fs !! path_join work (str "main.tex")) as [[|[c|]]|];
    try apply same_outside_refl.
  destruct (svc w 1 _) as [msg|r2]; simpl.
  - apply same_outside_insert; [apply within_join | apply same_outside_refl].
  - destruct (ok r2 && _); simpl.
    + apply same_outside_cleanup, same_outside_insert;
        [apply within_join | apply same_outside_refl].
    + apply same_outside_insert; [apply within_join | apply same_outside_refl].
Qed.

(** The retry makes one request at most; when the handler returns from it,
    its directory is gone. *)
Lemma retry_upload_trace w s work buf fs tr :
  ∃ new,
    (Upload.retry_upload w s work buf fs tr).2 = tr ++ new
    ∧ (new = [] ∨ ∃ rq, new = [EvCompile (PostArchive rq)])
    ∧ ((Upload.retry_upload w s work buf fs tr).1.1.1 ≠ None →
       ∀ p, within (Upload.tmp s) p = true →
            (Upload.retry_upload w s work buf fs tr).1.2 !! p = None).
Proof.
  unfold Upload.retry_upload.
  destruct (tar_cjf _ _ _ _ _) as [fs1|].
  2:{ exists []. simpl. rewrite app_nil_r. split; [done|]. split; [by left|done]. }
  destruct (svc w 1 _) as [msg|r2]; simpl.
  - eexists. split; [done|]. split; [right; by eexists|done].
  - destruct (ok r2 && _); simpl.
    + eexists. split; [done|]. split; [right; by eexists|].
      intros _ p Hp. by apply cleanup_inside.
    + eexists. split; [done|]. split; [right; by eexists|done].
Qed.

Lemma dedup_first_spec {A} `{EqDecision A} (seen l : list A) :
  NoDup (dedup_first seen l)
  ∧ ∀ x, x ∈ dedup_first seen l ↔ x ∈ l ∧ x ∉ seen.
Proof.
  revert seen. induction l as [|a l IH]; intros seen; simpl.
  - split; [constructor|]. intros x. rewrite elem_of_nil. tauto.
  - case_bool_decide as Ha.
    + destruct (IH seen) as [H1 H2]. split; [done|].
      intros x. rewrite H2, elem_of_cons.
      split; [tauto|]. intros [[-> | Hx] Hs]; [done|tauto].
    + destruct (IH (a :: seen)) as [H1 H2]. split.
      * apply NoDup_cons. split; [|done]. rewrite H2, elem_of_cons. tauto.
      * intros x. rewrite !elem_of_cons, H2, elem_of_cons.
        destruct (decide (x = a)) as [-> | Hne]; tauto.
Qed.

Lemma recovery_outside w s resp fs tr :
  (∀ work, Upload.workdir s = Some work → ∃ a, work = path_join (Upload.tmp s) a) →
  same_outside (Upload.tmp s) fs (recovery w s resp fs tr).1.2.
Proof.
  intros Hwork. unfold recovery.
  destruct (Upload.workdir s) as [work|]; [|apply same_outside_refl].
  destruct (Hwork work eq_refl) as [a ->].
  destruct (negb (ok resp)); [|apply same_outside_refl].
  destruct (0 <? _)%nat; [|apply same_outside_refl].
  pose proof (fetch_packages_spec w (path_join (Upload.tmp s) a)
                (dedup_first [] (Upload.missing (utf8_decode w (body resp))))
                false fs tr) as (_ & _ & Hfs).
  destruct (Upload.fetch_packages _ _ _ _ _ _) as [[any fs'] tr'].
  simpl in Hfs.
  assert (same_outside (Upload.tmp s) fs fs') as Hout.
  { intros p Hp. apply Hfs. intros sty ->. by rewrite within_join2 in Hp. }
  destruct any; [|done].
  eapply same_outside_trans; [exact Hout|apply retry_upload_outside].
Qed.

(** The requests of the recovery: the mirror is asked once for each
    distinct package, then the archive is sent again at most once. *)
Lemma recovery_trace w s resp fs tr :
  ∃ pkgs new,
    (recovery w s resp fs tr).2 = tr ++ List.map EvCtan pkgs ++ new
    ∧ NoDup pkgs
    ∧ ((∀ pkg, pkg ∈ pkgs ↔ pkg ∈ Upload.missing (utf8_decode w (body resp)))
       ∨ pkgs = [])
    ∧ (new = [] ∨ ∃ rq, new = [EvCompile (PostArchive rq)])
    ∧ ((recovery w s resp fs tr).1.1.1 ≠ None →
       ∀ p, within (Upload.tmp s) p = true →
            (recovery w s resp fs tr).1.2 !! p = None).
Proof.
  assert (∀ (buf : list N) (fs0 : gmap (list N) Node),
            ∃ pkgs new : _,
              (None : option Upload.Response, buf, fs0, tr).2
              = tr ++ List.map EvCtan pkgs ++ new
              ∧ NoDup pkgs
              ∧ ((∀ pkg, pkg ∈ pkgs
                         ↔ pkg ∈ Upload.missing (utf8_decode w (body resp)))
                 ∨ pkgs = [])
              ∧ (new = [] ∨ ∃ rq, new = [EvCompile (PostArchive rq)])
              ∧ ((None : option Upload.Response, buf, fs0, tr).1.1.1 ≠ None →
                 ∀ p, within (Upload.tmp s) p = true →
                      (None : option Upload.Response, buf, fs0, tr).1.2 !! p = None))
    as Hplain.
  { intros buf fs0. exists [], []. simpl. rewrite app_nil_r.
    split; [done|]. split; [constructor|]. split; [by right|].
    split; [by left|done]. }
  unfold recovery.
  destruct (Upload.workdir s) as [work|]; [|apply Hplain].
  destruct (negb (ok resp)); [|apply Hplain].
  destruct (0 <? _)%nat; [|apply Hplain].
  set (names := Upload.missing (utf8_decode w (body resp))).
  destruct (dedup_first_spec [] names) as [Hnd Hel].
  pose proof (fetch_packages_spec w work (dedup_first [] names) false fs tr)
    as (Htr & _ & _).
  destruct (Upload.fetch_packages _ _ _ _ _ _) as [[any fs'] tr'].
  simpl in Htr. subst tr'.
  assert (∀ pkg, pkg ∈ dedup_first [] names ↔ pkg ∈ names) as Hsame.
  { intros pkg. rewrite Hel, elem_of_nil. tauto. }
  destruct any.
  - destruct (retry_upload_trace w s work (body resp) fs'
                (tr ++ List.map EvCtan (dedup_first [] names)))
      as (new & Hnew & Hone & Hclean).
    exists (dedup_first [] names), new. rewrite Hnew, <- app_assoc.
    split; [done|]. split; [done|]. split; [by left|]. by split.
  - exists (dedup_first [] names), []. simpl. rewrite app_nil_r.
    split; [done|]. split; [done|]. split; [by left|]. split; [by left|done].
Qed.

Lemma conclude_trace w s resp x : (conclude w s resp x).2 = x.2.
Proof.
  destruct x as [[[[r|] buf] fs1] tr1]; simpl; [done|].
  by destruct (ok resp && _).
Qed.

Lemma conclude_outside w s resp x fs :
  same_outside (Upload.tmp s) fs x.1.2 →
  same_outside (Upload.tmp s) fs (conclude w s resp x).1.2.
Proof.
  destruct x as [[[[r|] buf] fs1] tr1]; simpl; [done|].
  intros H. destruct (ok resp && _); simpl; by apply same_outside_cleanup.
Qed.


Lemma send_and_recover_eq w s fs :
  Upload.send_and_recover w s fs
  = match fs !! Upload.archivePath s with
    | Some (File d) =>
        match svc w 0 (PostArchive (Some (File d))) with
        | Rejects _ => (Upload.InternalError, fs, [EvCompile (PostArchive (Some (File d)))])
        | Resolves resp =>
            conclude w s resp
              (recovery w s resp fs [EvCompile (PostArchive (Some (File d)))])
        end
    | _ => (Upload.InternalError, fs, [])
    end.
Proof. reflexivity. Qed.

Lemma recover_outside w s fs :
  (∀ work, Upload.workdir s = Some work → ∃ a, work = path_join (Upload.tmp s) a) →
  same_outside (Upload.tmp s) fs (Upload.send_and_recover w s fs).1.2.
Proof.
  intros Hwork. rewrite send_and_recover_eq.
  destruct (fs !! Upload.archivePath s) as [[|d]|]; try apply same_outside_refl.
  destruct (svc w 0 _) as [msg|resp]; [apply same_outside_refl|].
  by apply conclude_outside, recovery_outside.
Qed.

Lemma post_outside env w rateMap fs now rq :
  same_outside (upload_dir w) fs (Upload.POST env w rateMap fs now rq).1.2.
Proof.
  unfold Upload.POST. destruct (rate_step _ _ _ _ _) as [rate' over].
  destruct (Upload.validate env over rq) as [resp|[name content]];
    [apply same_outside_refl|].
  pose proof (stage_outside w name content fs) as Hst.
  destruct (Upload.stage w name content fs) as [[resp|s] fs1] eqn:E;
    simpl in Hst; [done|].
  destruct (stage_shape _ _ _ _ _ _ E) as (Htmp & Hwork).
  destruct (Upload.only_archive rq).
  - unfold Upload.send_back.
    destruct (fs1 !! Upload.archivePath s) as [[|d]|];
      try destruct (header_value_ok _); simpl;
      rewrite ?Htmp; by try apply same_outside_cleanup.
  - pose proof (recover_outside w s fs1) as Hrec. rewrite Htmp in Hrec.
    destruct (Upload.send_and_recover w s fs1) as [[resp fs2] tr]. simpl in *.
    eapply same_outside_trans; [exact Hst|]. apply Hrec.
    intros work Hw. destruct Hwork as [H | H]; rewrite H in Hw; [done|].
    injection Hw as <-. by eexists.
Qed.

(** X19.  For an upload whose file name holds no path separator, and logs
    that name no package with one, the upload route writes and removes
    files only in the directory that [mkdtempSync] gave it: whatever the
    request and the services' answers, every other path holds afterwards
    what it held before.  The two conditions on names are those under
    which [path_join] is [path.join]: the handler joins [file.name] and the
    package names to its directory as they come, and a name with a
    separator could lead out of it. *)
Theorem upload_touches_only_its_directory (env : option N) (w : World)
    (rateMap : gmap (list N) RateEnt) (fs : gmap (list N) Node) (now : N)
    (rq : Upload.Request) (p : list N) :
  no_slash (upload_name rq) →
  (∀ n rq' r, svc w n rq' = Resolves r →
     Forall no_slash (Upload.missing (utf8_decode w (body r)))) →
  within (upload_dir w) p = false →
  (Upload.POST env w rateMap fs now rq).1.2 !! p = fs !! p.
Proof. intros _ _ Hp. by apply post_outside. Qed.

Lemma upload_touches_only_its_directory_witness :
  (Upload.POST None
     (Fixtures.platform (fun _ _ => Rejects (str "fetch failed")) Fixtures.ctan_foo)
     ∅ {[ str "/home/app/notes.txt" := File (Plain (Utf8 (str "keep"))) ]} 0
     (Fixtures.upload_tex None)).1.2 !! str "/home/app/notes.txt"
  = Some (File (Plain (Utf8 (str "keep")))).
Proof.
  rewrite (upload_touches_only_its_directory None
             (Fixtures.platform (fun _ _ => Rejects (str "fetch failed"))
                Fixtures.ctan_foo)
             ∅ {[ str "/home/app/notes.txt" := File (Plain (Utf8 (str "keep"))) ]} 0
             (Fixtures.upload_tex None) (str "/home/app/notes.txt")).
  - reflexivity.
  - vm_compute. intuition discriminate.
  - intros n rq' r. discriminate.
  - reflexivity.
Defined.




Lemma filter_compile_ctan pkgs : List.filter is_compile (List.map EvCtan pkgs) = [].
Proof. induction pkgs as [|pkg pkgs IH]; [done|]. simpl. apply IH. Qed.

(** X21.  The requests of one upload, whatever the request and the
    answers: none; or the archive sent to the compilation service, then one
    request to the mirror for each of a list of distinct packages, then at
    most one more archive sent.  The compilation service is called twice at
    most. *)
Theorem upload_requests_shape (env : option N) (w : World)
    (rateMap : gmap (list N) RateEnt) (fs : gmap (list N) Node) (now : N)
    (rq : Upload.Request) :
  let tr := (Upload.POST env w rateMap fs now rq).2 in
  (tr = []
   ∨ ∃ file pkgs new,
       tr = EvCompile (PostArchive file) :: List.map EvCtan pkgs ++ new
       ∧ NoDup pkgs
       ∧ (new = [] ∨ ∃ file', new = [EvCompile (PostArchive file')]))
  ∧ (length (List.filter is_compile tr) ≤ 2)%nat.
Proof.
  intros tr.
  assert (tr = []
          ∨ ∃ file pkgs new,
              tr = EvCompile (PostArchive file) :: List.map EvCtan pkgs ++ new
              ∧ NoDup pkgs
              ∧ (new = [] ∨ ∃ file', new = [EvCompile (PostArchive file')]))
    as Hshape.
  { subst tr. unfold Upload.POST.
    destruct (rate_step _ _ _ _ _) as [rate' over].
    destruct (Upload.validate env over rq) as [resp|[name content]]; [by left|].
    destruct (Upload.stage w name content fs) as [[resp|s] fs1]; [by left|].
    destruct (Upload.only_archive rq).
    { destruct (Upload.send_back s fs1). by left. }
    pose proof (send_and_recover_eq w s fs1) as Heq.
    destruct (Upload.send_and_recover w s fs1) as [[resp fs2] tr]. simpl.
    destruct (fs1 !! Upload.archivePath s) as [[|d]|];
      try (injection Heq as _ _ ->; by left).
    destruct (svc w 0 _) as [msg|r].
    { injection Heq as _ _ ->. right. exists (Some (File d)), [], [].
      split; [done|]. split; [constructor|by left]. }
    apply (f_equal snd) in Heq. simpl in Heq. rewrite conclude_trace in Heq.
    destruct (recovery_trace w s r fs1 [EvCompile (PostArchive (Some (File d)))])
      as (pkgs & new & Htr & Hnd & _ & Hnew & _).
    rewrite Htr in Heq. right. by exists (Some (File d)), pkgs, new. }
  split; [done|].
  destruct Hshape as [-> | (file & pkgs & new & -> & _ & Hnew)]; [simpl; lia|].
  simpl. rewrite List.filter_app, filter_compile_ctan. simpl.
  destruct Hnew as [-> | [file' ->]]; simpl; lia.
Qed.



(** X23.  An upload larger than the ceiling is never written to disk and
    nothing is asked of any service: the request is refused (413, or 429
    or 400 when an earlier check refuses it). *)
Theorem oversize_upload_is_never_stored (env : option N) (w : World)
    (rateMap : gmap (list N) RateEnt) (fs : gmap (list N) Node) (now : N)
    (rq : Upload.Request) (name content : list N) :
  Upload.form rq = Some (Upload.FileField name content) →
  Upload.MAX_UPLOAD_BYTES env < N.of_nat (length content) →
  (Upload.POST env w rateMap fs now rq).1.2 = fs
  ∧ (Upload.POST env w rateMap fs now rq).2 = []
  ∧ In (Upload.http_status (Upload.POST env w rateMap fs now rq).1.1.1)
       [429; 400; 413].
Proof.
  intros Hform Hbig. apply N.ltb_lt in Hbig. unfold Upload.POST.
  destruct (rate_step _ _ _ _ _) as [rate' over].
  unfold Upload.validate. rewrite Hform, Hbig.
  destruct over; [simpl; tauto|].
  destruct (negb (includes _ _)); [simpl; tauto|].
  destruct (negb (existsb _ _)); simpl; tauto.
Qed.

Lemma oversize_upload_is_never_stored_witness :
  (Upload.POST (Some 16)
     (Fixtures.platform (fun _ _ => Rejects []) Fixtures.ctan_foo)
     ∅ ∅ 0 (Fixtures.upload_tex None)).1.2 = ∅
  ∧ (Upload.POST (Some 16)
       (Fixtures.platform (fun _ _ => Rejects []) Fixtures.ctan_foo)
       ∅ ∅ 0 (Fixtures.upload_tex None)).2 = [].
Proof.
  destruct (oversize_upload_is_never_stored (Some 16)
              (Fixtures.platform (fun _ _ => Rejects []) Fixtures.ctan_foo)
              ∅ ∅ 0 (Fixtures.upload_tex None)
              (str "cv.tex") (str "\documentclass{article}\usepackage{foo}"))
    as (H1 & H2 & _); [reflexivity | reflexivity | by split].
Defined.



(** A log answered 204 by the compilation service cannot be passed on: the
    route answers 500. *)
Example log_with_null_body_status :
  (Upload.POST None
     (Fixtures.platform
        (fun _ _ => Resolves {| status := 204; content_type := None; body := [] |})
        Fixtures.ctan_foo)
     ∅ ∅ 0
     {| Upload.xff := None;
        Upload.ctype := Some (str "multipart/form-data; boundary=x");
        Upload.form := Some (Upload.FileField (str "cv.tar.bz2") (str "BZh91AY"));
        Upload.onlyArchive := None |}).1.1.1
  = Upload.InternalError.
Proof. vm_compute. reflexivity. Qed.

End UploadFiles.

(** ** The extension *)

Section ExtensionFacts.
Import Js More Svc Extension.

Lemma retry_rounds_policy fetch left i tr :
  (0 < left)%nat →
  ∃ k, (k < left)%nat
    ∧ (retry_rounds fetch i left tr).2 = tr ++ backoff i k ++ [EvFetch]
    ∧ (∀ j, (j < k)%nat → retryable (fetch (i + j)%nat) = true)
    ∧ match (retry_rounds fetch i left tr).1 with
      | inr r => fetch (i + k)%nat = Resolves r ∧ retryable (fetch (i + k)%nat) = false
      | inl e =>
          k = (left - 1)%nat ∧ retryable (fetch (i + k)%nat) = true
          ∧ code e = NETWORK_ERROR
      end.
Proof.
  revert i tr. induction left as [|left IH]; intros i tr Hpos; [lia|].
  cbn [retry_rounds]. unfold try_round.
  destruct left as [|left'].
  - exists 0%nat. rewrite Nat.add_0_r. simpl backoff. unfold retryable.
    destruct (fetch i) as [msg|r]; simpl.
    + repeat split; solve [lia | done | intros; lia].
    + destruct ((status r =? 429) || (500 <=? status r)) eqn:E; simpl;
        repeat split; solve [lia | done | intros; lia].
  - assert (∀ tr',
              tr' = tr ++ [EvFetch; EvSleep (delay i)] →
              retryable (fetch i) = true →
              ∃ k, (k < S (S left'))%nat
                ∧ (retry_rounds fetch (S i) (S left') tr').2
                  = tr ++ backoff i k ++ [EvFetch]
                ∧ (∀ j, (j < k)%nat → retryable (fetch (i + j)%nat) = true)
                ∧ match (retry_rounds fetch (S i) (S left') tr').1 with
                  | inr r => fetch (i + k)%nat = Resolves r
                             ∧ retryable (fetch (i + k)%nat) = false
                  | inl e => k = (S (S left') - 1)%nat
                             ∧ retryable (fetch (i + k)%nat) = true
                             ∧ code e = NETWORK_ERROR
                  end) as Hnext.
    { intros tr' -> Hi.
      destruct (IH (S i) (tr ++ [EvFetch; EvSleep (delay i)]) ltac:(lia))
        as (k & Hk & Htr & Hbefore & Hres).
      exists (S k). split; [lia|]. split.
      { rewrite Htr, <- app_assoc. done. }
      split.
      { intros [|j] Hj; [by rewrite Nat.add_0_r|].
        replace (i + S j)%nat with (S i + j)%nat by lia. apply Hbefore. lia. }
      replace (i + S k)%nat with (S i + k)%nat by lia.
      destruct (retry_rounds fetch (S i) (S left') _).1 as [e|r]; [|done].
      destruct Hres as (-> & ? & ?). repeat split; solve [lia | done]. }
    destruct (fetch i) as [msg|r] eqn:Hf.
    + by apply Hnext.
    + destruct ((status r =? 429) || (500 <=? status r)) eqn:E.
      * by apply Hnext.
      * exists 0%nat. rewrite Nat.add_0_r. simpl. unfold retryable. rewrite Hf.
        repeat split; solve [lia | done | intros; lia].
Qed.

(** X25.  [fetchWithRetry] with a positive number of rounds calls [fetch]
    once a round, pausing 1 s, 2 s, 4 s, ... between the rounds.  It goes on
    while [fetch] rejects or answers 429 or 5xx, and returns the first
    response that is neither.  When every round fails it throws after the
    last one without another pause, and the error code is [NETWORK_ERROR]
    also when the last answer was a 429 or a 5xx: the codes [RATE_LIMIT] and
    [API_ERROR] made for that case are replaced by its own [catch]. *)
Theorem fetchWithRetry_policy (fetch : nat -> HttpResult) (maxRetries : nat) :
  (0 < maxRetries)%nat →
  ∃ k, (k < maxRetries)%nat
    ∧ (fetchWithRetry fetch maxRetries).2 = backoff 0 k ++ [EvFetch]
    ∧ (∀ j, (j < k)%nat → retryable (fetch j) = true)
    ∧ match (fetchWithRetry fetch maxRetries).1 with
      | inr r => fetch k = Resolves r ∧ retryable (fetch k) = false
      | inl e =>
          k = (maxRetries - 1)%nat ∧ retryable (fetch k) = true
          ∧ code e = NETWORK_ERROR
      end.
Proof.
  intros Hpos. unfold fetchWithRetry.
  destruct (retry_rounds_policy fetch maxRetries 0 [] Hpos)
    as (k & Hk & Htr & Hbefore & Hres).
  exists k. by repeat split.
Qed.

Lemma fetchWithRetry_policy_witness :
  ∃ k, (k < 3)%nat
    ∧ (fetchWithRetry (fun _ => Resolves {| status := 429; content_type := None;
                                            body := [] |}) 3).2
      = backoff 0 k ++ [EvFetch]
    ∧ ∀ j, (j < k)%nat →
           retryable ((fun _ => Resolves {| status := 429; content_type := None;
                                            body := [] |}) j) = true.
Proof.
  destruct (fetchWithRetry_policy
              (fun _ => Resolves {| status := 429; content_type := None; body := [] |})
              3 ltac:(lia)) as (k & Hk & Htr & Hbefore & _).
  exists k. by repeat split.
Defined.

(** After three rounds of 429 the error is reported as a network error. *)
Example rate_limited_thrice :
  fetchWithRetry (fun _ => Resolves {| status := 429; content_type := None;
                                       body := [] |}) 3
  = (inl {| message := MaxRetriesExceeded 429; code := NETWORK_ERROR |},
     [EvFetch; EvSleep 1000; EvFetch; EvSleep 2000; EvFetch]).
Proof. reflexivity. Qed.

Lemma filter_all {A} (f : A → bool) (l : list A) :
  (∀ x, In x l → f x = true) → List.filter f l = l.
Proof.
  induction l as [|a l IH]; simpl; [done|]. intros H.
  rewrite (H a) by by left. f_equal. apply IH. intros x Hx. apply H. by right.
Qed.

Lemma sanitizeInput_no_nul s : ¬ In 0 (sanitizeInput s).
Proof.
  unfold sanitizeInput. intros H%trim_In. apply filter_In in H as [_ H].
  discriminate H.
Qed.

(** X26.  [sanitizeInput] gives a string without NUL whose first and last
    characters are not white space, keeps a string that is already so, and
    so changes nothing when applied twice. *)
Theorem sanitizeInput_is_a_normal_form (s : list N) :
  ¬ In 0 (sanitizeInput s)
  ∧ no_edge_ws (sanitizeInput s)
  ∧ (∀ t, ¬ In 0 t → no_edge_ws t → sanitizeInput t = t)
  ∧ sanitizeInput (sanitizeInput s) = sanitizeInput s.
Proof.
  assert (∀ t, ¬ In 0 t → no_edge_ws t → sanitizeInput t = t) as Hfix.
  { intros t Hnul Hedge. unfold sanitizeInput. rewrite filter_all.
    - by apply trim_fixed.
    - intros x Hx. apply negb_true_iff, N.eqb_neq. by intros ->. }
  split; [apply sanitizeInput_no_nul|].
  split; [apply trim_no_edge_ws|]. split; [done|].
  apply Hfix; [apply sanitizeInput_no_nul | apply trim_no_edge_ws].
Qed.

Lemma max_run_ge cur s : (cur ≤ max_run cur s)%nat.
Proof.
  revert cur. induction s as [|c s IH]; intros cur; simpl; [lia|].
  destruct (is_key_char c); [|lia]. specialize (IH (S cur)). lia.
Qed.

Lemma max_run_le cur s : (max_run cur s ≤ cur + length s)%nat.
Proof.
  revert cur. induction s as [|c s IH]; intros cur; simpl; [lia|].
  destruct (is_key_char c).
  - specialize (IH (S cur)). lia.
  - specialize (IH 0%nat). lia.
Qed.

Lemma max_run_mono cur cur' s :
  (cur ≤ cur')%nat → (max_run cur s ≤ max_run cur' s)%nat.
Proof.
  revert cur cur'. induction s as [|c s IH]; intros cur cur' H; simpl; [lia|].
  destruct (is_key_char c); [apply IH|]; lia.
Qed.

Lemma max_run_break cur a c b :
  is_key_char c = false →
  max_run cur (a ++ c :: b) = Nat.max (max_run cur a) (max_run 0 b).
Proof.
  intros Hc. revert cur. induction a as [|x a IH]; intros cur; simpl.
  - by rewrite Hc.
  - destruct (is_key_char x); [apply IH|]. rewrite IH. lia.
Qed.

Lemma max_run_flush run : (max_run 0 (flush run) < 20)%nat.
Proof.
  unfold flush. destruct (20 <=? length run)%nat eqn:E.
  - vm_compute. lia.
  - apply Nat.leb_gt in E. pose proof (max_run_le 0 (rev run)) as H.
    rewrite length_rev in H. lia.
Qed.

Lemma max_run_redact run s : (max_run 0 (redact_runs run s) < 20)%nat.
Proof.
  revert run. induction s as [|c s IH]; intros run; simpl.
  - apply max_run_flush.
  - destruct (is_key_char c) eqn:E; [apply IH|].
    rewrite max_run_break by done.
    pose proof (max_run_flush run). pose proof (IH []). lia.
Qed.

Lemma max_run_prefix n l post :
  forallb is_key_char l = true → (n + length l ≤ max_run n (l ++ post))%nat.
Proof.
  revert n. induction l as [|z l IH]; intros n Hl; simpl.
  - pose proof (max_run_ge n post). lia.
  - simpl in Hl. apply andb_true_iff in Hl as [Hz Hl]. rewrite Hz.
    specialize (IH (S n) Hl). lia.
Qed.

(** A run of key characters inside [s] is no longer than the longest. *)
Lemma max_run_sub pre k post cur :
  forallb is_key_char k = true →
  (length k ≤ max_run cur (pre ++ k ++ post))%nat.
Proof.
  intros Hk. revert cur. induction pre as [|c pre IH]; intros cur.
  - simpl. pose proof (max_run_prefix cur k post Hk). lia.
  - simpl. destruct (is_key_char c).
    + apply IH.
    + specialize (IH 0%nat). lia.
Qed.

(** X27.  A key that [validateApiKeyFormat] accepts never shows in a
    message that went through [redactSensitiveInfo]: the trimmed key is no
    substring of the result, whatever the message was. *)
Theorem accepted_key_never_survives_redaction (apiKey message : list N) :
  validateApiKeyFormat apiKey = true →
  includes (trim apiKey) (redactSensitiveInfo message) = false.
Proof.
  unfold validateApiKeyFormat. destruct (negb (truthy apiKey)); [done|].
  destruct ((length (trim apiKey) <? 20)%nat || _) eqn:Hlen; [done|].
  apply orb_false_iff in Hlen as [Hlen _]. apply Nat.ltb_ge in Hlen.
  intros [_ Hkey]%andb_true_iff.
  destruct (includes _ _) eqn:Hinc; [|done]. exfalso.
  apply anywhere_true in Hinc as (pre & post & Heq & Hm).
  unfold matches in Hm.
  destruct (strip (trim apiKey) post) as [r|] eqn:Hs; [|done].
  apply strip_Some in Hs. subst post.
  pose proof (max_run_sub pre (trim apiKey) r 0 Hkey) as Hsub.
  rewrite <- Heq in Hsub. unfold redactSensitiveInfo in Hsub.
  pose proof (max_run_redact [] message). lia.
Qed.

Lemma accepted_key_never_survives_redaction_witness :
  includes (trim (str "AIzaSyA-1234567890_abcdefghijklmnopqrstu"))
    (redactSensitiveInfo
       (str "request failed for key AIzaSyA-1234567890_abcdefghijklmnopqrstu (429)"))
  = false.
Proof.
  apply (accepted_key_never_survives_redaction
           (str "AIzaSyA-1234567890_abcdefghijklmnopqrstu")
           (str "request failed for key AIzaSyA-1234567890_abcdefghijklmnopqrstu (429)")).
  reflexivity.
Defined.

Lemma take_take_cons {A} (x : A) (l : list A) :
  take 5 (x :: take 5 l) = take 5 (x :: l).
Proof. simpl. f_equal. do 4 (destruct l as [|? l]; [done|]; simpl; f_equal). Qed.

Lemma saveToHistory_take fresh_id now stored tex jd :
  saveToHistory fresh_id now stored tex jd
  = take 5 (history_item (fresh_id, now, tex, jd) :: default [] stored).
Proof.
  unfold saveToHistory, history_item.
  destruct (5 <? _)%nat eqn:E; [done|].
  apply Nat.ltb_ge in E. symmetry. by apply take_ge.
Qed.

(** X28.  The history holds the five most recent results, the newest
    first: after any run of saves it is the first five of the saved
    entries in reverse order followed by what was stored before.  Each
    entry keeps the whole job description and its first 200 characters. *)
Theorem history_keeps_the_five_latest (stored : list HistoryItem)
    (xs : list (list N * N * list N * list N)) :
  (length stored ≤ 5)%nat →
  save_all (Some stored) xs
  = Some (take 5 (rev (List.map history_item xs) ++ stored)).
Proof.
  intros Hlen. unfold save_all.
  assert (∀ h, fold_left
                 (fun h x => let '(fresh_id, now, tex, jd) := x in
                             Some (saveToHistory fresh_id now h tex jd))
                 xs (Some (take 5 h))
               = Some (take 5 (rev (List.map history_item xs) ++ h))) as Hgen.
  { induction xs as [|[[[fresh_id now] tex] jd] xs IH]; intros h; [done|].
    cbn [fold_left List.map rev]. rewrite saveToHistory_take.
    change (default [] (Some (take 5 h))) with (take 5 h).
    rewrite take_take_cons, IH, <- app_assoc. done. }
  rewrite <- (take_ge stored 5) at 1 by done. apply Hgen.
Qed.

Lemma history_keeps_the_five_latest_witness :
  save_all (Some [])
    [(str "a", 1, str "tex1", str "jd1"); (str "b", 2, str "tex2", str "jd2")]
  = Some [history_item (str "b", 2, str "tex2", str "jd2");
          history_item (str "a", 1, str "tex1", str "jd1")].
Proof.
  apply (history_keeps_the_five_latest []
           [(str "a", 1, str "tex1", str "jd1"); (str "b", 2, str "tex2", str "jd2")]).
  simpl. lia.
Defined.

Lemma trim_length s : (length (trim s) ≤ length s)%nat.
Proof.
  unfold trim. rewrite length_rev.
  pose proof (drop_ws_length (rev (drop_ws s))) as H1.
  pose proof (drop_ws_length s) as H2. rewrite length_rev in H1. lia.
Qed.

(** X29.  The popup and the server agree on the job description.  The
    popup trims the text, checks it with [validateJobDescription], and the
    worker sends [sanitizeInput] of it; for a text without NUL the popup
    accepts exactly when the check of the tailor route (16 characters once
    trimmed) will pass. *)
Theorem popup_and_server_agree_on_jd (raw : list N) :
  ¬ In 0 raw →
  valid (validateJobDescription (Some (trim raw))) = true
  ↔ Tailor.jd_invalid (Some (sanitizeInput (trim raw))) = false.
Proof.
  intros Hnul.
  assert (sanitizeInput (trim raw) = trim raw) as ->.
  { unfold sanitizeInput. rewrite filter_all.
    - apply trim_idem.
    - intros x Hx%trim_In. apply negb_true_iff, N.eqb_neq. by intros ->. }
  unfold validateJobDescription, Tailor.jd_invalid. rewrite trim_idem.
  destruct (trim raw) as [|c t] eqn:E; [done|]. cbn [truthy negb orb].
  cbn [length Nat.eqb].
  destruct (S (length t) <? 16)%nat eqn:E16.
  - apply Nat.ltb_lt in E16. simpl valid. split; [done|].
    intros H. apply N.ltb_ge in H. simpl length in H. lia.
  - apply Nat.ltb_ge in E16. simpl valid. split; [|done]. intros _.
    apply N.ltb_ge. simpl length. lia.
Qed.

Lemma popup_and_server_agree_on_jd_witness :
  valid (validateJobDescription
           (Some (trim (str "  Senior Go engineer, Berlin  ")))) = true
  ↔ Tailor.jd_invalid
      (Some (sanitizeInput (trim (str "  Senior Go engineer, Berlin  ")))) = false.
Proof.
  apply (popup_and_server_agree_on_jd (str "  Senior Go engineer, Berlin  ")).
  vm_compute. intuition discriminate.
Defined.

(** With NUL characters the two part: sixteen of them pass the popup, and
    the worker sends the empty string. *)
Example nul_padding_passes_the_popup_only :
  valid (validateJobDescription (Some (trim (repeat 0 16)))) = true
  ∧ Tailor.jd_invalid (Some (sanitizeInput (trim (repeat 0 16)))) = true.
Proof. vm_compute. by split. Qed.

End ExtensionFacts.
